(** * varstored: the PCI transport shim (pci.c) and the build-time
      authentication-descriptor generator (create-auth.c)

    A shallow embedding of the two C files and the properties their
    specification states about them.

    Conventions of the embedding.
    - A C unsigned integer of [w] bits is a [Z] kept in [0, 2^w); every
      C operation that can leave the range is followed by its wrap-around
      ([u8], [u16], [u32], [u64]).
    - A byte array ([uint8_t config[]], a [malloc]ed buffer, a file) is a
      [list Z]; [memcpy] into an array is [list_inserts].
    - The host is little-endian (the code copies integers into byte
      arrays with [memcpy] and relies on it).
    - Everything outside the two files (the handlers behind a BAR, the
      hypervisor calls, the OpenSSL calls, [getopt] and the stream of the
      output file) is a parameter. *)

From Stdlib Require Import ZArith Lia List Bool String Ascii.
From stdpp Require Import base tactics option list vector.

#[local] Open Scope Z_scope.

(** ** Machine integers *)

Definition u8  (z : Z) : Z := z mod 2 ^ 8.
Definition u16 (z : Z) : Z := z mod 2 ^ 16.
Definition u32 (z : Z) : Z := z mod 2 ^ 32.
Definition u64 (z : Z) : Z := z mod 2 ^ 64.

(** [le_bytes n v]: the [n] bytes that [memcpy] reads from an [n]-byte
    integer object holding [v]. *)
Fixpoint le_bytes (n : nat) (v : Z) : list Z :=
  match n with
  | O => []
  | S n' => u8 v :: le_bytes n' (Z.shiftr v 8)
  end.

(** [le_value bs]: the integer whose object representation is [bs]. *)
Fixpoint le_value (bs : list Z) : Z :=
  match bs with
  | [] => 0
  | b :: bs' => Z.lor (u8 b) (Z.shiftl (le_value bs') 8)
  end.

(** [a[k]] for an index the code has checked to be inside the array. *)
Definition byte_at (a : list Z) (k : Z) : Z := default 0 (a !! Z.to_nat k).

(** [memcpy(&a[k], src, length src)]. *)
Definition memcpy (a : list Z) (k : Z) (src : list Z) : list Z :=
  list_inserts (Z.to_nat k) src a.

(** [memcpy(&v, &a[k], n)] into an [n]-byte integer [v]. *)
Definition le_load (n : nat) (a : list Z) (k : Z) : Z :=
  le_value (take n (drop (Z.to_nat k) a)).

(** A shift of a 32-bit operand by 32 or more has no defined result in C.
    The model takes the result of such a shift from an arbitrary function,
    so that what is proved holds whatever the compiled code does there. *)
Record undefined_shifts := {
  wide_shl : Z -> Z -> Z;
  wide_shr : Z -> Z -> Z
}.

Definition shl32 (ub : undefined_shifts) (v n : Z) : Z :=
  if n <? 32 then u32 (Z.shiftl v n) else u32 (wide_shl ub v n).

Definition shr32 (ub : undefined_shifts) (v n : Z) : Z :=
  if n <? 32 then Z.shiftr v n else u32 (wide_shr ub v n).

(** [p == NULL] for a nullable pointer. *)
Definition is_null {A : Type} (p : option A) : bool :=
  match p with None => true | Some _ => false end.

Module Pci.

(** ** pci.h *)

(** Modelled from the spec: pci.h is not among the sources.  Section 6 of
    the specification gives the size of the configuration space (256
    bytes), the registers BAR0..BAR5 (six BARs of four bytes from 0x10) and
    the offsets VENDOR_ID=0x00, DEVICE_ID=0x02, COMMAND=0x04,
    CLASS=0x09..0x0B, HEADER_TYPE=0x0E, INTERRUPT_LINE=0x3C and
    INTERRUPT_PIN=0x3D; the configuration header is its first 64 bytes. *)
Definition PCI_CONFIG_SIZE : Z := 256.
Definition PCI_CONFIG_HEADER_SIZE : Z := 64.
Definition PCI_NUM_BAR : nat := 6.
Definition PCI_VENDOR_ID : Z := 0x00.
Definition PCI_DEVICE_ID : Z := 0x02.
Definition PCI_COMMAND : Z := 0x04.
Definition PCI_CLASS_PROG : Z := 0x09.
Definition PCI_CLASS_DEVICE : Z := 0x0a.
Definition PCI_HEADER_TYPE : Z := 0x0e.
Definition PCI_BASE_ADDRESS_0 : Z := 0x10.
Definition PCI_INTERRUPT_LINE : Z := 0x3c.
Definition PCI_INTERRUPT_PIN : Z := 0x3d.

(** The remaining constants of pci.h, on which the specification is
    silent, are parameters of the development. *)
Record pci_h := {
  PCI_BAR_UNMAPPED : Z;
  PCI_REVISION_ID : Z;
  PCI_CACHE_LINE_SIZE : Z;
  PCI_SUBSYSTEM_VENDOR_ID : Z;
  PCI_SUBSYSTEM_ID : Z;
  PCI_COMMAND_IO : Z;
  PCI_COMMAND_MEMORY : Z;
  PCI_COMMAND_MASTER : Z;
  PCI_COMMAND_INTX_DISABLE : Z;
  PCI_BASE_ADDRESS_SPACE_IO : Z;
  PCI_BASE_ADDRESS_MEM_MASK : Z;
  PCI_BASE_ADDRESS_IO_MASK : Z
}.

(** The values these constants have in the PCI register layout; used for
    the concrete evaluations below. *)
Definition pci_regs : pci_h := {|
  PCI_BAR_UNMAPPED := 0xffffffff;
  PCI_REVISION_ID := 0x08;
  PCI_CACHE_LINE_SIZE := 0x0c;
  PCI_SUBSYSTEM_VENDOR_ID := 0x2c;
  PCI_SUBSYSTEM_ID := 0x2e;
  PCI_COMMAND_IO := 0x1;
  PCI_COMMAND_MEMORY := 0x2;
  PCI_COMMAND_MASTER := 0x4;
  PCI_COMMAND_INTX_DISABLE := 0x400;
  PCI_BASE_ADDRESS_SPACE_IO := 0x01;
  PCI_BASE_ADDRESS_MEM_MASK := Z.lnot 0x0f;
  PCI_BASE_ADDRESS_IO_MASK := Z.lnot 0x03
|}.

(** Modelled from the spec: [bar_ops_t] is declared in pci.h.  The table
    has nullable [map]/[unmap] hooks and read/write handlers of the native
    widths of 1, 2 and 4 bytes (section 4.G); a handler gets the BAR's
    [priv] pointer and an offset relative to the BAR.  [W] is the state a
    handler can reach and change. *)
Record bar_ops_t (W : Type) := {
  map    : option (Z -> Z -> W -> W);
  unmap  : option (Z -> W -> W);
  readb  : option (Z -> Z -> W -> Z * W);
  readw  : option (Z -> Z -> W -> Z * W);
  readl  : option (Z -> Z -> W -> Z * W);
  writeb : option (Z -> Z -> Z -> W -> W);
  writew : option (Z -> Z -> Z -> W -> W);
  writel : option (Z -> Z -> Z -> W -> W)
}.
Arguments map {W}.
Arguments unmap {W}.
Arguments readb {W}.
Arguments readw {W}.
Arguments readl {W}.
Arguments writeb {W}.
Arguments writew {W}.
Arguments writel {W}.

(** Modelled from the spec: [pci_info_t] is declared in pci.h; the fields
    are those [pci_device_register] reads, the identifiers and the command
    word being the 16-bit registers of section 6. *)
Record pci_info_t := {
  bus : Z; device : Z; function : Z;
  vendor_id : Z; device_id : Z;
  subvendor_id : Z; subdevice_id : Z;
  revision : Z; class : Z; subclass : Z; prog_if : Z;
  header_type : Z; command : Z; interrupt_pin : Z
}.

(** The libxenctrl calls of pci.c. *)
Record xenctrl (W : Type) := {
  xc_hvm_map_pcidev_to_ioreq_server :
    Z -> Z -> Z -> Z -> Z -> Z -> Z -> W -> Z * W;
  xc_hvm_map_io_range_to_ioreq_server :
    Z -> Z -> Z -> Z -> Z -> Z -> W -> W;
  xc_hvm_unmap_io_range_from_ioreq_server :
    Z -> Z -> Z -> Z -> Z -> Z -> W -> W
}.
Arguments xc_hvm_map_pcidev_to_ioreq_server {W}.
Arguments xc_hvm_map_io_range_to_ioreq_server {W}.
Arguments xc_hvm_unmap_io_range_from_ioreq_server {W}.

(** ** The device state *)

Record pci_bar_t (W : Type) := {
  ops     : option (bar_ops_t W);
  is_mmio : Z;
  enable  : Z;
  addr    : Z;
  size    : Z;
  priv    : Z
}.
Arguments ops {W}.
Arguments is_mmio {W}.
Arguments enable {W}.
Arguments addr {W}.
Arguments size {W}.
Arguments priv {W}.

Record pci_t (W : Type) := {
  xch       : Z;
  domid     : Z;
  ioservid  : Z;
  bdf       : Z;
  config    : list Z;
  mask      : list Z;
  bar       : list (pci_bar_t W);
  irq_pin   : Z;
  irq_state : Z
}.
Arguments xch {W}.
Arguments domid {W}.
Arguments ioservid {W}.
Arguments bdf {W}.
Arguments config {W}.
Arguments mask {W}.
Arguments bar {W}.
Arguments irq_pin {W}.
Arguments irq_state {W}.

Section Device.

Context {W : Type}.
Variable H : pci_h.
Variable xc : xenctrl W.
Variable ub : undefined_shifts.

Definition set_config (s : pci_t W) (c : list Z) : pci_t W :=
  {| xch := xch s; domid := domid s; ioservid := ioservid s; bdf := bdf s;
     config := c; mask := mask s; bar := bar s;
     irq_pin := irq_pin s; irq_state := irq_state s |}.

Definition set_mask (s : pci_t W) (m : list Z) : pci_t W :=
  {| xch := xch s; domid := domid s; ioservid := ioservid s; bdf := bdf s;
     config := config s; mask := m; bar := bar s;
     irq_pin := irq_pin s; irq_state := irq_state s |}.

Definition set_bar (s : pci_t W) (index : nat) (b : pci_bar_t W) : pci_t W :=
  {| xch := xch s; domid := domid s; ioservid := ioservid s; bdf := bdf s;
     config := config s; mask := mask s; bar := <[index := b]> (bar s);
     irq_pin := irq_pin s; irq_state := irq_state s |}.

Definition set_addr (b : pci_bar_t W) (a : Z) : pci_bar_t W :=
  {| ops := ops b; is_mmio := is_mmio b; enable := enable b;
     addr := a; size := size b; priv := priv b |}.

(** *** pci_map_bar, pci_unmap_bar

    [None] is the dereference of a null [bar->ops]. *)
Definition pci_map_bar (index : nat) (s : pci_t W) (w : W) : option W :=
  b ← bar s !! index;
  o ← ops b;
  let w1 := match map o with
            | Some f => f (priv b) (addr b) w
            | None => w
            end in
  Some (xc_hvm_map_io_range_to_ioreq_server xc
          (xch s) (domid s) (ioservid s) (is_mmio b)
          (addr b) (u32 (addr b + size b - 1)) w1).

Definition pci_unmap_bar (index : nat) (s : pci_t W) (w : W) : option W :=
  b ← bar s !! index;
  let w1 := xc_hvm_unmap_io_range_from_ioreq_server xc
              (xch s) (domid s) (ioservid s) (is_mmio b)
              (addr b) (u32 (addr b + size b - 1)) w in
  o ← ops b;
  Some match unmap o with
       | Some f => f (priv b) w1
       | None => w1
       end.

(** *** pci_update_bar *)

(** The address [pci_update_bar] computes for a BAR before it compares it
    with [bar->addr]: lines 336-354. *)
Definition bar_target (s : pci_t W) (index : nat) (b : pci_bar_t W) : Z :=
  let mask := u32 (Z.lnot (u32 (size b - 1))) in
  let addr := le_load 4 (config s) (PCI_BASE_ADDRESS_0 + Z.of_nat index * 4) in
  let cmd := le_load 2 (config s) PCI_COMMAND in
  let addr := if is_mmio b =? 0
              then u32 (Z.land addr (PCI_BASE_ADDRESS_IO_MASK H))
              else u32 (Z.land addr (PCI_BASE_ADDRESS_MEM_MASK H)) in
  let addr := if ((Z.land cmd (PCI_COMMAND_IO H) =? 0) && (is_mmio b =? 0))
                 || ((Z.land cmd (PCI_COMMAND_MEMORY H) =? 0)
                     && negb (is_mmio b =? 0))
              then PCI_BAR_UNMAPPED H else addr in
  if (addr =? 0) || (addr =? mask) then PCI_BAR_UNMAPPED H else addr.

Definition pci_update_bar (index : nat) (st : pci_t W * W)
  : option (pci_t W * W) :=
  let '(s, w) := st in
  b ← bar s !! index;
  if enable b =? 0 then Some st else
  let addr := bar_target s index b in
  if Z.eqb (Pci.addr b) addr then Some st else
  '(s1, w1) ←
    (if negb (Z.eqb (Pci.addr b) (PCI_BAR_UNMAPPED H))
     then w' ← pci_unmap_bar index s w;
          Some (set_bar s index (set_addr b (PCI_BAR_UNMAPPED H)), w')
     else Some (s, w));
  if negb (addr =? PCI_BAR_UNMAPPED H)
  then let s2 := set_bar s1 index (set_addr b addr) in
       w2 ← pci_map_bar index s2 w1;
       Some (s2, w2)
  else Some (s1, w1).

(** *** pci_update_config *)
Fixpoint update_loop (n : nat) (i : nat) (st : pci_t W * W)
  : option (pci_t W * W) :=
  match n with
  | O => Some st
  | S n' => st' ← pci_update_bar i st; update_loop n' (S i) st'
  end.

Definition pci_update_config (st : pci_t W * W) : option (pci_t W * W) :=
  update_loop PCI_NUM_BAR 0 st.

(** *** pci_config_read *)
Fixpoint config_read_loop (n : nat) (i : Z) (s : pci_t W) (addr val : Z) : Z :=
  match n with
  | O => val
  | S n' =>
      let val' :=
        if u64 (addr + i) <? PCI_CONFIG_SIZE
        then Z.lor val (shl32 ub (byte_at (config s) (u64 (addr + i)))
                                 (u64 (i * 8)))
        else Z.lor val (shl32 ub 0xff (u64 (i + 8))) in
      config_read_loop n' (i + 1) s addr val'
  end.

Definition pci_config_read (s : pci_t W) (addr size : Z) : Z :=
  let addr := u64 addr in
  let size := u64 size in
  let sbdf := u32 (Z.shiftr addr 32) in
  if negb (sbdf =? bdf s) then u32 (Z.lnot 0)
  else
    let addr := Z.land addr 0xff in
    config_read_loop (Z.to_nat size) 0 s addr 0.

(** *** pci_config_write *)
Definition config_write_byte (s : pci_t W) (k : Z) (v : Z) : pci_t W :=
  let mask := byte_at (Pci.mask s) k in
  let c1 := u8 (Z.land (byte_at (config s) k) (Z.lnot mask)) in
  let c2 := u8 (Z.lor c1 (Z.land (u8 v) mask)) in
  set_config s (<[Z.to_nat k := c2]> (config s)).

Fixpoint config_write_loop (n : nat) (i : Z) (addr val : Z) (s : pci_t W)
  : pci_t W :=
  match n with
  | O => s
  | S n' =>
      let s' :=
        if u64 (addr + i) <? PCI_CONFIG_SIZE
        then config_write_byte s (u64 (addr + i)) (shr32 ub val (u64 (i * 8)))
        else s in
      config_write_loop n' (i + 1) addr val s'
  end.

Definition pci_config_write (st : pci_t W * W) (addr size val : Z)
  : option (pci_t W * W) :=
  let '(s, w) := st in
  let addr := u64 addr in
  let size := u64 size in
  let val := u32 val in
  let sbdf := u16 (Z.shiftr addr 32) in
  if negb (sbdf =? bdf s) then Some st
  else
    let addr := Z.land addr 0xff in
    let addr := u64 (addr + Z.shiftr size 16) in
    let size := Z.land size 0xffff in
    pci_update_config (config_write_loop (Z.to_nat size) 0 addr val s, w).

(** *** pci_config_resume

    [data] points to [PCI_CONFIG_SIZE] bytes. *)
Definition pci_config_resume (st : pci_t W * W) (data : list Z)
  : option (pci_t W * W) :=
  let '(s, w) := st in
  pci_update_config
    (set_config s
       (memcpy (config s) 0
          (List.map u8 (take (Z.to_nat PCI_CONFIG_SIZE) data))), w).

(** *** pci_device_register

    [pci0] is the file-scope [static pci_t pci], which C initialises to
    zero. *)
Definition bar0 : pci_bar_t W :=
  {| ops := None; is_mmio := 0; enable := 0; addr := 0; size := 0; priv := 0 |}.

Definition pci0 : pci_t W :=
  {| xch := 0; domid := 0; ioservid := 0; bdf := 0;
     config := replicate (Z.to_nat PCI_CONFIG_SIZE) 0;
     mask := replicate (Z.to_nat PCI_CONFIG_SIZE) 0;
     bar := replicate PCI_NUM_BAR bar0;
     irq_pin := 0; irq_state := 0 |}.

Definition set_handle (s : pci_t W) (x d i : Z) : pci_t W :=
  {| xch := x; domid := d; ioservid := i; bdf := bdf s;
     config := config s; mask := mask s; bar := bar s;
     irq_pin := irq_pin s; irq_state := irq_state s |}.

Definition set_bdf (s : pci_t W) (v : Z) : pci_t W :=
  {| xch := xch s; domid := domid s; ioservid := ioservid s; bdf := v;
     config := config s; mask := mask s; bar := bar s;
     irq_pin := irq_pin s; irq_state := irq_state s |}.

(** The stores of lines 57-67 into [pci.config]. *)
Definition register_config (info : pci_info_t) (c : list Z) : list Z :=
  let c := memcpy c PCI_VENDOR_ID (le_bytes 2 (vendor_id info)) in
  let c := memcpy c PCI_DEVICE_ID (le_bytes 2 (device_id info)) in
  let c := memcpy c (PCI_REVISION_ID H) [u8 (revision info)] in
  let c := memcpy c PCI_CLASS_PROG [u8 (prog_if info)] in
  let c := memcpy c (PCI_CLASS_DEVICE + 1) [u8 (class info)] in
  let c := memcpy c PCI_CLASS_DEVICE [u8 (subclass info)] in
  let c := memcpy c PCI_HEADER_TYPE [u8 (header_type info)] in
  let c := memcpy c (PCI_SUBSYSTEM_VENDOR_ID H) (le_bytes 2 (subvendor_id info)) in
  let c := memcpy c (PCI_SUBSYSTEM_ID H) (le_bytes 2 (subdevice_id info)) in
  let c := memcpy c PCI_COMMAND (le_bytes 2 (command info)) in
  memcpy c PCI_INTERRUPT_PIN [u8 (interrupt_pin info)].

(** The stores of lines 69-77 into [pci.mask]. *)
Definition register_mask (m : list Z) : list Z :=
  let m := memcpy m (PCI_CACHE_LINE_SIZE H) [0xff] in
  let m := memcpy m PCI_INTERRUPT_LINE [0xff] in
  let val := u16 (Z.lor (Z.lor (Z.lor (PCI_COMMAND_IO H) (PCI_COMMAND_MEMORY H))
                               (PCI_COMMAND_MASTER H))
                        (PCI_COMMAND_INTX_DISABLE H)) in
  let m := memcpy m PCI_COMMAND (le_bytes 2 val) in
  memcpy m PCI_CONFIG_HEADER_SIZE
    (replicate (Z.to_nat (PCI_CONFIG_SIZE - PCI_CONFIG_HEADER_SIZE)) 0xff).

(** The result is the new device state, the new world and the value
    returned. *)
Definition pci_device_register (st : pci_t W * W) (x d i : Z)
    (info : pci_info_t) : pci_t W * W * Z :=
  let '(s, w) := st in
  let s := set_handle s x d i in
  if negb (Z.land (bus info) (Z.lnot 0xff) =? 0)
     || negb (Z.land (device info) (Z.lnot 0x1f) =? 0)
     || negb (Z.land (function info) (Z.lnot 0x07) =? 0)
  then (s, w, -1)
  else
    let s := set_bdf s (u16 (Z.lor (Z.lor (Z.shiftl (bus info) 8)
                                          (Z.shiftl (device info) 3))
                                   (function info))) in
    let s := set_config s (register_config info (config s)) in
    let s := set_mask s (register_mask (mask s)) in
    let '(rc, w) := xc_hvm_map_pcidev_to_ioreq_server xc x d i 0
                      (bus info) (device info) (function info) w in
    if rc <? 0 then (s, w, -1) else (s, w, 0).

(** *** pci_bar_register *)
Definition pci_bar_register (s : pci_t W) (index type order : Z)
    (o : option (bar_ops_t W)) (p : Z) : pci_t W * Z :=
  let index := u32 index in
  let type := u8 type in
  let order := u32 order in
  if Z.of_nat PCI_NUM_BAR <=? index then (s, -1) else
  match bar s !! Z.to_nat index with
  | None => (s, -1)
  | Some b =>
      if negb (enable b =? 0) then (s, -1) else
      match o with
      | None => (s, -1)
      | Some t =>
          if is_null (readb t) || is_null (writeb t)
          then (s, -1)
          else
            let sz := shl32 ub 1 order in
            let k := PCI_BASE_ADDRESS_0 + index * 4 in
            let s := set_config s (memcpy (config s) k (le_bytes 4 type)) in
            let s := set_mask s
                       (memcpy (mask s) k
                          (le_bytes 4 (u32 (Z.lnot (u32 (sz - 1)))))) in
            (set_bar s (Z.to_nat index)
               {| ops := Some t;
                  is_mmio := if Z.land type (PCI_BASE_ADDRESS_SPACE_IO H) =? 0
                             then 1 else 0;
                  enable := 1;
                  addr := PCI_BAR_UNMAPPED H;
                  size := sz;
                  priv := p |}, 0)
      end
  end.

(** *** pci_bar_get *)
Fixpoint bar_get_loop (bars : list (pci_bar_t W)) (mmio addr : Z)
  : option (pci_bar_t W) :=
  match bars with
  | [] => None
  | b :: rest =>
      if (enable b =? 0) || negb (is_mmio b =? mmio)
      then bar_get_loop rest mmio addr
      else if (Pci.addr b <=? addr) && (addr <? u32 (Pci.addr b + size b))
           then Some b
           else bar_get_loop rest mmio addr
  end.

Definition pci_bar_get (s : pci_t W) (mmio addr : Z) : option (pci_bar_t W) :=
  bar_get_loop (take PCI_NUM_BAR (bar s)) mmio addr.

(** Modelled from the spec: the handler prototypes are in pci.h; a
    handler of a native width of 1, 2 or 4 bytes (section 4.G) returns,
    and is passed, a value of that width. *)
Definition ret (width : Z) (f : Z -> Z -> W -> Z * W) : Z -> Z -> W -> Z * W :=
  fun p a w => let '(v, w') := f p a w in (v mod 2 ^ (8 * width), w').

Definition arg (width : Z) (f : Z -> Z -> Z -> W -> W) : Z -> Z -> Z -> W -> W :=
  fun p a v w => f p a (v mod 2 ^ (8 * width)) w.

(** *** PCI_BAR_READ and pci_bar_read *)
Fixpoint bar_read_loop (fn : Z -> Z -> W -> Z * W) (p size : Z) (count : nat)
    (addr shift val : Z) (w : W) : Z * W :=
  match count with
  | O => (val, w)
  | S c =>
      let '(r, w') := fn p addr w in
      bar_read_loop fn p size c (u64 (addr + size)) (u32 (shift + 8 * size))
        (Z.lor val (u32 (Z.shiftl r shift))) w'
  end.

Definition PCI_BAR_READ (fn : Z -> Z -> W -> Z * W) (p addr size : Z)
    (count : nat) (w : W) : Z * W :=
  bar_read_loop fn p size count addr 0 0 w.

(** [None] is a failed [assert] or a call through a null handler. *)
Definition pci_bar_read (s : pci_t W) (w : W) (mmio addr size : Z)
  : option (Z * W) :=
  let addr := u64 addr in
  let size := u64 size in
  b ← pci_bar_get s mmio addr;
  o ← ops b;
  let addr := u64 (addr - Pci.addr b) in
  if size =? 1 then
    f ← readb o; Some (ret 1 f (priv b) addr w)
  else if size =? 2 then
    match readw o with
    | None => f ← readb o; Some (PCI_BAR_READ (ret 1 f) (priv b) addr 1 2 w)
    | Some g => Some (ret 2 g (priv b) addr w)
    end
  else if size =? 4 then
    match readl o with
    | None =>
        match readw o with
        | None => f ← readb o; Some (PCI_BAR_READ (ret 1 f) (priv b) addr 1 4 w)
        | Some g => Some (PCI_BAR_READ (ret 2 g) (priv b) addr 2 2 w)
        end
    | Some h => Some (ret 4 h (priv b) addr w)
    end
  else None.

(** *** PCI_BAR_WRITE and pci_bar_write *)
Fixpoint bar_write_loop (fn : Z -> Z -> Z -> W -> W) (p size : Z) (count : nat)
    (addr shift val : Z) (w : W) : W :=
  match count with
  | O => w
  | S c =>
      let w' := fn p addr (Z.shiftr val shift) w in
      bar_write_loop fn p size c (u64 (addr + size)) (u32 (shift + 8 * size))
        val w'
  end.

(** The macro begins, like [PCI_BAR_READ], with [(_val) = 0]. *)
Definition PCI_BAR_WRITE (fn : Z -> Z -> Z -> W -> W) (p addr size : Z)
    (count : nat) (val : Z) (w : W) : W :=
  let val := 0 in
  bar_write_loop fn p size count addr 0 val w.

Definition pci_bar_write (s : pci_t W) (w : W) (mmio addr size val : Z)
  : option W :=
  let addr := u64 addr in
  let size := u64 size in
  let val := u32 val in
  b ← pci_bar_get s mmio addr;
  o ← ops b;
  let addr := u64 (addr - Pci.addr b) in
  if size =? 1 then
    f ← writeb o; Some (arg 1 f (priv b) addr val w)
  else if size =? 2 then
    match writew o with
    | None => f ← writeb o; Some (PCI_BAR_WRITE (arg 1 f) (priv b) addr 1 2 val w)
    | Some g => Some (arg 2 g (priv b) addr val w)
    end
  else if size =? 4 then
    match writel o with
    | None =>
        match writew o with
        | None => f ← writeb o; Some (PCI_BAR_WRITE (arg 1 f) (priv b) addr 1 4 val w)
        | Some g => Some (PCI_BAR_WRITE (arg 2 g) (priv b) addr 2 2 val w)
        end
    | Some h => Some (arg 4 h (priv b) addr val w)
    end
  else None.

(** ** The properties of the transport shim, as the specification words
    them *)

(** The byte [c] of the configuration space after a write of the byte
    [v] under the writable mask [m]: the bits set in [m] come from [v],
    the others stay. *)
Definition merged (c m v : Z) : Z :=
  u8 (Z.lor (u8 (Z.land c (Z.lnot m))) (Z.land (u8 v) m)).

(** A BAR type made of flag bits only: none of the bits of the register
    that hold the base address. *)
Definition type_flags_only (type : Z) : Prop :=
  u32 (Z.land (u8 type)
         (if Z.land (u8 type) (PCI_BASE_ADDRESS_SPACE_IO H) =? 0
          then PCI_BASE_ADDRESS_MEM_MASK H
          else PCI_BASE_ADDRESS_IO_MASK H)) = 0.

(** The states of the device: [pci_device_register] on the zeroed
    [pci], then BAR registrations, configuration writes and resumes in
    any order.  [pci_bar_register] takes any type byte. *)
Inductive reachable : pci_t W -> Prop :=
| reach_device w x d i info s w' rc :
    pci_device_register (pci0, w) x d i info = (s, w', rc) ->
    reachable s
| reach_bar s index type order o p s' :
    reachable s ->
    pci_bar_register s index type order o p = (s', 0) ->
    reachable s'
| reach_write s w addr size val s' w' :
    reachable s ->
    pci_config_write (s, w) addr size val = Some (s', w') ->
    reachable s'
| reach_resume s w data s' w' :
    reachable s ->
    pci_config_resume (s, w) data = Some (s', w') ->
    reachable s'.

(** The states among them that a caller reaches who registers every BAR
    with a type byte made of flag bits only. *)
Inductive reachable_flags : pci_t W -> Prop :=
| flags_device w x d i info s w' rc :
    pci_device_register (pci0, w) x d i info = (s, w', rc) ->
    reachable_flags s
| flags_bar s index type order o p s' :
    reachable_flags s ->
    type_flags_only type ->
    pci_bar_register s index type order o p = (s', 0) ->
    reachable_flags s'
| flags_write s w addr size val s' w' :
    reachable_flags s ->
    pci_config_write (s, w) addr size val = Some (s', w') ->
    reachable_flags s'
| flags_resume s w data s' w' :
    reachable_flags s ->
    pci_config_resume (s, w) data = Some (s', w') ->
    reachable_flags s'.

(** The writable bits of the configuration space: bit [b] of the byte at
    offset [k]. *)
Definition command_enable_bits : Z :=
  u16 (Z.lor (Z.lor (Z.lor (PCI_COMMAND_IO H) (PCI_COMMAND_MEMORY H))
                    (PCI_COMMAND_MASTER H))
             (PCI_COMMAND_INTX_DISABLE H)).

Inductive writable (s : pci_t W) (k b : Z) : Prop :=
| writable_command :
    PCI_COMMAND <= k < PCI_COMMAND + 2 ->
    Z.testbit command_enable_bits (8 * (k - PCI_COMMAND) + b) = true ->
    writable s k b
| writable_bar index r :
    bar s !! index = Some r ->
    enable r <> 0 ->
    PCI_BASE_ADDRESS_0 + 4 * Z.of_nat index <= k
      < PCI_BASE_ADDRESS_0 + 4 * Z.of_nat index + 4 ->
    Z.testbit (u32 (Z.lnot (u32 (size r - 1))))
      (8 * (k - (PCI_BASE_ADDRESS_0 + 4 * Z.of_nat index)) + b) = true ->
    writable s k b
| writable_cache_line :
    k = PCI_CACHE_LINE_SIZE H -> writable s k b
| writable_interrupt_line :
    k = PCI_INTERRUPT_LINE -> writable s k b
| writable_past_header :
    PCI_CONFIG_HEADER_SIZE <= k -> writable s k b.

(** What [pci_update_bar] leaves in [pci.bar[index]]: a BAR that is not
    enabled is not touched, an enabled one sits at the address computed
    from the configuration space. *)
Definition retarget (s : pci_t W) (index : nat) (b : pci_bar_t W)
  : pci_bar_t W :=
  if enable b =? 0 then b else set_addr b (bar_target s index b).

(** Every BAR of the array is there, and an enabled one has its handler
    table. *)
Definition bars_ok (s : pci_t W) : Prop :=
  length (bar s) = PCI_NUM_BAR
  /\ forall index b,
       bar s !! index = Some b -> enable b <> 0 -> is_Some (ops b).

(** Every enabled BAR sits at the address computed from the
    configuration space. *)
Definition bars_at_target (s : pci_t W) : Prop :=
  forall index b,
    bar s !! index = Some b -> enable b <> 0 ->
    Pci.addr b = bar_target s index b.

(** Every enabled BAR that is mapped sits at the address computed from
    the configuration space. *)
Definition mapped_at_target (s : pci_t W) : Prop :=
  forall index b,
    bar s !! index = Some b -> enable b <> 0 ->
    Pci.addr b = PCI_BAR_UNMAPPED H \/ Pci.addr b = bar_target s index b.

(** [PCI_BAR_UNMAPPED] is not a value a base address can have: the
    masks that take the base address out of a BAR register clear a bit
    that [PCI_BAR_UNMAPPED] has. *)
Definition unmapped_is_no_base : Prop :=
  forall x,
    u32 (Z.land x (PCI_BASE_ADDRESS_MEM_MASK H)) <> PCI_BAR_UNMAPPED H
    /\ u32 (Z.land x (PCI_BASE_ADDRESS_IO_MASK H)) <> PCI_BAR_UNMAPPED H.

(** Every bit set in the writable mask is one of the writable bits. *)
Definition writable_only (s : pci_t W) : Prop :=
  forall k b,
    0 <= k < PCI_CONFIG_SIZE -> 0 <= b < 8 ->
    Z.testbit (byte_at (mask s) k) b = true -> writable s k b.

(** The BARs of [s'] are those of [s], each at some address. *)
Definition bars_moved (s s' : pci_t W) : Prop :=
  forall index r,
    bar s !! index = Some r -> exists a, bar s' !! index = Some (set_addr r a).

(** The enable bit of the COMMAND register that matches the space of a
    BAR is set. *)
Definition space_enabled (s : pci_t W) (b : pci_bar_t W) : Prop :=
  Z.land (le_load 2 (config s) PCI_COMMAND)
    (if is_mmio b =? 0 then PCI_COMMAND_IO H else PCI_COMMAND_MEMORY H) <> 0.

(** The base address decoded from the configuration register of a BAR. *)
Definition bar_base (s : pci_t W) (index : nat) (b : pci_bar_t W) : Z :=
  u32 (Z.land
         (le_load 4 (config s) (PCI_BASE_ADDRESS_0 + Z.of_nat index * 4))
         (if is_mmio b =? 0 then PCI_BASE_ADDRESS_IO_MASK H
          else PCI_BASE_ADDRESS_MEM_MASK H)).

(** The size-probe pattern of a BAR: all ones in the address bits above
    its size, [~(size - 1)], which is what the guest reads back as the
    base address after it has written all ones to the register. *)
Definition size_probe (b : pci_bar_t W) : Z :=
  u32 (Z.lnot (u32 (size b - 1))).

Definition mapped (b : pci_bar_t W) : Prop := Pci.addr b <> PCI_BAR_UNMAPPED H.

Definition bars_mapped_iff_decoded (s : pci_t W) : Prop :=
  forall index b,
    bar s !! index = Some b ->
    enable b <> 0 ->
    mapped b <->
    space_enabled s b /\ bar_base s index b <> 0
      /\ bar_base s index b <> size_probe b.

(** The handler calls of a decomposed read, as the specification has
    them: [count] calls of the narrow handler, the [i]-th at the relative
    offset [addr + i * width], in this order; the result is the values
    read and the world the last call leaves. *)
Fixpoint narrow_reads (fn : Z -> Z -> W -> Z * W) (p addr width : Z)
    (i count : nat) (w : W) : list Z * W :=
  match count with
  | O => ([], w)
  | S c =>
      let '(r, w1) := fn p (u64 (addr + Z.of_nat i * width)) w in
      let '(rs, w2) := narrow_reads fn p addr width (S i) c w1 in
      (r :: rs, w2)
  end.

(** The little-endian composition of the specification: the value of
    the [i]-th read shifted left by [8 * width * i] bits. *)
Fixpoint le_compose_from (width : Z) (i : nat) (rs : list Z) : Z :=
  match rs with
  | [] => 0
  | r :: rs' =>
      Z.lor (Z.shiftl r (8 * width * Z.of_nat i))
            (le_compose_from width (S i) rs')
  end.

Definition le_compose (width : Z) (rs : list Z) : Z :=
  le_compose_from width 0 rs.

Definition decomposed_read (fn : Z -> Z -> W -> Z * W) (p addr width : Z)
    (count : nat) (w : W) : Z * W :=
  let '(rs, w') := narrow_reads fn p addr width 0 count w in
  (le_compose width rs, w').

End Device.

(** ** Devices for the concrete evaluations *)

(** Shifts by 32 or more give 0 here; the evaluations below make no
    such shift. *)
Definition zero_shifts : undefined_shifts :=
  {| wide_shl := fun _ _ => 0; wide_shr := fun _ _ => 0 |}.

(** A hypervisor that accepts every call. *)
Definition quiet_xc {W : Type} : xenctrl W :=
  {| xc_hvm_map_pcidev_to_ioreq_server := fun _ _ _ _ _ _ _ w => (0, w);
     xc_hvm_map_io_range_to_ioreq_server := fun _ _ _ _ _ _ w => w;
     xc_hvm_unmap_io_range_from_ioreq_server := fun _ _ _ _ _ _ w => w |}.

(** A BAR backed by a byte memory [m : Z -> Z]: the handler of width [n]
    reads, or writes, the [n] bytes at the offset as one little-endian
    integer, as a native access of that width does. *)
Definition mem_read (n : nat) : Z -> Z -> (Z -> Z) -> Z * (Z -> Z) :=
  fun _ off m =>
    (le_value (List.map (fun i => m (u64 (off + Z.of_nat i))) (seq 0 n)), m).

Fixpoint mem_store (off : Z) (bs : list Z) (m : Z -> Z) : Z -> Z :=
  match bs with
  | [] => m
  | b :: bs' =>
      mem_store (u64 (off + 1)) bs' (fun a => if a =? off then b else m a)
  end.

Definition mem_write (n : nat) : Z -> Z -> Z -> (Z -> Z) -> (Z -> Z) :=
  fun _ off v m => mem_store off (le_bytes n v) m.

(** [wide16] and [wide32] say whether the table has the 2- and the
    4-byte handlers. *)
Definition mem_ops (wide16 wide32 : bool) : bar_ops_t (Z -> Z) :=
  {| map := None; unmap := None;
     readb := Some (mem_read 1);
     readw := if wide16 then Some (mem_read 2) else None;
     readl := if wide32 then Some (mem_read 4) else None;
     writeb := Some (mem_write 1);
     writew := if wide16 then Some (mem_write 2) else None;
     writel := if wide32 then Some (mem_write 4) else None |}.

(** A BAR whose handlers record the calls they get: width, relative
    offset and value passed. *)
Definition log_write (width : Z) : Z -> Z -> Z -> list (Z * Z * Z) -> list (Z * Z * Z) :=
  fun _ off v calls => calls ++ [(width, off, v)].

Definition log_ops (wide16 wide32 : bool) : bar_ops_t (list (Z * Z * Z)) :=
  {| map := None; unmap := None;
     readb := Some (fun _ _ calls => (0, calls));
     readw := None; readl := None;
     writeb := Some (log_write 1);
     writew := if wide16 then Some (log_write 2) else None;
     writel := if wide32 then Some (log_write 4) else None |}.

(** The function 00:03.0 (BDF 0x18), memory decoding enabled. *)
Definition demo_info : pci_info_t :=
  {| bus := 0; device := 3; function := 0;
     vendor_id := 0x5853; device_id := 0x0001;
     subvendor_id := 0x5853; subdevice_id := 0x0001;
     revision := 1; class := 0xff; subclass := 0x80; prog_if := 0;
     header_type := 0; command := 0x2; interrupt_pin := 1 |}.

(** The device after [pci_device_register] and the registration of BAR 0
    as a 4 KiB prefetchable memory BAR with the handler table [o]. *)
Definition demo_registered {W : Type} (o : bar_ops_t W) (w : W) : pci_t W :=
  (pci_bar_register pci_regs zero_shifts
     (pci_device_register pci_regs quiet_xc (pci0, w) 0 0 0 demo_info).1.1
     0 0x08 12 (Some o) 0).1.

(** The device after [pci_device_register] and the registration of BAR 0
    as a 4 KiB memory BAR with the type byte 0xf0, which has bits set
    among those of the base address. *)
Definition demo_typed {W : Type} (o : bar_ops_t W) (w : W) : pci_t W :=
  (pci_bar_register pci_regs zero_shifts
     (pci_device_register pci_regs quiet_xc (pci0, w) 0 0 0 demo_info).1.1
     0 0xf0 12 (Some o) 0).1.

(** The address of a configuration access to the device at [offset]. *)
Definition demo_cfg (offset : Z) : Z := Z.lor (Z.shiftl 0x18 32) offset.

(** The same device after the guest has written 0xfebc0000 to BAR 0. *)
Definition demo_mapped {W : Type} (o : bar_ops_t W) (w : W)
  : option (pci_t W * W) :=
  pci_config_write pci_regs quiet_xc zero_shifts (demo_registered o w, w)
    (demo_cfg 0x10) 4 0xfebc0000.

(** The state [demo_mapped] leaves, and its BAR 0. *)
Definition demo_state {W : Type} (o : bar_ops_t W) (w : W) : pci_t W :=
  match demo_mapped o w with
  | Some (s, _) => s
  | None => demo_registered o w
  end.

Definition demo_bar {W : Type} (o : bar_ops_t W) (w : W) : pci_bar_t W :=
  default bar0 (bar (demo_state o w) !! 0%nat).

End Pci.

(** * The rest of pci.c *)

Module PciExt.
Import Pci.

Section MoreDevice.

Context {W : Type}.
Variable H : pci_h.
Variable xc : xenctrl W.
Variable ub : undefined_shifts.

(** The libxenctrl call of [pci_device_deregister]; its arguments are
    those of [xc_hvm_map_pcidev_to_ioreq_server]. *)
Variable xc_hvm_unmap_pcidev_from_ioreq_server :
  Z -> Z -> Z -> Z -> Z -> Z -> Z -> W -> Z * W.

(** *** pci_device_deregister

    The value the call returns is dropped. *)
Definition pci_device_deregister (s : pci_t W) (w : W) : W :=
  let bus := u8 (Z.land (Z.shiftr (bdf s) 8) 0xff) in
  let device := u8 (Z.land (Z.shiftr (bdf s) 3) 0x1f) in
  let function := u8 (Z.land (bdf s) 0x07) in
  (xc_hvm_unmap_pcidev_from_ioreq_server
     (xch s) (domid s) (ioservid s) 0 bus device function w).2.

(** *** pci_bar_deregister

    The function writes nothing to [pci]; [None] is an [index] past the
    end of [pci.bar], which the function does not check. *)
Definition pci_bar_deregister (index : Z) (s : pci_t W) (w : W) : option W :=
  let index := u32 index in
  b ← bar s !! Z.to_nat index;
  if addr b =? PCI_BAR_UNMAPPED H then Some w
  else Some (xc_hvm_unmap_io_range_from_ioreq_server xc
               (xch s) (domid s) (ioservid s) (is_mmio b)
               (addr b) (u32 (addr b + size b - 1)) w).

(** *** pci_config_ptr *)
Definition pci_config_ptr (s : pci_t W) : list Z := config s.

(** ** Further properties of the transport shim *)

(** The bus, device and function numbers that [pci_device_register]
    accepts. *)
Definition in_range (info : pci_info_t) : Prop :=
  0 <= bus info < 256 /\ 0 <= device info < 32 /\ 0 <= function info < 8.

(** The test of [pci_bar_get] on one BAR: it is enabled, of the space
    asked for, and the address is inside its window. *)
Definition claims (b : pci_bar_t W) (mmio a : Z) : bool :=
  negb (enable b =? 0) && (is_mmio b =? mmio)
  && (addr b <=? a) && (a <? u32 (addr b + size b)).

(** What happens to a device after a state [s]: BAR registrations,
    accepted or not, configuration writes and resumes, in any order.
    [pci_bar_deregister], [pci_bar_read] and [pci_bar_write] do not write
    to [pci]. *)
Inductive later (s : pci_t W) : pci_t W -> Prop :=
| later_now : later s s
| later_bar s1 index type order o p s2 rc :
    later s s1 ->
    pci_bar_register H ub s1 index type order o p = (s2, rc) ->
    later s s2
| later_write s1 w a sz v s2 w2 :
    later s s1 ->
    pci_config_write H xc ub (s1, w) a sz v = Some (s2, w2) ->
    later s s2
| later_resume s1 w data s2 w2 :
    later s s1 ->
    pci_config_resume H xc (s1, w) data = Some (s2, w2) ->
    later s s2.

(** The bytes of a write of [len] bytes at the offset [off] touch
    neither the COMMAND register nor a BAR register. *)
Definition beside_decoding (off len : Z) : Prop :=
  off + len <= PCI_COMMAND
  \/ (PCI_COMMAND + 2 <= off
      /\ off + len <= PCI_BASE_ADDRESS_0)
  \/ PCI_BASE_ADDRESS_0 + 4 * Z.of_nat PCI_NUM_BAR <= off.

(** A handler table that passes the test of [pci_bar_register]. *)
Definition has_byte_handlers (o : option (bar_ops_t W)) : Prop :=
  exists t, o = Some t /\ is_null (readb t) = false
            /\ is_null (writeb t) = false.

(** What holds of the device in every reachable state: the elements of
    [config] are bytes, [bdf] is a 16-bit value, a BAR that is not
    enabled is as the zeroed [pci] has it, and an enabled one has a
    32-bit size and the byte handlers. *)
Definition tidy (s : pci_t W) : Prop :=
  Forall (fun c => 0 <= c < 256) (config s)
  /\ 0 <= bdf s < 2 ^ 16
  /\ forall j b,
       bar s !! j = Some b ->
       (enable b = 0 -> b = bar0)
       /\ (enable b <> 0 ->
           0 <= size b < 2 ^ 32 /\ has_byte_handlers (ops b)).

End MoreDevice.

End PciExt.

(** * The ranges mapped at the hypervisor *)

Module PciTrack.
Import Pci.

(** An I/O range as the hypervisor calls name it: the address space,
    the first and the last address. *)
Abbreviation io_range := (Z * Z * Z)%type.

Section Tracking.

Context {W : Type}.
Variable H : pci_h.
Variable xc : xenctrl W.
Variable ub : undefined_shifts.

(** [ranges w r]: how many times the range [r] is mapped to the device
    model in the world [w]. *)
Variable ranges : W -> io_range -> nat.

(** The range of a BAR, as [pci_map_bar] and [pci_unmap_bar] pass it. *)
Definition window (b : pci_bar_t W) : io_range :=
  (is_mmio b, addr b, u32 (addr b + size b - 1)).

(** 1 when the BAR is enabled and mapped and [r] is its range. *)
Definition holds (b : pci_bar_t W) (r : io_range) : nat :=
  if negb (enable b =? 0) && negb (addr b =? PCI_BAR_UNMAPPED H)
     && bool_decide (window b = r)
  then 1%nat else 0%nat.

(** The number of mapped BARs whose range is [r]. *)
Definition windows (s : pci_t W) (r : io_range) : nat :=
  sum_list (List.map (fun b => holds b r) (bar s)).

(** The hypervisor's side of the calls: mapping a range adds it,
    unmapping a range takes it away, and mapping the PCI function
    changes no range. *)
Definition tracks : Prop :=
  (forall x d i m a e w r,
      ranges (xc_hvm_map_io_range_to_ioreq_server xc x d i m a e w) r
      = (ranges w r + if bool_decide ((m, a, e) = r) then 1 else 0)%nat)
  /\ (forall x d i m a e w r,
      ranges (xc_hvm_unmap_io_range_from_ioreq_server xc x d i m a e w) r
      = (ranges w r - if bool_decide ((m, a, e) = r) then 1 else 0)%nat)
  /\ (forall x d i g b dv f w r,
      ranges (xc_hvm_map_pcidev_to_ioreq_server xc x d i g b dv f w).2 r
      = ranges w r).

(** The [map] and [unmap] hooks of a handler table make no hypervisor
    call of their own. *)
Definition quiet_hooks (o : bar_ops_t W) : Prop :=
  (forall f, map o = Some f -> forall p a w r, ranges (f p a w) r = ranges w r)
  /\ (forall f, unmap o = Some f -> forall p w r, ranges (f p w) r = ranges w r).

(** The device and the world it runs in: registration of the device in
    a world where nothing is mapped, then BAR registrations,
    configuration writes, resumes, and anything else that leaves the
    ranges of the hypervisor alone. *)
Inductive run : pci_t W -> W -> Prop :=
| run_device w x d i info s w' rc :
    (forall r, ranges w r = 0%nat) ->
    pci_device_register H xc (pci0, w) x d i info = (s, w', rc) ->
    run s w'
| run_bar s w index type order o p s' :
    run s w ->
    quiet_hooks o ->
    pci_bar_register H ub s index type order (Some o) p = (s', 0) ->
    run s' w
| run_write s w a sz v s' w' :
    run s w ->
    pci_config_write H xc ub (s, w) a sz v = Some (s', w') ->
    run s' w'
| run_resume s w data s' w' :
    run s w ->
    pci_config_resume H xc (s, w) data = Some (s', w') ->
    run s' w'
| run_other s w w' :
    run s w ->
    (forall r, ranges w' r = ranges w r) ->
    run s w'.

(** The ranges mapped at the hypervisor are the windows of the mapped
    BARs, and the hooks of the enabled BARs are quiet. *)
Definition in_step (s : pci_t W) (w : W) : Prop :=
  (forall r, ranges w r = windows s r)
  /\ forall j b, bar s !! j = Some b -> enable b <> 0 ->
       exists o, ops b = Some o /\ quiet_hooks o.

End Tracking.

(** ** A hypervisor that keeps the book of the mapped ranges *)

Fixpoint count_range (w : list io_range) (r : io_range) : nat :=
  match w with
  | [] => 0
  | x :: w' => (if bool_decide (x = r) then 1 else 0) + count_range w' r
  end.

Fixpoint remove_range (r : io_range) (w : list io_range) : list io_range :=
  match w with
  | [] => []
  | x :: w' => if bool_decide (x = r) then w' else x :: remove_range r w'
  end.

Definition book_xc : xenctrl (list io_range) :=
  {| xc_hvm_map_pcidev_to_ioreq_server := fun _ _ _ _ _ _ _ w => (0, w);
     xc_hvm_map_io_range_to_ioreq_server :=
       fun _ _ _ m a e w => (m, a, e) :: w;
     xc_hvm_unmap_io_range_from_ioreq_server :=
       fun _ _ _ m a e w => remove_range (m, a, e) w |}.

(** Handlers that do nothing. *)
Definition idle_ops : bar_ops_t (list io_range) :=
  {| map := None; unmap := None;
     readb := Some (fun _ _ w => (0, w)); readw := None; readl := None;
     writeb := Some (fun _ _ _ w => w); writew := None; writel := None |}.

End PciTrack.

(** * create-auth.c *)

Module CreateAuth.

(** ** efi.h and guid.h *)

(** An [EFI_GUID] is a structure of [GUID_LEN] = 16 bytes. *)
Definition GUID_LEN : nat := 16.
Definition EFI_GUID : Type := vec Z 16.

(** Modelled from the spec: efi.h is not among the sources.  Section 4.A
    gives the fields of [EFI_TIME] (16 bytes, packed, little-endian):
    Year (u16), Month, Day, Hour, Minute, Second, Pad1, Nanosecond (u32),
    TimeZone (i16), Daylight, Pad2. *)
Record EFI_TIME := {
  Year : Z; Month : Z; Day : Z; Hour : Z; Minute : Z; Second : Z;
  Pad1 : Z; Nanosecond : Z; TimeZone : Z; Daylight : Z; Pad2 : Z
}.

(** The 16 bytes of an [EFI_TIME] object. *)
Definition EFI_TIME_bytes (t : EFI_TIME) : list Z :=
  le_bytes 2 (Year t)
  ++ [u8 (Month t); u8 (Day t); u8 (Hour t); u8 (Minute t); u8 (Second t);
      u8 (Pad1 t)]
  ++ le_bytes 4 (Nanosecond t) ++ le_bytes 2 (TimeZone t)
  ++ [u8 (Daylight t); u8 (Pad2 t)].

(** Modelled from the spec: the layout of [EFI_SIGNATURE_LIST] (section
    4.A): SignatureType (GUID) at 0, SignatureListSize (u32) at 16,
    SignatureHeaderSize (u32) at 20, SignatureSize (u32) at 24, 28 bytes
    in all; a signature entry begins with its SignatureOwner (GUID), so
    the data of [EFI_SIGNATURE_DATA] is at 16. *)
Definition sizeof_EFI_SIGNATURE_LIST : nat := 28.
Definition offsetof_SignatureType : nat := 0.
Definition offsetof_SignatureListSize : nat := 16.
Definition offsetof_SignatureHeaderSize : nat := 20.
Definition offsetof_SignatureSize : nat := 24.
Definition offsetof_SignatureOwner : nat := 0.
Definition offsetof_SignatureData : nat := 16.

(** Modelled from the spec: the layout of [EFI_VARIABLE_AUTHENTICATION_2]
    (section 4.A): TimeStamp ([EFI_TIME]) at 0, then AuthInfo, a
    [WIN_CERTIFICATE_UEFI_GUID] made of Hdr (dwLength (u32), wRevision
    (u16), wCertificateType (u16)), CertType (GUID) and CertData; the
    certificate type [WIN_CERT_TYPE_EFI_GUID] is 0x0EF1.  [CertData] is
    declared with one byte. *)
Definition offsetof_TimeStamp : nat := 0.
Definition offsetof_dwLength : nat := 16.
Definition offsetof_wRevision : nat := 20.
Definition offsetof_wCertificateType : nat := 22.
Definition offsetof_CertType : nat := 24.
Definition offsetof_WIN_CERTIFICATE_UEFI_GUID_CertData : nat := 24.
Definition offsetof_AuthInfo_CertData : nat := 40.
Definition sizeof_EFI_VARIABLE_AUTHENTICATION_2 : nat := 41.
Definition WIN_CERT_TYPE_EFI_GUID : Z := 0x0ef1.

(** The constants of efi.h and guid.h on whose values the specification
    is silent are parameters. *)
Record efi_h := {
  ATTR_BRNV : Z;
  EFI_VARIABLE_TIME_BASED_AUTHENTICATED_WRITE_ACCESS : Z;
  gEfiGlobalVariableGuid : EFI_GUID;
  gEfiImageSecurityDatabaseGuid : EFI_GUID;
  gEfiCertX509Guid : EFI_GUID;
  gEfiCertPkcs7Guid : EFI_GUID
}.

(** The values of the UEFI specification; used for the concrete
    evaluations below. *)
Definition uefi : efi_h := {|
  ATTR_BRNV := 0x7;
  EFI_VARIABLE_TIME_BASED_AUTHENTICATED_WRITE_ACCESS := 0x20;
  gEfiGlobalVariableGuid :=
    [# 0x61; 0xdf; 0xe4; 0x8b; 0xca; 0x93; 0xd2; 0x11;
       0xaa; 0x0d; 0x00; 0xe0; 0x98; 0x03; 0x2b; 0x8c];
  gEfiImageSecurityDatabaseGuid :=
    [# 0xcb; 0xb2; 0x19; 0xd7; 0x3a; 0x3d; 0x96; 0x45;
       0xa3; 0xbc; 0xda; 0xd0; 0x0e; 0x67; 0x65; 0x6f];
  gEfiCertX509Guid :=
    [# 0xa1; 0x59; 0xc0; 0xa5; 0xe4; 0x94; 0xa7; 0x4a;
       0x87; 0xb5; 0xab; 0x15; 0x5c; 0x2b; 0xf0; 0x72];
  gEfiCertPkcs7Guid :=
    [# 0x9d; 0xd2; 0xaf; 0x4a; 0xdf; 0x68; 0xee; 0x49;
       0x8a; 0xa9; 0x34; 0x7d; 0x37; 0x56; 0x65; 0xa7]
|}.

(** ** The constants of create-auth.c *)

Definition citrix_guid : EFI_GUID :=
  [# 0x35; 0xc5; 0xac; 0xc0; 0xc8; 0x25; 0x46; 0x64;
     0x92; 0x5b; 0x5d; 0xd7; 0xd0; 0xb2; 0xf5; 0xaa].

Definition microsoft_guid : EFI_GUID :=
  [# 0xbd; 0x9a; 0xfa; 0x77; 0x59; 0x03; 0x32; 0x4d;
     0xbd; 0x60; 0x28; 0xf4; 0xe7; 0x8f; 0x78; 0x4b].

(** The fields of [struct tm] that [main] reads. *)
Record tm := {
  tm_year : Z; tm_mon : Z; tm_mday : Z;
  tm_hour : Z; tm_min : Z; tm_sec : Z
}.

(** ** Memory *)

(** The sizes of the objects of the program are [nat]s (lengths of
    lists): an address space holds fewer than 2^64 bytes, and the
    [size_t] arithmetic on them does not wrap. *)

(** [malloc n]: [n] bytes of unspecified content; [uninit] says what
    each of them happens to hold. *)
Definition malloc (uninit : nat -> Z) (n : nat) : list Z :=
  List.map uninit (seq 0 n).

(** [realloc data n] for [n] at least the size of [data]: the old
    content, then bytes of unspecified content. *)
Definition realloc (uninit : nat -> Z) (data : list Z) (n : nat) : list Z :=
  data ++ List.map uninit (seq (length data) (n - length data)).

(** The byte of a [char]. *)
Definition char_byte (c : ascii) : Z := Z.of_N (N_of_ascii c).

Section Tool.

(** The X.509 certificates and the private keys of OpenSSL. *)
Context {X509 EVP_PKEY : Type}.

Variable E : efi_h.

(** [PEM_read_bio_X509] on the file of this name; [None] when the file
    cannot be opened or parsed. *)
Variable PEM_read_X509 : string -> option X509.

(** [i2d_X509]: the DER encoding of a certificate; [None] is a negative
    return value. *)
Variable i2d_X509 : X509 -> option (list Z).

(** Lines 151-193 of [sign_data]: the detached PKCS#7 signature, with
    SHA-256, by [key] and [cert] over the bytes of the memory BIO, in
    DER; [None] when one of the OpenSSL calls fails. *)
Variable PKCS7_sign_detached_sha256 :
  option X509 -> EVP_PKEY -> list Z -> option (list Z).

Variable uninit : nat -> Z.

(** [PEM_read_bio_PrivateKey] on the file of this name; [None] when the
    file cannot be opened or parsed. *)
Variable PEM_read_PrivateKey : string -> option EVP_PKEY.

(** The output file.  [fopen_w file] says whether [fopen(file, "w")]
    gives a stream.  [fwrite_count file out buf] is what
    [fwrite(buf, 1, length buf, stream)] returns when the stream of
    [file] has taken the bytes [out] so far: the number of bytes of
    [buf] that it takes, at most [length buf]. *)
Variable fopen_w : string -> bool.
Variable fwrite_count : string -> list Z -> list Z -> nat.

(** *** certs_to_sig_list

    [data] is the buffer, [data_len] its size and [offset] the write
    position; [None] is [exit(1)]. *)
Fixpoint sig_list_loop (certs : list X509) (vendor_guid : EFI_GUID)
    (data : list Z) (data_len offset : nat) : option (list Z * nat) :=
  match certs with
  | [] => Some (data, data_len)
  | c :: rest =>
      der ← i2d_X509 c;
      let len := length der in
      let data_len := (data_len + (sizeof_EFI_SIGNATURE_LIST
                                   + offsetof_SignatureData + len))%nat in
      let data := realloc uninit data data_len in
      (* sig_list = data + offset *)
      let data := memcpy data (Z.of_nat (offset + offsetof_SignatureHeaderSize))
                    (le_bytes 4 0) in
      let SignatureSize :=
        u32 (Z.of_nat (offsetof_SignatureData + len)) in
      let data := memcpy data (Z.of_nat (offset + offsetof_SignatureSize))
                    (le_bytes 4 SignatureSize) in
      let SignatureListSize :=
        u32 (Z.of_nat sizeof_EFI_SIGNATURE_LIST + SignatureSize) in
      let data := memcpy data (Z.of_nat (offset + offsetof_SignatureListSize))
                    (le_bytes 4 SignatureListSize) in
      let data := memcpy data (Z.of_nat (offset + offsetof_SignatureType))
                    (vec_to_list (gEfiCertX509Guid E)) in
      let offset := (offset + sizeof_EFI_SIGNATURE_LIST)%nat in
      (* sig_data = data + offset *)
      let data := memcpy data (Z.of_nat (offset + offsetof_SignatureOwner))
                    (vec_to_list vendor_guid) in
      let offset := (offset + offsetof_SignatureData)%nat in
      (* the second i2d_X509 writes the certificate at data + offset *)
      let data := memcpy data (Z.of_nat offset) der in
      let offset := (offset + len)%nat in
      sig_list_loop rest vendor_guid data data_len offset
  end.

Definition certs_to_sig_list (certs : list X509) (vendor_guid : EFI_GUID)
  : option (list Z * nat) :=
  sig_list_loop certs vendor_guid [] 0 0.

(** *** sign_data

    The buffer handed to the memory BIO: lines 133-149. *)
Definition sign_data_buf (name : list Z) (name_len : nat) (guid : EFI_GUID)
    (attr : Z) (timestamp : EFI_TIME) (data : list Z) (data_len : nat)
  : list Z :=
  let len := (name_len + GUID_LEN + 4 + 16 + data_len)%nat in
  let buf := malloc uninit len in
  let ptr := 0%nat in
  let buf := memcpy buf (Z.of_nat ptr) (take name_len name) in
  let ptr := (ptr + name_len)%nat in
  let buf := memcpy buf (Z.of_nat ptr) (vec_to_list guid) in
  let ptr := (ptr + GUID_LEN)%nat in
  let buf := memcpy buf (Z.of_nat ptr) (le_bytes 4 attr) in
  let ptr := (ptr + 4)%nat in
  let buf := memcpy buf (Z.of_nat ptr) (EFI_TIME_bytes timestamp) in
  let ptr := (ptr + 16)%nat in
  memcpy buf (Z.of_nat ptr) (take data_len data).

(** The result is the signature ([sig], [*sig_len] being its length);
    without a key it is empty; [None] is [exit(1)]. *)
Definition sign_data (cert : option X509) (key : option EVP_PKEY)
    (name : list Z) (name_len : nat) (guid : EFI_GUID) (attr : Z)
    (timestamp : EFI_TIME) (data : list Z) (data_len : nat)
  : option (list Z) :=
  match key with
  | None => Some []
  | Some k =>
      PKCS7_sign_detached_sha256 cert k
        (sign_data_buf name name_len guid attr timestamp data data_len)
  end.

(** *** create_descriptor

    The result is the descriptor object and [*descriptor_len]. *)
Definition create_descriptor (sig_len : nat) (timestamp : EFI_TIME)
  : list Z * nat :=
  let d := malloc uninit sizeof_EFI_VARIABLE_AUTHENTICATION_2 in
  let d := memcpy d (Z.of_nat offsetof_TimeStamp) (EFI_TIME_bytes timestamp) in
  let d := memcpy d (Z.of_nat offsetof_CertType)
             (vec_to_list (gEfiCertPkcs7Guid E)) in
  let d := memcpy d (Z.of_nat offsetof_dwLength)
             (le_bytes 4
                (u32 (Z.of_nat (sig_len
                                + offsetof_WIN_CERTIFICATE_UEFI_GUID_CertData)))) in
  let d := memcpy d (Z.of_nat offsetof_wRevision) (le_bytes 2 0x0200) in
  let d := memcpy d (Z.of_nat offsetof_wCertificateType)
             (le_bytes 2 WIN_CERT_TYPE_EFI_GUID) in
  (d, offsetof_AuthInfo_CertData).

(** *** main *)

(** Lines 301-308: the GUID of the variable; [None] is "Unsupported
    variable name". *)
Definition select_guid (arg : string) : option EFI_GUID :=
  if String.eqb arg "PK" || String.eqb arg "KEK"
  then Some (gEfiGlobalVariableGuid E)
  else if String.eqb arg "db" || String.eqb arg "dbx"
       then Some (gEfiImageSecurityDatabaseGuid E)
       else None.

(** Lines 310-313: the owner of the signatures. *)
Definition select_vendor_guid (arg : string) : EFI_GUID :=
  if String.eqb arg "PK" then citrix_guid else microsoft_guid.

(** Lines 316-326: the name in UCS-2. *)
Fixpoint name_loop (chars : list ascii) (i : nat) (name : list Z) : list Z :=
  match chars with
  | [] => name
  | c :: rest =>
      let name := <[(i * 2)%nat := char_byte c]> name in
      let name := <[(i * 2 + 1)%nat := 0]> name in
      name_loop rest (S i) name
  end.

Definition name_arg (arg : string) : list Z * nat :=
  let name_len := String.length arg in
  let name := malloc uninit (name_len * 2) in
  let name := name_loop (list_ascii_of_string arg) 0 name in
  (name, (name_len * 2)%nat).

(** Lines 362-372. *)
Definition timestamp_of (t : tm) : EFI_TIME :=
  {| Year := u16 (tm_year t + 1900);
     Month := u8 (tm_mon t + 1);
     Day := u8 (tm_mday t);
     Hour := u8 (tm_hour t);
     Minute := u8 (tm_min t);
     Second := u8 (tm_sec t);
     Pad1 := 0; Nanosecond := 0; TimeZone := 0; Daylight := 0; Pad2 := 0 |}.

(** Lines 253-293: the loop over the options.  [getopt] is a function
    of the C library; [opts] is what its successive calls return before
    it returns -1, the option character and [optarg].  The result is the
    key and the certificate that [-k] and [-c] have loaded, or the status
    of the [exit] that ends the loop. *)
Fixpoint option_loop (opts : list (ascii * string))
    (sign_key : option EVP_PKEY) (sign_cert : option X509)
  : Z + (option EVP_PKEY * option X509) :=
  match opts with
  | [] => inr (sign_key, sign_cert)
  | (c, optarg) :: rest =>
      if Ascii.eqb c "c" then
        match PEM_read_X509 optarg with
        | None => inl 1
        | Some x => option_loop rest sign_key (Some x)
        end
      else if Ascii.eqb c "k" then
        match PEM_read_PrivateKey optarg with
        | None => inl 1
        | Some k => option_loop rest (Some k) sign_cert
        end
      else if Ascii.eqb c "h" then inl 0
      else inl 1
  end.

(** [fwrite(buf, 1, n, out)] on the stream of [file] that has taken the
    bytes [out]: the value returned and the bytes the stream has taken
    after the call. *)
Definition fwrite (file : string) (out buf : list Z) (n : nat)
  : nat * list Z :=
  let k := fwrite_count file out (take n buf) in
  (k, out ++ take k (take n buf)).

(** [opts] is what [getopt] returns (see [option_loop]), [args] is
    [argv] from [optind] on once [getopt] has returned -1, [now] is what
    [gmtime] returns.  The result is the exit status of the program and,
    when the output file has been opened, its name and the bytes the
    stream has taken. *)
Definition main (opts : list (ascii * string)) (args : list string)
    (now : option tm) : Z * option (string * list Z) :=
  match option_loop opts None None with
  | inl status => (status, None)
  | inr (sign_key, sign_cert) =>
      if (negb (is_null sign_key) && is_null sign_cert)
         || (is_null sign_key && negb (is_null sign_cert))
         || (length args <? 3)%nat
      then (1, None)
      else
        match args with
        | arg :: out_file :: cert_files =>
            (* [None] is one of the [exit(1)] of lines 301-377 *)
            match
              guid ← select_guid arg;
              let vendor_guid := select_vendor_guid arg in
              let '(name, name_len) := name_arg arg in
              cert ← mapM PEM_read_X509 cert_files;
              t ← now;
              let timestamp := timestamp_of t in
              let attr :=
                u32 (Z.lor (ATTR_BRNV E)
                       (EFI_VARIABLE_TIME_BASED_AUTHENTICATED_WRITE_ACCESS E)) in
              '(data, data_len) ← certs_to_sig_list cert vendor_guid;
              sig ← sign_data sign_cert sign_key name name_len guid attr
                      timestamp data data_len;
              let sig_len := length sig in
              let '(descriptor, descriptor_len) :=
                create_descriptor sig_len timestamp in
              Some (descriptor, descriptor_len, sig, sig_len, data, data_len)
            with
            | None => (1, None)
            | Some (descriptor, descriptor_len, sig, sig_len, data, data_len) =>
                if negb (fopen_w out_file) then (1, None) else
                let out := [] in
                let '(n, out) := fwrite out_file out descriptor descriptor_len in
                if negb (n =? descriptor_len)%nat
                then (1, Some (out_file, out)) else
                let '(n, out) := fwrite out_file out sig sig_len in
                if negb (n =? sig_len)%nat then (1, Some (out_file, out)) else
                let '(n, out) := fwrite out_file out data data_len in
                if negb (n =? data_len)%nat then (1, Some (out_file, out)) else
                (0, Some (out_file, out))
            end
        | _ => (1, None)
        end
  end.

(** ** The file and the signed message, as the specification words them *)

(** One [EFI_SIGNATURE_LIST] holding a single certificate. *)
Definition signature_list (owner : EFI_GUID) (der : list Z) : list Z :=
  vec_to_list (gEfiCertX509Guid E)
  ++ le_bytes 4 (Z.of_nat (28 + (16 + length der)))
  ++ le_bytes 4 0
  ++ le_bytes 4 (Z.of_nat (16 + length der))
  ++ vec_to_list owner ++ der.

(** The [EFI_VARIABLE_AUTHENTICATION_2] descriptor up to [CertData]. *)
Definition descriptor_bytes (timestamp : EFI_TIME) (sig_len : nat) : list Z :=
  EFI_TIME_bytes timestamp
  ++ le_bytes 4 (Z.of_nat (sig_len + 24))
  ++ le_bytes 2 0x0200
  ++ le_bytes 2 WIN_CERT_TYPE_EFI_GUID
  ++ vec_to_list (gEfiCertPkcs7Guid E).

(** A name in UCS-2: 16-bit code units, little-endian, no terminator. *)
Definition name_ucs2 (arg : string) : list Z :=
  flat_map (fun c => [char_byte c; 0]) (list_ascii_of_string arg).

(** The attributes of the variable. *)
Definition attributes : Z :=
  Z.lor (ATTR_BRNV E) (EFI_VARIABLE_TIME_BASED_AUTHENTICATED_WRITE_ACCESS E).

(** The message of a time-based authenticated write. *)
Definition signed_message (arg : string) (guid : EFI_GUID) (attr : Z)
    (timestamp : EFI_TIME) (payload : list Z) : list Z :=
  name_ucs2 arg ++ vec_to_list guid ++ le_bytes 4 attr
  ++ EFI_TIME_bytes timestamp ++ payload.

(** The signature of a run, over the message [msg]: empty without a
    key. *)
Definition signature_of (sign_key : option EVP_PKEY) (sign_cert : option X509)
    (msg : list Z) : option (list Z) :=
  match sign_key with
  | None => Some []
  | Some k => PKCS7_sign_detached_sha256 sign_cert k msg
  end.

(** The output file can be opened and its stream takes every byte of the
    descriptor [d], of the signature [sig] and of the payload, in this
    order. *)
Definition stream_takes (file : string) (d sig payload : list Z) : Prop :=
  fopen_w file = true
  /\ fwrite_count file [] d = length d
  /\ fwrite_count file d sig = length sig
  /\ fwrite_count file (d ++ sig) payload = length payload.

(** The offset, in a payload made of one signature list for each of
    [ders], of the list of index [i]: each list is 44 bytes longer than
    its certificate. *)
Definition list_offset (ders : list (list Z)) (i : nat) : nat :=
  sum_list (List.map (fun der => (44 + length der)%nat) (take i ders)).

End Tool.

(** ** A run for the concrete evaluations *)

(** Certificates are their DER bytes, a file holds the certificate whose
    bytes are the characters of its name and the key that is the length
    of its name, the signature of a message is its length in four bytes,
    and every file but [/] can be opened for writing and takes what is
    written to it. *)
Definition demo_PEM_read (file : string) : option (list Z) :=
  if String.eqb file "" then None
  else Some (List.map char_byte (list_ascii_of_string file)).

Definition demo_PEM_read_key (file : string) : option Z :=
  if String.eqb file "" then None
  else Some (Z.of_nat (String.length file)).

Definition demo_i2d (cert : list Z) : option (list Z) := Some cert.

Definition demo_sign (cert : option (list Z)) (key : Z) (msg : list Z)
  : option (list Z) :=
  match cert with
  | Some _ => Some (le_bytes 4 (Z.of_nat (length msg)))
  | None => None
  end.

Definition demo_fopen (file : string) : bool := negb (String.eqb file "/").

Definition demo_fwrite (file : string) (out buf : list Z) : nat := length buf.

Definition demo_now : tm :=
  {| tm_year := 126; tm_mon := 10; tm_mday := 3;
     tm_hour := 12; tm_min := 30; tm_sec := 15 |}.

Definition demo_main (opts : list (ascii * string)) (args : list string)
  : Z * option (string * list Z) :=
  main uefi demo_PEM_read demo_i2d demo_sign (fun _ => 0xcc)
    demo_PEM_read_key demo_fopen demo_fwrite opts args (Some demo_now).

(** [-k PK.key -c PK.pem]. *)
Definition demo_opts : list (ascii * string) :=
  [("k"%char, "PK.key"%string); ("c"%char, "PK.pem"%string)].

End CreateAuth.

(** * The files of create-auth.c, read back *)

Module CreateAuthExt.
Import CreateAuth.

Section Reading.

Variable E : efi_h.

(** The fields of an [EFI_SIGNATURE_LIST] that holds one X.509
    certificate, read from its bytes [l] at the offsets of the
    structure: the type, a [SignatureListSize] that is the length of the
    list, no header, a [SignatureSize] that leaves room for one entry,
    the owner and the certificate. *)
Definition single_entry_list (owner : EFI_GUID) (der l : list Z) : Prop :=
  take GUID_LEN (drop offsetof_SignatureType l)
    = vec_to_list (gEfiCertX509Guid E)
  /\ le_load 4 l (Z.of_nat offsetof_SignatureListSize) = Z.of_nat (length l)
  /\ le_load 4 l (Z.of_nat offsetof_SignatureHeaderSize) = 0
  /\ le_load 4 l (Z.of_nat offsetof_SignatureSize)
     = Z.of_nat (length l) - Z.of_nat sizeof_EFI_SIGNATURE_LIST
  /\ take GUID_LEN (drop (sizeof_EFI_SIGNATURE_LIST + offsetof_SignatureOwner) l)
     = vec_to_list owner
  /\ drop (sizeof_EFI_SIGNATURE_LIST + offsetof_SignatureData) l = der.

(** What the reader of an auth file takes out of its bytes: the
    timestamp, the [dwLength], [wRevision] and [wCertificateType] of the
    certificate header, the certificate type, the signature ([dwLength]
    less the 24 bytes before [CertData]) and the payload. *)
Record auth_file := {
  file_timestamp : list Z;
  file_dwLength : Z;
  file_wRevision : Z;
  file_wCertificateType : Z;
  file_CertType : list Z;
  file_signature : list Z;
  file_payload : list Z
}.

Definition read_auth_file (bytes : list Z) : auth_file :=
  let dw := le_load 4 bytes (Z.of_nat offsetof_dwLength) in
  {| file_timestamp := take 16 (drop offsetof_TimeStamp bytes);
     file_dwLength := dw;
     file_wRevision := le_load 2 bytes (Z.of_nat offsetof_wRevision);
     file_wCertificateType :=
       le_load 2 bytes (Z.of_nat offsetof_wCertificateType);
     file_CertType := take GUID_LEN (drop offsetof_CertType bytes);
     file_signature :=
       take (Z.to_nat (dw - Z.of_nat offsetof_WIN_CERTIFICATE_UEFI_GUID_CertData))
         (drop offsetof_AuthInfo_CertData bytes);
     file_payload := drop (Z.to_nat (Z.of_nat offsetof_dwLength + dw)) bytes |}.

End Reading.

End CreateAuthExt.

(** * Facts about bytes and byte arrays *)

Module ByteFacts.

(** Case analysis on the integer tests of a goal. *)
Ltac ztest :=
  repeat match goal with
    | |- context [?a <=? ?b] => destruct (Z.leb_spec a b)
    | |- context [?a <? ?b] => destruct (Z.ltb_spec a b)
    | |- context [?a =? ?b] => destruct (Z.eqb_spec a b)
    end.


Lemma byte_at_insert_ne (a : list Z) (j k v : Z) :
  0 <= j -> 0 <= k -> j <> k -> byte_at (<[Z.to_nat j := v]> a) k = byte_at a k.
Proof.
  intros Hj Hk Hne. unfold byte_at.
  rewrite list_lookup_insert_ne; [done | lia].
Qed.

Lemma byte_at_insert_eq (a : list Z) (k v : Z) :
  0 <= k < Z.of_nat (length a) -> byte_at (<[Z.to_nat k := v]> a) k = v.
Proof.
  intros Hk. unfold byte_at.
  rewrite list_lookup_insert_eq; [done | lia].
Qed.

Lemma u8_testbit (z b : Z) : 0 <= b < 8 -> Z.testbit (u8 z) b = Z.testbit z b.
Proof. intros Hb. unfold u8. apply Z.mod_pow2_bits_low. lia. Qed.

Lemma u8_range (z : Z) : 0 <= u8 z < 256.
Proof. unfold u8. change (2 ^ 8) with 256. apply Z.mod_pos_bound. lia. Qed.

Lemma u64_range (z : Z) : 0 <= u64 z < 2 ^ 64.
Proof. unfold u64. apply Z.mod_pos_bound. lia. Qed.

Lemma u64_small (z : Z) : 0 <= z < 2 ^ 64 -> u64 z = z.
Proof. intros. unfold u64. by apply Z.mod_small. Qed.

Lemma u32_range (z : Z) : 0 <= u32 z < 2 ^ 32.
Proof. unfold u32. apply Z.mod_pos_bound. lia. Qed.

Lemma u32_small (z : Z) : 0 <= z < 2 ^ 32 -> u32 z = z.
Proof. intros. unfold u32. by apply Z.mod_small. Qed.

Lemma byte_at_memcpy (a : list Z) (j : Z) (src : list Z) (k : Z) :
  0 <= j -> 0 <= k ->
  byte_at (memcpy a j src) k =
  if (j <=? k) && (k <? j + Z.of_nat (length src))
     && (k <? Z.of_nat (length a))
  then byte_at src (k - j) else byte_at a k.
Proof.
  intros Hj Hk. unfold byte_at, memcpy. ztest; simpl.
  - rewrite list_lookup_inserts by lia. do 2 f_equal. lia.
  - rewrite !lookup_ge_None_2; [done | lia | rewrite length_inserts; lia].
  - by rewrite list_lookup_inserts_ge by lia.
  - by rewrite list_lookup_inserts_ge by lia.
  - by rewrite list_lookup_inserts_lt by lia.
  - by rewrite list_lookup_inserts_lt by lia.
  - by rewrite list_lookup_inserts_lt by lia.
  - by rewrite list_lookup_inserts_lt by lia.
Qed.

Lemma length_memcpy (a : list Z) (j : Z) (src : list Z) :
  length (memcpy a j src) = length a.
Proof. apply length_inserts. Qed.

Lemma length_le_bytes n : forall v, length (le_bytes n v) = n.
Proof. induction n as [|n IH]; intros v; simpl; [done | by rewrite IH]. Qed.

Lemma lookup_le_bytes n : forall v i,
  (i < n)%nat -> le_bytes n v !! i = Some (u8 (Z.shiftr v (8 * Z.of_nat i))).
Proof.
  induction n as [|n IH]; intros v i Hi; [lia|].
  destruct i as [|i]; simpl.
  - by rewrite Z.shiftr_0_r.
  - rewrite IH by lia. rewrite Z.shiftr_shiftr by lia.
    do 3 f_equal. lia.
Qed.

Lemma byte_at_le_bytes n v i :
  0 <= i < Z.of_nat n -> byte_at (le_bytes n v) i = u8 (Z.shiftr v (8 * i)).
Proof.
  intros Hi. unfold byte_at. rewrite lookup_le_bytes by lia. simpl.
  do 3 f_equal. lia.
Qed.

Lemma le_value_le_bytes n : forall v,
  le_value (le_bytes n v) = v mod 2 ^ (8 * Z.of_nat n).
Proof.
  induction n as [|n IH]; intros v.
  - simpl. by rewrite Z.mod_1_r.
  - cbn [le_bytes le_value]. rewrite IH. unfold u8.
    apply Z.bits_inj'. intros i Hi.
    rewrite Z.lor_spec, Z.shiftl_spec by lia.
    destruct (Z.ltb_spec i 8).
    + rewrite !Z.mod_pow2_bits_low by lia.
      rewrite (Z.testbit_neg_r _ (i - 8)) by lia. by rewrite orb_false_r.
    + rewrite (Z.mod_pow2_bits_high (v mod 2 ^ 8)) by lia. simpl.
      destruct (Z.ltb_spec i (8 * Z.of_nat (S n))).
      * rewrite !Z.mod_pow2_bits_low by lia.
        rewrite Z.shiftr_spec by lia. f_equal. lia.
      * rewrite !Z.mod_pow2_bits_high by lia. done.
Qed.

Lemma le_load_memcpy_other n (a : list Z) (j : Z) (src : list Z) (k : Z) :
  0 <= j -> 0 <= k ->
  k + Z.of_nat n <= j \/ j + Z.of_nat (length src) <= k ->
  le_load n (memcpy a j src) k = le_load n a k.
Proof.
  intros Hj Hk Hd. unfold le_load, memcpy. f_equal.
  apply list_eq. intros i. rewrite !lookup_take.
  case_decide; [|done]. rewrite !lookup_drop.
  destruct Hd.
  - apply list_lookup_inserts_lt. lia.
  - apply list_lookup_inserts_ge. lia.
Qed.

Lemma le_load_memcpy_same n (a : list Z) (k v : Z) :
  0 <= k -> k + Z.of_nat n <= Z.of_nat (length a) ->
  le_load n (memcpy a k (le_bytes n v)) k = v mod 2 ^ (8 * Z.of_nat n).
Proof.
  intros Hk Hlen. unfold le_load, memcpy.
  rewrite <- le_value_le_bytes. f_equal.
  apply list_eq. intros i. rewrite lookup_take.
  case_decide.
  - rewrite lookup_drop, list_lookup_inserts
      by (rewrite ?length_le_bytes; lia).
    f_equal. lia.
  - symmetry. apply lookup_ge_None_2. rewrite length_le_bytes. lia.
Qed.

End ByteFacts.

(** * Facts about the transport shim *)

Module PciFacts.
Import Pci ByteFacts.


Section Facts.

Context {W : Type}.
Variable H : pci_h.
Variable xc : xenctrl W.
Variable ub : undefined_shifts.

Implicit Types (s : pci_t W) (w : W).

(** ** The loop of pci_config_write *)

Lemma merged_testbit (c m v b : Z) :
  0 <= b < 8 ->
  Z.testbit (merged c m v) b =
  if Z.testbit m b then Z.testbit v b else Z.testbit c b.
Proof.
  intros Hb. unfold merged.
  rewrite u8_testbit, Z.lor_spec, u8_testbit, !Z.land_spec, Z.lnot_spec,
    u8_testbit by lia.
  destruct (Z.testbit m b), (Z.testbit c b), (Z.testbit v b); reflexivity.
Qed.

Lemma config_write_byte_other s k v :
  mask (config_write_byte s k v) = mask s
  /\ bar (config_write_byte s k v) = bar s
  /\ bdf (config_write_byte s k v) = bdf s
  /\ length (config (config_write_byte s k v)) = length (config s).
Proof. unfold config_write_byte; simpl. by rewrite length_insert. Qed.

Lemma config_write_loop_other n : forall i a v s,
  mask (config_write_loop ub n i a v s) = mask s
  /\ bar (config_write_loop ub n i a v s) = bar s
  /\ bdf (config_write_loop ub n i a v s) = bdf s
  /\ length (config (config_write_loop ub n i a v s)) = length (config s).
Proof.
  induction n as [|n IH]; intros i a v s; simpl; [done|].
  destruct (IH (i + 1) a v
    (if u64 (a + i) <? PCI_CONFIG_SIZE
     then config_write_byte s (u64 (a + i)) (shr32 ub v (u64 (i * 8)))
     else s)) as (Hm & Hb & Hd & Hl).
  rewrite Hm, Hb, Hd, Hl.
  destruct (u64 (a + i) <? PCI_CONFIG_SIZE); [|done].
  apply config_write_byte_other.
Qed.

Lemma config_write_byte_at s j v k :
  0 <= j < Z.of_nat (length (config s)) -> 0 <= k ->
  byte_at (config (config_write_byte s j v)) k =
  if k =? j then merged (byte_at (config s) j) (byte_at (mask s) j) v
  else byte_at (config s) k.
Proof.
  intros Hj Hk. unfold config_write_byte; simpl.
  destruct (Z.eqb_spec k j) as [->|Hne].
  - by rewrite byte_at_insert_eq.
  - rewrite byte_at_insert_ne; [done | lia | lia | congruence].
Qed.

(** The loop writes the [n] bytes from offset [a + i] on, each merged
    under its mask with the byte of [v] the index selects, and stops at
    the end of the configuration space. *)
Lemma config_write_loop_byte_at n : forall i a v s k,
  0 <= i -> 0 <= a -> a + i + Z.of_nat n <= 2 ^ 64 ->
  length (config s) = Z.to_nat PCI_CONFIG_SIZE ->
  0 <= k < PCI_CONFIG_SIZE ->
  byte_at (config (config_write_loop ub n i a v s)) k =
  if (a + i <=? k) && (k <? a + i + Z.of_nat n)
  then merged (byte_at (config s) k) (byte_at (mask s) k)
         (shr32 ub v (u64 ((k - a) * 8)))
  else byte_at (config s) k.
Proof.
  induction n as [|n IH]; intros i a v s k Hi Ha Hn Hlen Hk.
  - simpl. ztest; simpl; try done; lia.
  - cbn [config_write_loop].
    rewrite (u64_small (a + i)) by lia.
    set (s' := if a + i <? PCI_CONFIG_SIZE then _ else s).
    assert (Hlen' : length (config s') = Z.to_nat PCI_CONFIG_SIZE).
    { subst s'. destruct (a + i <? PCI_CONFIG_SIZE); [|done].
      by rewrite (proj2 (proj2 (proj2 (config_write_byte_other _ _ _)))). }
    assert (Hm' : mask s' = mask s).
    { subst s'. destruct (a + i <? PCI_CONFIG_SIZE); [|done].
      apply config_write_byte_other. }
    rewrite IH by (try done; lia). rewrite Hm'.
    assert (Hs' : byte_at (config s') k =
                  if k =? a + i
                  then merged (byte_at (config s) k) (byte_at (mask s) k)
                         (shr32 ub v (u64 (i * 8)))
                  else byte_at (config s) k).
    { subst s'. destruct (Z.ltb_spec (a + i) PCI_CONFIG_SIZE) as [Hlt|Hge].
      - rewrite config_write_byte_at by (rewrite ?Hlen; unfold PCI_CONFIG_SIZE in *; lia).
        destruct (Z.eqb_spec k (a + i)) as [->|]; done.
      - destruct (Z.eqb_spec k (a + i)); [lia | done]. }
    rewrite Hs'.
    destruct (Z.eqb_spec k (a + i)) as [->|Hne].
    + ztest; simpl; try lia. do 3 f_equal. lia.
    + ztest; simpl; try done; lia.
Qed.

(** ** pci_update_bar and pci_update_config *)

Lemma set_addr_same (b : pci_bar_t W) : set_addr b (addr b) = b.
Proof. by destruct b. Qed.

Lemma bar_target_config s1 s2 index b :
  config s1 = config s2 -> bar_target H s1 index b = bar_target H s2 index b.
Proof. intros E. unfold bar_target. by rewrite E. Qed.

Lemma pci_update_bar_spec index s w b :
  bar s !! index = Some b ->
  (enable b <> 0 -> is_Some (ops b)) ->
  exists s' w',
    pci_update_bar H xc index (s, w) = Some (s', w')
    /\ config s' = config s /\ mask s' = mask s /\ bdf s' = bdf s
    /\ bar s' = <[index := retarget H s index b]> (bar s).
Proof.
  intros Hb Hops. unfold pci_update_bar, retarget. rewrite Hb. simpl.
  destruct (Z.eqb_spec (enable b) 0) as [He|He].
  { exists s, w. by rewrite list_insert_id. }
  destruct (Hops He) as [o Ho].
  set (t := bar_target H s index b).
  destruct (Z.eqb_spec (addr b) t) as [Ht|Ht].
  { exists s, w. rewrite <- Ht, set_addr_same. by rewrite list_insert_id. }
  assert (Hlt : (index < length (bar s))%nat) by (by eapply lookup_lt_Some).
  destruct (Z.eqb_spec (addr b) (PCI_BAR_UNMAPPED H)) as [Hu|Hu]; simpl.
  - destruct (Z.eqb_spec t (PCI_BAR_UNMAPPED H)) as [Hv|Hv]; simpl; [congruence|].
    unfold pci_map_bar; simpl.
    rewrite list_lookup_insert_eq by done. simpl. rewrite Ho. simpl.
    eexists _, _. split; [reflexivity|]. done.
  - unfold pci_unmap_bar. rewrite Hb. simpl. rewrite Ho. simpl.
    destruct (Z.eqb_spec t (PCI_BAR_UNMAPPED H)) as [Hv|Hv]; simpl.
    + eexists _, _. split; [reflexivity|]. simpl. by rewrite Hv.
    + unfold pci_map_bar; simpl.
      rewrite list_lookup_insert_eq by (by rewrite length_insert).
      simpl. rewrite Ho. simpl.
      eexists _, _. split; [reflexivity|]. simpl.
      by rewrite list_insert_insert_eq.
Qed.

Lemma retarget_fields s index b :
  enable (retarget H s index b) = enable b
  /\ ops (retarget H s index b) = ops b
  /\ is_mmio (retarget H s index b) = is_mmio b
  /\ size (retarget H s index b) = size b
  /\ priv (retarget H s index b) = priv b.
Proof. unfold retarget. by destruct (enable b =? 0). Qed.

Lemma bars_ok_insert s s' index b :
  bars_ok s -> bar s !! index = Some b ->
  bar s' = <[index := retarget H s index b]> (bar s) ->
  bars_ok s'.
Proof.
  intros [Hlen Hops] Hb E. split.
  - by rewrite E, length_insert.
  - intros j r Hj He. rewrite E in Hj.
    destruct (decide (index = j)) as [->|Hne].
    + rewrite list_lookup_insert_eq in Hj by (by eapply lookup_lt_Some).
      injection Hj as <-.
      destruct (retarget_fields s j b) as (E1 & E2 & _).
      rewrite E2. rewrite E1 in He. by eapply Hops.
    + rewrite list_lookup_insert_ne in Hj by done. by eapply Hops.
Qed.

(** After the loop over the BARs [i, i + n), each of them is as
    [pci_update_bar] leaves it and nothing else of the device has
    changed. *)
Lemma update_loop_spec n : forall i s w,
  bars_ok s -> (i + n <= PCI_NUM_BAR)%nat ->
  exists s' w',
    update_loop H xc n i (s, w) = Some (s', w')
    /\ config s' = config s /\ mask s' = mask s /\ bdf s' = bdf s
    /\ bars_ok s'
    /\ forall j b, bar s !! j = Some b ->
         bar s' !! j =
         Some (if bool_decide (i <= j < i + n)%nat then retarget H s j b else b).
Proof.
  induction n as [|n IH]; intros i s w Hok Hn.
  - exists s, w. repeat split; try done; try apply Hok.
    intros j b Hj. rewrite bool_decide_eq_false_2 by lia. done.
  - destruct Hok as [Hlen Hops].
    destruct (lookup_lt_is_Some_2 (bar s) i) as [b Hb]; [lia|].
    destruct (pci_update_bar_spec i s w b Hb (Hops i b Hb))
      as (s1 & w1 & E1 & Hc1 & Hm1 & Hd1 & Hb1).
    assert (Hok1 : bars_ok s1) by (by eapply bars_ok_insert).
    destruct (IH (S i) s1 w1 Hok1) as (s2 & w2 & E2 & Hc2 & Hm2 & Hd2 & Hok2 & Hb2);
      [lia|].
    exists s2, w2. cbn [update_loop]. rewrite E1. simpl. rewrite E2.
    repeat split; try congruence; try apply Hok2.
    intros j r Hj.
    destruct (decide (i = j)) as [->|Hne].
    + assert (r = b) as -> by congruence.
      rewrite (Hb2 j (retarget H s j b)).
      2:{ rewrite Hb1. apply list_lookup_insert_eq. by eapply lookup_lt_Some. }
      rewrite bool_decide_eq_false_2 by lia.
      rewrite bool_decide_eq_true_2 by lia. done.
    + rewrite (Hb2 j r).
      2:{ rewrite Hb1. by rewrite list_lookup_insert_ne. }
      destruct (decide (S i <= j < S i + n)%nat).
      * rewrite !bool_decide_eq_true_2 by lia.
        unfold retarget. by rewrite (bar_target_config s1 s j r Hc1).
      * rewrite !bool_decide_eq_false_2 by lia. done.
Qed.

Lemma pci_update_config_spec s w :
  bars_ok s ->
  exists s' w',
    pci_update_config H xc (s, w) = Some (s', w')
    /\ config s' = config s /\ mask s' = mask s /\ bdf s' = bdf s
    /\ bars_ok s'
    /\ forall j b, bar s !! j = Some b ->
         bar s' !! j = Some (retarget H s j b).
Proof.
  intros Hok. unfold pci_update_config.
  destruct (update_loop_spec PCI_NUM_BAR 0%nat s w Hok)
    as (s' & w' & E & Hc & Hm & Hd & Hok' & Hb); [lia|].
  exists s', w'. repeat split; try done; try apply Hok'.
  intros j b Hj. rewrite (Hb j b Hj).
  rewrite bool_decide_eq_true_2; [done|].
  destruct Hok as [Hlen _]. apply lookup_lt_Some in Hj. lia.
Qed.

(** ** pci_config_write and pci_config_resume *)

Lemma bar_target_fields s index b1 b2 :
  size b1 = size b2 -> is_mmio b1 = is_mmio b2 ->
  bar_target H s index b1 = bar_target H s index b2.
Proof. intros E1 E2. unfold bar_target. by rewrite E1, E2. Qed.

Lemma updated_bars_moved s0 s' :
  (forall j b, bar s0 !! j = Some b -> bar s' !! j = Some (retarget H s0 j b)) ->
  bars_moved s0 s'.
Proof.
  intros Hb j r Hj. rewrite (Hb j r Hj). unfold retarget.
  destruct (enable r =? 0); [|by eexists].
  exists (addr r). by rewrite set_addr_same.
Qed.

Lemma updated_bars_at_target s0 s' :
  length (bar s0) = length (bar s') ->
  config s' = config s0 ->
  (forall j b, bar s0 !! j = Some b -> bar s' !! j = Some (retarget H s0 j b)) ->
  bars_at_target H s'.
Proof.
  intros Hlen Hc Hb j b' Hj He.
  destruct (lookup_lt_is_Some_2 (bar s0) j) as [b Hb0].
  { rewrite Hlen. by eapply lookup_lt_Some. }
  rewrite (Hb j b Hb0) in Hj. injection Hj as <-.
  rewrite (bar_target_config s' s0 j _ Hc).
  unfold retarget in *. destruct (Z.eqb_spec (enable b) 0); [done|].
  simpl. by apply bar_target_fields.
Qed.

Lemma pci_config_write_other_bdf s w a sz v :
  u16 (Z.shiftr (u64 a) 32) <> bdf s ->
  pci_config_write H xc ub (s, w) a sz v = Some (s, w).
Proof.
  intros Hne. unfold pci_config_write.
  destruct (Z.eqb_spec (u16 (Z.shiftr (u64 a) 32)) (bdf s)); done.
Qed.

Lemma pci_config_write_same_bdf s w a sz v :
  bars_ok s ->
  u16 (Z.shiftr (u64 a) 32) = bdf s ->
  exists s' w',
    pci_config_write H xc ub (s, w) a sz v = Some (s', w')
    /\ config s' =
       config (config_write_loop ub (Z.to_nat (Z.land (u64 sz) 0xffff)) 0
                 (u64 (Z.land (u64 a) 0xff + Z.shiftr (u64 sz) 16)) (u32 v) s)
    /\ mask s' = mask s /\ bdf s' = bdf s /\ bars_ok s'
    /\ bars_at_target H s' /\ bars_moved s s'.
Proof.
  intros Hok Hbdf. unfold pci_config_write. rewrite Hbdf, Z.eqb_refl. simpl.
  set (s0 := config_write_loop ub _ _ _ _ s).
  destruct (config_write_loop_other (Z.to_nat (Z.land (u64 sz) 0xffff)) 0
              (u64 (Z.land (u64 a) 0xff + Z.shiftr (u64 sz) 16)) (u32 v) s)
    as (Hm0 & Hb0 & Hd0 & Hl0). fold s0 in Hm0, Hb0, Hd0, Hl0.
  assert (Hok0 : bars_ok s0).
  { destruct Hok as [? ?]. split; rewrite Hb0; done. }
  destruct (pci_update_config_spec s0 w Hok0)
    as (s' & w' & E & Hc & Hm & Hd & Hok' & Hb).
  exists s', w'. repeat split; try congruence; try apply Hok'.
  - apply (updated_bars_at_target s0 s'); try done.
    destruct Hok0 as [-> _]. by destruct Hok' as [-> _].
  - intros j r Hj. rewrite <- Hb0 in Hj. by apply (updated_bars_moved s0 s').
Qed.

Lemma pci_config_resume_spec s w data :
  bars_ok s ->
  exists s' w',
    pci_config_resume H xc (s, w) data = Some (s', w')
    /\ config s' =
       memcpy (config s) 0
         (List.map u8 (take (Z.to_nat PCI_CONFIG_SIZE) data))
    /\ mask s' = mask s /\ bdf s' = bdf s /\ bars_ok s'
    /\ bars_at_target H s' /\ bars_moved s s'.
Proof.
  intros Hok. unfold pci_config_resume.
  set (s0 := set_config s _).
  assert (Hok0 : bars_ok s0) by done.
  destruct (pci_update_config_spec s0 w Hok0)
    as (s' & w' & E & Hc & Hm & Hd & Hok' & Hb).
  exists s', w'. repeat split; try done; try apply Hok'.
  - apply (updated_bars_at_target s0 s'); try done.
    destruct Hok0 as [-> _]. by destruct Hok' as [-> _].
  - by apply (updated_bars_moved s0 s').
Qed.

(** ** The reachable states *)

Lemma pci0_bars_ok : bars_ok (pci0 (W := W)).
Proof.
  split; [done|]. intros j b Hj He.
  change (bar pci0) with (replicate PCI_NUM_BAR (bar0 (W := W))) in Hj.
  apply lookup_replicate in Hj as [-> _]. done.
Qed.

Lemma pci_device_register_shape s0 w x d i info s w' rc :
  pci_device_register H xc (s0, w) x d i info = (s, w', rc) ->
  length (config s) = length (config s0)
  /\ length (mask s) = length (mask s0)
  /\ bar s = bar s0
  /\ (mask s = mask s0 \/ mask s = register_mask H (mask s0)).
Proof.
  unfold pci_device_register.
  destruct (_ || _).
  - intros [= <- _ _]. cbn [set_handle config mask bar]. auto.
  - destruct (xc_hvm_map_pcidev_to_ioreq_server _ _ _ _ _ _ _ _ _) as [r w1].
    destruct (r <? 0); intros [= <- _ _];
      cbn [set_handle set_bdf set_config set_mask config mask bar];
      unfold register_config, register_mask;
      rewrite !length_memcpy; auto.
Qed.

Lemma pci_bar_register_inv s index type order o p s' :
  pci_bar_register H ub s index type order o p = (s', 0) ->
  let i := Z.to_nat (u32 index) in
  let k := PCI_BASE_ADDRESS_0 + u32 index * 4 in
  exists b t r,
    u32 index < Z.of_nat PCI_NUM_BAR
    /\ bar s !! i = Some b /\ enable b = 0
    /\ o = Some t
    /\ config s' = memcpy (config s) k (le_bytes 4 (u8 type))
    /\ mask s' =
       memcpy (mask s) k (le_bytes 4 (u32 (Z.lnot (u32 (size r - 1)))))
    /\ bdf s' = bdf s
    /\ bar s' = <[i := r]> (bar s)
    /\ enable r = 1 /\ ops r = Some t
    /\ Pci.addr r = PCI_BAR_UNMAPPED H
    /\ is_mmio r =
       (if Z.land (u8 type) (PCI_BASE_ADDRESS_SPACE_IO H) =? 0 then 1 else 0).
Proof.
  unfold pci_bar_register. intros E.
  destruct (Z.leb_spec (Z.of_nat PCI_NUM_BAR) (u32 index)); [done|].
  destruct (bar s !! Z.to_nat (u32 index)) as [b|] eqn:Hb; [|done].
  destruct (Z.eqb_spec (enable b) 0) as [He|]; [|done]. simpl in E.
  destruct o as [t|]; [|done].
  destruct (is_null (readb t) || is_null (writeb t)); [done|].
  injection E as <-. eexists b, t, _. simpl.
  repeat split; try done.
Qed.

Lemma reachable_shape s :
  reachable H xc ub s ->
  length (config s) = Z.to_nat PCI_CONFIG_SIZE
  /\ length (mask s) = Z.to_nat PCI_CONFIG_SIZE
  /\ bars_ok s.
Proof.
  induction 1 as [w x d i info s w' rc E
                 | s index type order o p s' _ IH E
                 | s w a sz v s' w' _ IH E
                 | s w data s' w' _ IH E].
  - destruct (pci_device_register_shape _ _ _ _ _ _ _ _ _ E)
      as (Hc & Hm & Hb & _).
    rewrite Hc, Hm. unfold bars_ok. rewrite Hb.
    split; [apply length_replicate|]. split; [apply length_replicate|].
    apply pci0_bars_ok.
  - destruct IH as (Hc & Hm & Hlen & Hops).
    destruct (pci_bar_register_inv _ _ _ _ _ _ _ E)
      as (b & t & r & Hi & Hb & He & -> & Ec & Em & _ & Eb & Er & Eo & _).
    rewrite Ec, Em, !length_memcpy. repeat split; try done.
    + by rewrite Eb, length_insert.
    + intros j q Hj Hq. rewrite Eb in Hj.
      destruct (decide (Z.to_nat (u32 index) = j)) as [<-|Hne].
      * rewrite list_lookup_insert_eq in Hj by (by eapply lookup_lt_Some).
        injection Hj as <-. by rewrite Eo.
      * rewrite list_lookup_insert_ne in Hj by done. by eapply Hops.
  - destruct IH as (Hc & Hm & Hok).
    destruct (Z.eq_dec (u16 (Z.shiftr (u64 a) 32)) (bdf s)) as [Hd|Hd].
    + destruct (pci_config_write_same_bdf s w a sz v Hok Hd)
        as (s1 & w1 & E1 & Hc1 & Hm1 & _ & Hok1 & _ & _).
      rewrite E1 in E. injection E as <- <-.
      rewrite Hc1, Hm1.
      by rewrite (proj2 (proj2 (proj2 (config_write_loop_other _ _ _ _ _)))).
    + rewrite pci_config_write_other_bdf in E by done. by injection E as <- <-.
  - destruct IH as (Hc & Hm & Hok).
    destruct (pci_config_resume_spec s w data Hok)
      as (s1 & w1 & E1 & Hc1 & Hm1 & _ & Hok1 & _ & _).
    rewrite E1 in E. injection E as <- <-.
    by rewrite Hc1, Hm1, length_memcpy.
Qed.

Lemma bar_target_memcpy_other s s' i src j b :
  config s' = memcpy (config s) (PCI_BASE_ADDRESS_0 + Z.of_nat i * 4) src ->
  length src = 4%nat -> j <> i ->
  bar_target H s' j b = bar_target H s j b.
Proof.
  intros Ec Hlen Hne. unfold bar_target. rewrite Ec.
  rewrite !le_load_memcpy_other;
    [done | | | | | | ]; unfold PCI_BASE_ADDRESS_0, PCI_COMMAND; lia.
Qed.

Lemma bar_target_fresh s' r i type c :
  config s' = memcpy c (PCI_BASE_ADDRESS_0 + Z.of_nat i * 4)
                (le_bytes 4 (u8 type)) ->
  PCI_BASE_ADDRESS_0 + Z.of_nat i * 4 + 4 <= Z.of_nat (length c) ->
  is_mmio r =
    (if Z.land (u8 type) (PCI_BASE_ADDRESS_SPACE_IO H) =? 0 then 1 else 0) ->
  type_flags_only H type ->
  bar_target H s' i r = PCI_BAR_UNMAPPED H.
Proof.
  intros Ec Hlen Hm Hty. unfold bar_target. rewrite Ec.
  rewrite le_load_memcpy_same by (unfold PCI_BASE_ADDRESS_0 in *; lia).
  assert (Hu : u8 type mod 2 ^ (8 * Z.of_nat 4) = u8 type).
  { apply Z.mod_small. pose proof (u8_range type). lia. }
  rewrite Hu, Hm. unfold type_flags_only in Hty.
  destruct (Z.land (u8 type) (PCI_BASE_ADDRESS_SPACE_IO H) =? 0);
    cbn [Z.eqb negb]; rewrite Hty;
    (match goal with
     | |- context [if ?c then PCI_BAR_UNMAPPED H else 0] => destruct c
     end; [by destruct (_ || _) | done]).
Qed.

Lemma pci_device_register_no_bar w x d i info s w' rc j b :
  pci_device_register H xc (pci0, w) x d i info = (s, w', rc) ->
  bar s !! j = Some b -> enable b = 0.
Proof.
  intros E Hj.
  destruct (pci_device_register_shape _ _ _ _ _ _ _ _ _ E) as (_ & _ & Hb & _).
  rewrite Hb in Hj.
  change (bar pci0) with (replicate PCI_NUM_BAR (bar0 (W := W))) in Hj.
  apply lookup_replicate in Hj as [-> _]. done.
Qed.

(** A BAR is mapped by [pci_update_bar] only, at the address computed
    from the configuration space, and what changes the registers that
    the address is computed from updates the BAR: a mapped BAR sits at
    that address.  A BAR that [pci_bar_register] has just enabled is not
    mapped, whatever its type byte decodes to. *)
Lemma reachable_mapped_at_target s :
  reachable H xc ub s -> mapped_at_target H s.
Proof.
  induction 1 as [w x d i info s w' rc E
                 | s index type order o p s' Hr IH E
                 | s w a sz v s' w' Hr IH E
                 | s w data s' w' Hr IH E].
  - intros j b Hj He.
    by rewrite (pci_device_register_no_bar _ _ _ _ _ _ _ _ j b E Hj) in He.
  - destruct (reachable_shape s Hr) as (Hc & _ & Hlen & _).
    destruct (pci_bar_register_inv _ _ _ _ _ _ _ E)
      as (b & t & r & Hi & Hb & He & -> & Ec & _ & _ & Eb & Er & _ & Ea & Em).
    assert (Ek : PCI_BASE_ADDRESS_0 + u32 index * 4 =
                 PCI_BASE_ADDRESS_0 + Z.of_nat (Z.to_nat (u32 index)) * 4).
    { pose proof (u32_range index). lia. }
    rewrite Ek in Ec.
    intros j q Hj Hq. rewrite Eb in Hj.
    destruct (decide (Z.to_nat (u32 index) = j)) as [<-|Hne].
    + rewrite list_lookup_insert_eq in Hj by (by eapply lookup_lt_Some).
      injection Hj as <-. by left.
    + rewrite list_lookup_insert_ne in Hj by done.
      rewrite (bar_target_memcpy_other s s' _ _ j q Ec)
        by (rewrite ?length_le_bytes; done).
      by apply IH.
  - destruct (reachable_shape s Hr) as (_ & _ & Hok).
    destruct (Z.eq_dec (u16 (Z.shiftr (u64 a) 32)) (bdf s)) as [Hd|Hd].
    + destruct (pci_config_write_same_bdf s w a sz v Hok Hd)
        as (s1 & w1 & E1 & _ & _ & _ & _ & Ht & _).
      rewrite E1 in E. injection E as <- <-.
      intros j b Hj He. right. by apply Ht.
    + rewrite pci_config_write_other_bdf in E by done. by injection E as <- <-.
  - destruct (reachable_shape s Hr) as (_ & _ & Hok).
    destruct (pci_config_resume_spec s w data Hok)
      as (s1 & w1 & E1 & _ & _ & _ & _ & Ht & _).
    rewrite E1 in E. injection E as <- <-.
    intros j b Hj He. right. by apply Ht.
Qed.

Lemma reachable_flags_reachable s :
  reachable_flags H xc ub s -> reachable H xc ub s.
Proof.
  induction 1 as [w x d i info s w' rc E
                 | s index type order o p s' _ IH _ E
                 | s w a sz v s' w' _ IH E
                 | s w data s' w' _ IH E].
  - by eapply reach_device.
  - by eapply reach_bar.
  - by eapply reach_write.
  - by eapply reach_resume.
Qed.

(** With type bytes of flag bits only, the register of a BAR that has
    just been enabled decodes to no address, and every enabled BAR sits
    at the address computed from the configuration space. *)
Lemma reachable_flags_at_target s :
  reachable_flags H xc ub s -> bars_at_target H s.
Proof.
  induction 1 as [w x d i info s w' rc E
                 | s index type order o p s' Hr IH Hty E
                 | s w a sz v s' w' Hr IH E
                 | s w data s' w' Hr IH E].
  - intros j b Hj He.
    by rewrite (pci_device_register_no_bar _ _ _ _ _ _ _ _ j b E Hj) in He.
  - apply reachable_flags_reachable in Hr.
    destruct (reachable_shape s Hr) as (Hc & _ & Hlen & _).
    destruct (pci_bar_register_inv _ _ _ _ _ _ _ E)
      as (b & t & r & Hi & Hb & He & -> & Ec & _ & _ & Eb & Er & _ & Ea & Em).
    assert (Ek : PCI_BASE_ADDRESS_0 + u32 index * 4 =
                 PCI_BASE_ADDRESS_0 + Z.of_nat (Z.to_nat (u32 index)) * 4).
    { pose proof (u32_range index). lia. }
    rewrite Ek in Ec.
    intros j q Hj Hq. rewrite Eb in Hj.
    destruct (decide (Z.to_nat (u32 index) = j)) as [<-|Hne].
    + rewrite list_lookup_insert_eq in Hj by (by eapply lookup_lt_Some).
      injection Hj as <-. rewrite Ea. symmetry.
      eapply bar_target_fresh; try done.
      rewrite Hc. unfold PCI_BASE_ADDRESS_0, PCI_CONFIG_SIZE, PCI_NUM_BAR in *.
      lia.
    + rewrite list_lookup_insert_ne in Hj by done.
      rewrite (bar_target_memcpy_other s s' _ _ j q Ec)
        by (rewrite ?length_le_bytes; done).
      by apply IH.
  - apply reachable_flags_reachable in Hr.
    destruct (reachable_shape s Hr) as (_ & _ & Hok).
    destruct (Z.eq_dec (u16 (Z.shiftr (u64 a) 32)) (bdf s)) as [Hd|Hd].
    + destruct (pci_config_write_same_bdf s w a sz v Hok Hd)
        as (s1 & w1 & E1 & _ & _ & _ & _ & Ht & _).
      rewrite E1 in E. by injection E as <- <-.
    + rewrite pci_config_write_other_bdf in E by done. by injection E as <- <-.
  - apply reachable_flags_reachable in Hr.
    destruct (reachable_shape s Hr) as (_ & _ & Hok).
    destruct (pci_config_resume_spec s w data Hok)
      as (s1 & w1 & E1 & _ & _ & _ & _ & Ht & _).
    rewrite E1 in E. by injection E as <- <-.
Qed.

(** The address computed for a BAR is a mapping exactly when the space
    of the BAR is enabled and the base address in its register is neither
    0 nor the size probe. *)
Lemma bar_target_mapped s index b :
  unmapped_is_no_base H ->
  bar_target H s index b <> PCI_BAR_UNMAPPED H <->
  space_enabled H s b /\ bar_base H s index b <> 0
    /\ bar_base H s index b <> size_probe b.
Proof.
  intros Hu. unfold bar_target, space_enabled, bar_base, size_probe.
  set (cmd := le_load 2 (config s) PCI_COMMAND).
  set (raw := le_load 4 (config s) _).
  set (probe := u32 (Z.lnot (u32 (size b - 1)))).
  destruct (Hu raw) as [Hmem Hio].
  destruct (Z.eqb_spec (is_mmio b) 0) as [Hm|Hm]; simpl.
  - rewrite andb_false_r, orb_false_r, andb_true_r.
    destruct (Z.eqb_spec (Z.land cmd (PCI_COMMAND_IO H)) 0) as [Hc|Hc].
    + split; [|tauto]. by destruct (_ || _).
    + destruct (Z.eqb_spec (u32 (Z.land raw (PCI_BASE_ADDRESS_IO_MASK H))) 0),
        (Z.eqb_spec (u32 (Z.land raw (PCI_BASE_ADDRESS_IO_MASK H))) probe);
        simpl; tauto.
  - rewrite andb_false_r, andb_true_r. simpl.
    destruct (Z.eqb_spec (Z.land cmd (PCI_COMMAND_MEMORY H)) 0) as [Hc|Hc].
    + split; [|tauto]. by destruct (_ || _).
    + destruct (Z.eqb_spec (u32 (Z.land raw (PCI_BASE_ADDRESS_MEM_MASK H))) 0),
        (Z.eqb_spec (u32 (Z.land raw (PCI_BASE_ADDRESS_MEM_MASK H))) probe);
        simpl; tauto.
Qed.

Lemma bars_at_target_mapped_iff s :
  unmapped_is_no_base H -> bars_at_target H s -> bars_mapped_iff_decoded H s.
Proof.
  intros Hu Ht j b Hj He. unfold mapped. rewrite (Ht j b Hj He).
  by apply bar_target_mapped.
Qed.

(** ** The writable mask *)

Lemma byte_at_zeros n k : byte_at (replicate n 0) k = 0.
Proof.
  unfold byte_at. destruct (replicate n 0 !! Z.to_nat k) as [y|] eqn:E; [|done].
  apply lookup_replicate in E as [-> _]. done.
Qed.

Lemma testbit_byte_le_bytes n v i b :
  0 <= i < Z.of_nat n -> 0 <= b < 8 ->
  Z.testbit (byte_at (le_bytes n v) i) b = Z.testbit v (8 * i + b).
Proof.
  intros Hi Hb. rewrite byte_at_le_bytes, u8_testbit, Z.shiftr_spec by lia.
  f_equal. lia.
Qed.

Lemma writable_mono s s' k b :
  (forall j r, bar s !! j = Some r -> enable r <> 0 ->
     exists r', bar s' !! j = Some r' /\ enable r' <> 0 /\ size r' = size r) ->
  writable H s k b -> writable H s' k b.
Proof.
  intros Hb [Hk Ht | j r Hj He Hk Ht | -> | -> | Hk].
  - by apply writable_command.
  - destruct (Hb j r Hj He) as (r' & Hj' & He' & Hs').
    apply (writable_bar H s' k b j r'); try done. by rewrite Hs'.
  - by apply writable_cache_line.
  - by apply writable_interrupt_line.
  - by apply writable_past_header.
Qed.

Lemma bars_moved_writable s s' k b :
  bars_moved s s' -> writable H s k b -> writable H s' k b.
Proof.
  intros Hm. apply writable_mono. intros j r Hj He.
  destruct (Hm j r Hj) as [a Ha]. by exists (set_addr r a).
Qed.

Lemma register_mask_writable s k b :
  0 <= PCI_CACHE_LINE_SIZE H ->
  0 <= k < PCI_CONFIG_SIZE -> 0 <= b < 8 ->
  Z.testbit (byte_at (register_mask H (mask (pci0 (W := W)))) k) b = true ->
  writable H s k b.
Proof.
  intros Hcl Hk Hb. unfold register_mask.
  change (mask pci0) with (replicate (Z.to_nat PCI_CONFIG_SIZE) 0).
  rewrite !byte_at_memcpy
    by (try done; unfold PCI_CONFIG_HEADER_SIZE, PCI_COMMAND,
          PCI_INTERRUPT_LINE; lia).
  rewrite !length_memcpy, !length_replicate, length_le_bytes.
  unfold PCI_CONFIG_SIZE, PCI_CONFIG_HEADER_SIZE, PCI_COMMAND,
    PCI_INTERRUPT_LINE in *. cbn [length].
  assert (Hlt : (k <? Z.of_nat (Z.to_nat 256)) = true) by (apply Z.ltb_lt; lia).
  rewrite !Hlt, !andb_true_r.
  destruct (Z.leb_spec 64 k); cbn [andb].
  { intros _. apply writable_past_header. unfold PCI_CONFIG_HEADER_SIZE. lia. }
  destruct (Z.leb_spec 4 k), (Z.ltb_spec k (4 + Z.of_nat 2)); cbn [andb].
  { rewrite testbit_byte_le_bytes by lia. intros Ht.
    apply writable_command; unfold PCI_COMMAND; [lia|done]. }
  all: destruct (Z.leb_spec 60 k), (Z.ltb_spec k (60 + Z.of_nat 1));
    cbn [andb];
    try (intros _; apply writable_interrupt_line;
         unfold PCI_INTERRUPT_LINE; lia).
  all: destruct (Z.leb_spec (PCI_CACHE_LINE_SIZE H) k),
    (Z.ltb_spec k (PCI_CACHE_LINE_SIZE H + Z.of_nat 1)); cbn [andb];
    try (intros _; apply writable_cache_line; lia).
  all: rewrite byte_at_zeros, Z.bits_0; done.
Qed.

Lemma reachable_writable_only s :
  0 <= PCI_CACHE_LINE_SIZE H ->
  reachable H xc ub s -> writable_only H s.
Proof.
  intros Hcl.
  induction 1 as [w x d i info s w' rc E
                 | s index type order o p s' Hr IH E
                 | s w a sz v s' w' Hr IH E
                 | s w data s' w' Hr IH E].
  - destruct (pci_device_register_shape _ _ _ _ _ _ _ _ _ E)
      as (_ & _ & _ & [Hm|Hm]); intros k b Hk Hb; rewrite Hm.
    + change (mask pci0) with (replicate (Z.to_nat PCI_CONFIG_SIZE) 0).
      by rewrite byte_at_zeros, Z.bits_0.
    + by apply register_mask_writable.
  - destruct (reachable_shape s Hr) as (_ & Hlm & Hlen & _).
    destruct (pci_bar_register_inv _ _ _ _ _ _ _ E)
      as (q & t & r & Hi & Hq & He & -> & _ & Em & _ & Eb & Er & _ & _ & _).
    pose proof (u32_range index) as Hidx.
    intros k b Hk Hb. rewrite Em.
    rewrite byte_at_memcpy by (unfold PCI_BASE_ADDRESS_0; lia).
    rewrite length_le_bytes, Hlm.
    set (base := PCI_BASE_ADDRESS_0 + u32 index * 4).
    assert (Hlt : (k <? Z.of_nat (Z.to_nat PCI_CONFIG_SIZE)) = true)
      by (apply Z.ltb_lt; unfold PCI_CONFIG_SIZE in *; lia).
    rewrite Hlt, andb_true_r.
    destruct (Z.leb_spec base k), (Z.ltb_spec k (base + Z.of_nat 4));
      cbn [andb].
    { rewrite testbit_byte_le_bytes by lia. intros Ht.
      apply (writable_bar H s' k b (Z.to_nat (u32 index)) r).
      - rewrite Eb. apply list_lookup_insert_eq. by eapply lookup_lt_Some.
      - lia.
      - subst base. lia.
      - rewrite <- Ht. f_equal. subst base. lia. }
    all: intros Ht; apply (writable_mono s s'); [|by apply IH].
    all: intros j r0 Hj Hr0; exists r0; rewrite Eb;
      (rewrite list_lookup_insert_ne; [done|]); intros <-; congruence.
  - destruct (reachable_shape s Hr) as (_ & _ & Hok).
    destruct (Z.eq_dec (u16 (Z.shiftr (u64 a) 32)) (bdf s)) as [Hd|Hd].
    + destruct (pci_config_write_same_bdf s w a sz v Hok Hd)
        as (s1 & w1 & E1 & _ & Hm1 & _ & _ & _ & Hmv).
      rewrite E1 in E. injection E as <- <-.
      intros k b Hk Hb. rewrite Hm1. intros Ht.
      apply (bars_moved_writable s s1); [done|]. by apply IH.
    + rewrite pci_config_write_other_bdf in E by done. by injection E as <- <-.
  - destruct (reachable_shape s Hr) as (_ & _ & Hok).
    destruct (pci_config_resume_spec s w data Hok)
      as (s1 & w1 & E1 & _ & Hm1 & _ & _ & _ & Hmv).
    rewrite E1 in E. injection E as <- <-.
    intros k b Hk Hb. rewrite Hm1. intros Ht.
    apply (bars_moved_writable s s1); [done|]. by apply IH.
Qed.

(** ** The configuration space after pci_config_write *)

Lemma write_window a sz :
  0 <= Z.land (u64 a) 0xff + Z.shiftr (u64 sz) 16 < 2 ^ 48 + 256
  /\ 0 <= Z.land (u64 sz) 0xffff < 2 ^ 16.
Proof.
  pose proof (u64_range a) as Ha. pose proof (u64_range sz) as Hs.
  change 0xff with (Z.ones 8). change 0xffff with (Z.ones 16).
  rewrite !Z.land_ones, Z.shiftr_div_pow2 by lia.
  pose proof (Z.mod_pos_bound (u64 a) (2 ^ 8)).
  pose proof (Z.mod_pos_bound (u64 sz) (2 ^ 16)).
  assert (0 <= u64 sz / 2 ^ 16 < 2 ^ 48).
  { split; [apply Z.div_pos; lia|]. apply Z.div_lt_upper_bound; lia. }
  lia.
Qed.

Lemma pci_config_write_bytes s w a sz v :
  reachable H xc ub s ->
  u16 (Z.shiftr (u64 a) 32) = bdf s ->
  exists s' w',
    pci_config_write H xc ub (s, w) a sz v = Some (s', w')
    /\ mask s' = mask s /\ bars_moved s s'
    /\ forall k, 0 <= k < PCI_CONFIG_SIZE ->
         byte_at (config s') k =
         if (Z.land (u64 a) 0xff + Z.shiftr (u64 sz) 16 <=? k)
            && (k <? Z.land (u64 a) 0xff + Z.shiftr (u64 sz) 16
                     + Z.land (u64 sz) 0xffff)
         then merged (byte_at (config s) k) (byte_at (mask s) k)
                (shr32 ub (u32 v)
                   (8 * (k - (Z.land (u64 a) 0xff + Z.shiftr (u64 sz) 16))))
         else byte_at (config s) k.
Proof.
  intros Hr Hd. destruct (reachable_shape s Hr) as (Hc & _ & Hok).
  destruct (pci_config_write_same_bdf s w a sz v Hok Hd)
    as (s' & w' & E & Hc' & Hm' & _ & _ & _ & Hmv).
  exists s', w'. repeat split; try done.
  intros k Hk. rewrite Hc'.
  destruct (write_window a sz) as [Hoff Hlen].
  set (off := Z.land (u64 a) 0xff + Z.shiftr (u64 sz) 16) in *.
  set (len := Z.land (u64 sz) 0xffff) in *.
  rewrite (u64_small off) by lia.
  rewrite config_write_loop_byte_at by (try done; lia).
  rewrite Z.add_0_r, Z2Nat.id by lia.
  destruct ((off <=? k) && (k <? off + len)) eqn:Ein; [|done].
  apply andb_prop in Ein as [?%Z.leb_le ?%Z.ltb_lt].
  do 2 f_equal. rewrite u64_small; unfold PCI_CONFIG_SIZE in *; lia.
Qed.

(** C2.  A call of [pci_config_write] on a device in any reachable state
    returns, leaves the writable mask as it is, and leaves every bit of
    the 256 bytes of the configuration space that is clear in the mask as
    it was.  A bit that changes is therefore set in the mask, and the bits
    set in the mask are the enable bits of the COMMAND register, the
    address bits above the size of a registered BAR, the cache-line size,
    the interrupt line and the bytes past the 64-byte header. *)
Theorem pci_config_write_frame s w a sz v :
  reachable H xc ub s ->
  exists s' w',
    pci_config_write H xc ub (s, w) a sz v = Some (s', w')
    /\ mask s' = mask s
    /\ forall k bit,
         0 <= k < PCI_CONFIG_SIZE -> 0 <= bit < 8 ->
         (Z.testbit (byte_at (mask s) k) bit = false ->
          Z.testbit (byte_at (config s') k) bit
          = Z.testbit (byte_at (config s) k) bit)
         /\ (0 <= PCI_CACHE_LINE_SIZE H ->
             Z.testbit (byte_at (config s') k) bit
             <> Z.testbit (byte_at (config s) k) bit ->
             Z.testbit (byte_at (mask s) k) bit = true
             /\ writable H s k bit).
Proof.
  intros Hr.
  assert (Hf : exists s' w',
             pci_config_write H xc ub (s, w) a sz v = Some (s', w')
             /\ mask s' = mask s
             /\ forall k bit,
                  0 <= k < PCI_CONFIG_SIZE -> 0 <= bit < 8 ->
                  Z.testbit (byte_at (mask s) k) bit = false ->
                  Z.testbit (byte_at (config s') k) bit
                  = Z.testbit (byte_at (config s) k) bit).
  { destruct (Z.eq_dec (u16 (Z.shiftr (u64 a) 32)) (bdf s)) as [Hd|Hd].
    - destruct (pci_config_write_bytes s w a sz v Hr Hd)
        as (s' & w' & E & Hm & _ & Hby).
      exists s', w'. repeat split; try done.
      intros k bit Hk Hb Hclr. rewrite (Hby k Hk).
      destruct (_ && _); [|done].
      by rewrite merged_testbit, Hclr.
    - exists s, w. by rewrite pci_config_write_other_bdf. }
  destruct Hf as (s' & w' & E & Hm & Hfr).
  exists s', w'. repeat split; try done.
  - by apply Hfr.
  - destruct (Z.testbit (byte_at (mask s) k) bit) eqn:Hbit; [done|].
    exfalso. by auto.
  - destruct (Z.testbit (byte_at (mask s) k) bit) eqn:Hbit.
    + by apply (reachable_writable_only s).
    + exfalso. by auto.
Qed.

(** C6.  [pci_config_write] reads its [size] argument as two fields: the
    bytes written are those at the configuration-space offsets from
    [(addr & 0xff) + (size >> 16)] on, and there are [size & 0xffff] of
    them (up to the end of the configuration space); the byte at distance
    [d] from that offset takes byte [d] of [val] under the writable mask,
    and every other byte keeps its value. *)
Theorem pci_config_write_size_encoding s w a sz v :
  reachable H xc ub s ->
  u16 (Z.shiftr (u64 a) 32) = bdf s ->
  let off := Z.land (u64 a) 0xff + Z.shiftr (u64 sz) 16 in
  let len := Z.land (u64 sz) 0xffff in
  exists s' w',
    pci_config_write H xc ub (s, w) a sz v = Some (s', w')
    /\ forall k, 0 <= k < PCI_CONFIG_SIZE ->
         byte_at (config s') k =
         if (off <=? k) && (k <? off + len)
         then merged (byte_at (config s) k) (byte_at (mask s) k)
                (shr32 ub (u32 v) (8 * (k - off)))
         else byte_at (config s) k.
Proof.
  intros Hr Hd off len.
  destruct (pci_config_write_bytes s w a sz v Hr Hd)
    as (s' & w' & E & _ & _ & Hby).
  by exists s', w'.
Qed.

(** C9.  On a device in a reachable state [pci_config_resume] and
    [pci_config_write] return.  After [pci_config_resume], and after a
    [pci_config_write] addressed to the device, every enabled BAR is
    mapped (its [addr] is not [PCI_BAR_UNMAPPED]) exactly when the
    COMMAND enable bit of its space is set and the base address in its
    BAR register is neither 0 nor the size-probe pattern.  A
    [pci_config_write] addressed to another BDF updates no BAR: the
    equivalence holds after it when it held before, and it holds in every
    state when the BARs are registered with a type byte of flag bits
    only.  In every reachable state a BAR that is mapped is decoded in
    this way. *)
Theorem bars_mapped_after_update s :
  unmapped_is_no_base H ->
  reachable H xc ub s ->
  (forall w data, exists s' w',
      pci_config_resume H xc (s, w) data = Some (s', w')
      /\ bars_mapped_iff_decoded H s')
  /\ (forall w a sz v, exists s' w',
      pci_config_write H xc ub (s, w) a sz v = Some (s', w')
      /\ (u16 (Z.shiftr (u64 a) 32) = bdf s \/ bars_mapped_iff_decoded H s ->
          bars_mapped_iff_decoded H s'))
  /\ (reachable_flags H xc ub s -> bars_mapped_iff_decoded H s)
  /\ (forall index b,
      bar s !! index = Some b -> enable b <> 0 -> mapped H b ->
      space_enabled H s b /\ bar_base H s index b <> 0
      /\ bar_base H s index b <> size_probe b).
Proof.
  intros Hu Hr. destruct (reachable_shape s Hr) as (_ & _ & Hok).
  split; [|split; [|split]].
  - intros w data.
    destruct (pci_config_resume_spec s w data Hok)
      as (s' & w' & E & _ & _ & _ & _ & Ht & _).
    exists s', w'. split; [done|]. by apply bars_at_target_mapped_iff.
  - intros w a sz v.
    destruct (Z.eq_dec (u16 (Z.shiftr (u64 a) 32)) (bdf s)) as [Hd|Hd].
    + destruct (pci_config_write_same_bdf s w a sz v Hok Hd)
        as (s' & w' & E & _ & _ & _ & _ & Ht & _).
      exists s', w'. split; [done|]. intros _.
      by apply bars_at_target_mapped_iff.
    + exists s, w. rewrite pci_config_write_other_bdf by done.
      split; [done|]. by intros [Hd'|Hiff].
  - intros Hf. apply bars_at_target_mapped_iff; [done|].
    by apply reachable_flags_at_target.
  - intros j b Hj He Hm.
    destruct (reachable_mapped_at_target s Hr j b Hj He) as [Eu|Et]; [done|].
    unfold mapped in Hm. rewrite Et in Hm.
    by apply (bar_target_mapped s j b Hu).
Qed.

(** C10.  A [pci_config_write] whose BDF field (bits 32 and up of
    [addr], as a 16-bit value) is not the BDF of the device changes
    nothing: configuration space, masks and BARs are as before.  A
    [pci_config_read] whose BDF field (as a 32-bit value) is not the BDF
    of the device returns all ones whatever the configuration array
    holds. *)
Theorem other_bdf_untouched :
  (forall s w a sz v,
      u16 (Z.shiftr (u64 a) 32) <> bdf s ->
      pci_config_write H xc ub (s, w) a sz v = Some (s, w))
  /\ (forall s a sz c,
      u32 (Z.shiftr (u64 a) 32) <> bdf s ->
      pci_config_read ub (set_config s c) a sz = 0xffffffff).
Proof.
  split.
  - intros s w a sz v Hd. by apply pci_config_write_other_bdf.
  - intros s a sz c Hd. unfold pci_config_read.
    change (bdf (set_config s c)) with (bdf s).
    destruct (Z.eqb_spec (u32 (Z.shiftr (u64 a) 32)) (bdf s)); done.
Qed.

End Facts.

(** ** Decomposed BAR reads *)

Section BarRead.

Context {W : Type}.
Implicit Types (s : pci_t W) (w : W).

Lemma u64_add_l x y : u64 (u64 x + y) = u64 (x + y).
Proof. unfold u64. by rewrite Z.add_mod_idemp_l. Qed.

Lemma u64_idemp x : u64 (u64 x) = u64 x.
Proof. unfold u64. by rewrite Z.mod_mod. Qed.

Lemma ret_range (width : Z) (f : Z -> Z -> W -> Z * W) p a w :
  0 < width -> 0 <= (ret width f p a w).1 < 2 ^ (8 * width).
Proof.
  intros Hw. unfold ret. destruct (f p a w) as [v w']. simpl.
  apply Z.mod_pos_bound. apply Z.pow_pos_nonneg; lia.
Qed.

Lemma shifted_fits r width (i : nat) :
  0 < width -> 0 <= r < 2 ^ (8 * width) ->
  8 * width * (Z.of_nat i + 1) <= 32 ->
  u32 (Z.shiftl r (8 * width * Z.of_nat i)) = Z.shiftl r (8 * width * Z.of_nat i).
Proof.
  intros Hw Hr Hi. apply u32_small.
  rewrite Z.shiftl_mul_pow2 by lia. split; [apply Z.mul_nonneg_nonneg; lia|].
  apply Z.lt_le_trans with (2 ^ (8 * width) * 2 ^ (8 * width * Z.of_nat i)).
  - apply Z.mul_lt_mono_pos_r; [apply Z.pow_pos_nonneg|]; lia.
  - rewrite <- Z.pow_add_r by lia. apply Z.pow_le_mono_r; lia.
Qed.

(** The loop of [PCI_BAR_READ] makes the reads of the specification and
    composes what they return. *)
Lemma bar_read_loop_spec (fn : Z -> Z -> W -> Z * W) p width addr count :
  0 < width ->
  (forall q a w, 0 <= (fn q a w).1 < 2 ^ (8 * width)) ->
  forall (i : nat) val w,
    8 * width * (Z.of_nat i + Z.of_nat count) <= 32 ->
    bar_read_loop fn p width count (u64 (addr + Z.of_nat i * width))
      (8 * width * Z.of_nat i) val w
    = let '(rs, w') := narrow_reads fn p addr width i count w in
      (Z.lor val (le_compose_from width i rs), w').
Proof.
  intros Hw Hfn. induction count as [|c IH]; intros i val w Hi.
  - simpl. by rewrite Z.lor_0_r.
  - cbn [bar_read_loop narrow_reads].
    pose proof (Hfn p (u64 (addr + Z.of_nat i * width)) w) as Hr.
    destruct (fn p (u64 (addr + Z.of_nat i * width)) w) as [r w1].
    simpl in Hr.
    rewrite u64_add_l.
    replace (addr + Z.of_nat i * width + width)
      with (addr + Z.of_nat (S i) * width) by lia.
    replace (u32 (8 * width * Z.of_nat i + 8 * width))
      with (8 * width * Z.of_nat (S i)) by (rewrite u32_small; lia).
    rewrite shifted_fits by (try done; lia).
    rewrite IH by lia.
    destruct (narrow_reads fn p addr width (S i) c w1) as [rs w2].
    cbn [le_compose_from]. by rewrite Z.lor_assoc.
Qed.

Lemma PCI_BAR_READ_spec (f : Z -> Z -> W -> Z * W) p rel width count w :
  0 < width -> 8 * width * Z.of_nat count <= 32 ->
  PCI_BAR_READ (ret width f) p (u64 rel) width count w
  = decomposed_read (ret width f) p (u64 rel) width count w.
Proof.
  intros Hw Hc. unfold PCI_BAR_READ, decomposed_read, le_compose.
  pose proof (bar_read_loop_spec (ret width f) p width (u64 rel) count Hw
                (fun q a w => ret_range width f q a w Hw) 0%nat 0 w) as E.
  rewrite Z.mul_0_l, Z.add_0_r, Z.mul_0_r, u64_idemp in E.
  rewrite E by lia.
  by destruct (narrow_reads _ _ _ _ _ _ _) as [rs w'].
Qed.

(** The three decompositions of [pci_bar_read]. *)
Lemma pci_bar_read_narrow s w mmio a b o f :
  pci_bar_get s mmio (u64 a) = Some b ->
  ops b = Some o ->
  readb o = Some f ->
  let rel := u64 (u64 a - addr b) in
  (readw o = None ->
   pci_bar_read s w mmio a 2
   = Some (decomposed_read (ret 1 f) (priv b) rel 1 2 w))
  /\ (readl o = None -> readw o = None ->
      pci_bar_read s w mmio a 4
      = Some (decomposed_read (ret 1 f) (priv b) rel 1 4 w))
  /\ (forall g, readl o = None -> readw o = Some g ->
      pci_bar_read s w mmio a 4
      = Some (decomposed_read (ret 2 g) (priv b) rel 2 2 w)).
Proof.
  intros Hget Hops Hf rel. unfold pci_bar_read. rewrite Hget. simpl.
  rewrite Hops. simpl. fold rel. subst rel.
  repeat split.
  - intros Hw. change (u64 2 =? 1) with false. change (u64 2 =? 2) with true.
    cbn match. rewrite Hw, Hf. simpl. f_equal.
    by apply PCI_BAR_READ_spec.
  - intros Hl Hw. change (u64 4 =? 1) with false.
    change (u64 4 =? 2) with false. change (u64 4 =? 4) with true.
    cbn match. rewrite Hl, Hw, Hf. simpl. f_equal.
    by apply PCI_BAR_READ_spec.
  - intros g Hl Hw. change (u64 4 =? 1) with false.
    change (u64 4 =? 2) with false. change (u64 4 =? 4) with true.
    cbn match. rewrite Hl, Hw. f_equal.
    by apply PCI_BAR_READ_spec.
Qed.

End BarRead.

(** ** A BAR backed by memory: decomposed and native reads agree *)

Section NativeRead.

Lemma le_value_nonneg (bs : list Z) : 0 <= le_value bs.
Proof.
  induction bs as [|b bs IH]; simpl; [done|].
  apply Z.lor_nonneg. split; [apply u8_range | by apply Z.shiftl_nonneg].
Qed.

Lemma le_value_high (bs : list Z) : forall i,
  8 * Z.of_nat (length bs) <= i -> Z.testbit (le_value bs) i = false.
Proof.
  induction bs as [|b bs IH]; intros i Hi; simpl.
  - apply Z.bits_0.
  - simpl in Hi. rewrite Z.lor_spec, Z.shiftl_spec by lia.
    rewrite IH by lia. unfold u8.
    rewrite Z.mod_pow2_bits_high by lia. done.
Qed.

Lemma le_value_mod (bs : list Z) (n : Z) :
  Z.of_nat (length bs) <= n -> le_value bs mod 2 ^ (8 * n) = le_value bs.
Proof.
  intros Hn. apply Z.bits_inj'. intros i Hi.
  destruct (Z.ltb_spec i (8 * n)).
  - by rewrite Z.mod_pow2_bits_low.
  - rewrite Z.mod_pow2_bits_high by lia. symmetry. apply le_value_high. lia.
Qed.

Lemma ret_mem_read (n : nat) p off m :
  ret (Z.of_nat n) (mem_read n) p off m = mem_read n p off m.
Proof.
  unfold ret, mem_read. f_equal. apply le_value_mod.
  rewrite length_map, length_seq. lia.
Qed.

Lemma u8_mod_byte x : u8 x mod 2 ^ (8 * 1) = u8 x.
Proof. unfold u8. by rewrite Z.mod_mod. Qed.

(** One step of [narrow_reads] over the memory. *)
Lemma narrow_reads_mem (n : nat) p addr (i c : nat) m :
  narrow_reads (ret (Z.of_nat n) (mem_read n)) p addr (Z.of_nat n) i (S c) m
  = ((mem_read n p (u64 (addr + Z.of_nat i * Z.of_nat n)) m).1
       :: (narrow_reads (ret (Z.of_nat n) (mem_read n)) p addr (Z.of_nat n)
             (S i) c m).1, m).
Proof.
  cbn [narrow_reads]. rewrite ret_mem_read. unfold mem_read at 1.
  destruct (narrow_reads _ _ _ _ _ _ _) as [rs m'] eqn:E. simpl.
  f_equal. clear -E. revert i m' rs E.
  induction c as [|c IH]; intros i m' rs E.
  - simpl in E. by injection E as _ <-.
  - cbn [narrow_reads] in E. rewrite ret_mem_read in E.
    unfold mem_read at 1 in E.
    destruct (narrow_reads _ _ _ _ (S (S i)) _ _) as [rs' m''] eqn:E'.
    injection E as _ <-. by eapply IH.
Qed.

Ltac read_norm :=
  change (Z.of_nat 0) with 0; change (Z.of_nat 1) with 1;
  change (Z.of_nat 2) with 2; change (Z.of_nat 3) with 3;
  repeat (progress
    rewrite ?Z.mul_0_l, ?Z.mul_1_l, ?Z.mul_1_r, ?Z.mul_0_r, ?Z.add_0_r,
      ?Z.shiftl_0_l, ?Z.shiftl_0_r, ?Z.lor_0_r, ?u64_add_l, ?u64_idemp).

Lemma mem_bytes_as_word p rel m :
  decomposed_read (ret 1 (mem_read 1)) p (u64 rel) 1 2 m
  = mem_read 2 p (u64 rel) m.
Proof.
  unfold decomposed_read.
  pose proof (narrow_reads_mem 1 p (u64 rel) 0 1 m) as E0;
    change (Z.of_nat 1) with 1 in E0; rewrite E0; clear E0.
  pose proof (narrow_reads_mem 1 p (u64 rel) 1 0 m) as E1;
    change (Z.of_nat 1) with 1 in E1; rewrite E1; clear E1.
  unfold mem_read, le_compose. cbn [narrow_reads fst le_compose_from List.map seq le_value].
  read_norm. reflexivity.
Qed.

Lemma mem_bytes_as_long p rel m :
  decomposed_read (ret 1 (mem_read 1)) p (u64 rel) 1 4 m
  = mem_read 4 p (u64 rel) m.
Proof.
  unfold decomposed_read.
  pose proof (narrow_reads_mem 1 p (u64 rel) 0 3 m) as E0;
    change (Z.of_nat 1) with 1 in E0; rewrite E0; clear E0.
  pose proof (narrow_reads_mem 1 p (u64 rel) 1 2 m) as E1;
    change (Z.of_nat 1) with 1 in E1; rewrite E1; clear E1.
  pose proof (narrow_reads_mem 1 p (u64 rel) 2 1 m) as E2;
    change (Z.of_nat 1) with 1 in E2; rewrite E2; clear E2.
  pose proof (narrow_reads_mem 1 p (u64 rel) 3 0 m) as E3;
    change (Z.of_nat 1) with 1 in E3; rewrite E3; clear E3.
  unfold mem_read, le_compose. cbn [narrow_reads fst le_compose_from List.map seq le_value].
  read_norm.
  rewrite !Z.shiftl_lor, !Z.shiftl_shiftl by lia. reflexivity.
Qed.

Lemma mem_words_as_long p rel m :
  decomposed_read (ret 2 (mem_read 2)) p (u64 rel) 2 2 m
  = mem_read 4 p (u64 rel) m.
Proof.
  unfold decomposed_read.
  pose proof (narrow_reads_mem 2 p (u64 rel) 0 1 m) as E0;
    change (Z.of_nat 2) with 2 in E0; rewrite E0; clear E0.
  pose proof (narrow_reads_mem 2 p (u64 rel) 1 0 m) as E1;
    change (Z.of_nat 2) with 2 in E1; rewrite E1; clear E1.
  unfold mem_read, le_compose. cbn [narrow_reads fst le_compose_from List.map seq le_value].
  read_norm.
  rewrite !Z.shiftl_lor, !Z.shiftl_shiftl by lia.
  rewrite <- !Z.lor_assoc.
  replace (rel + 2 + 1) with (rel + 3) by lia. reflexivity.
Qed.

End NativeRead.

(** C5.  A 2- or 4-byte [pci_bar_read] from a BAR whose table lacks the
    wide handler returns the little-endian composition of the narrow
    reads: the read at the relative offset [addr + i * width] contributes
    its value shifted left by [8 * width * i] bits.  On a BAR backed by
    memory this is the value the native wide read of the same bytes
    returns, whichever handlers the table has. *)
Theorem pci_bar_read_decomposed :
  (forall (W : Type) (s : pci_t W) (w : W) mmio a b o f,
      pci_bar_get s mmio (u64 a) = Some b ->
      ops b = Some o ->
      readb o = Some f ->
      let rel := u64 (u64 a - addr b) in
      (readw o = None ->
       pci_bar_read s w mmio a 2
       = Some (decomposed_read (ret 1 f) (priv b) rel 1 2 w))
      /\ (readl o = None -> readw o = None ->
          pci_bar_read s w mmio a 4
          = Some (decomposed_read (ret 1 f) (priv b) rel 1 4 w))
      /\ (forall g, readl o = None -> readw o = Some g ->
          pci_bar_read s w mmio a 4
          = Some (decomposed_read (ret 2 g) (priv b) rel 2 2 w)))
  /\ (forall (s : pci_t (Z -> Z)) (m : Z -> Z) mmio a b wide16 wide32,
      pci_bar_get s mmio (u64 a) = Some b ->
      ops b = Some (mem_ops wide16 wide32) ->
      let rel := u64 (u64 a - addr b) in
      pci_bar_read s m mmio a 2 = Some (mem_read 2 (priv b) rel m)
      /\ pci_bar_read s m mmio a 4 = Some (mem_read 4 (priv b) rel m)).
Proof.
  split.
  - intros W s w mmio a b o f. apply pci_bar_read_narrow.
  - intros s m mmio a b wide16 wide32 Hget Hops rel.
    destruct (pci_bar_read_narrow s m mmio a b (mem_ops wide16 wide32)
                (mem_read 1) Hget Hops eq_refl) as (H2 & H4b & H4w).
    fold rel in H2, H4b, H4w. subst rel.
    assert (Hn2 : wide16 = true ->
                  pci_bar_read s m mmio a 2
                  = Some (mem_read 2 (priv b) (u64 (u64 a - addr b)) m)).
    { intros ->. unfold pci_bar_read. rewrite Hget. simpl. rewrite Hops.
      simpl. by rewrite (ret_mem_read 2). }
    assert (Hn4 : wide32 = true ->
                  pci_bar_read s m mmio a 4
                  = Some (mem_read 4 (priv b) (u64 (u64 a - addr b)) m)).
    { intros ->. unfold pci_bar_read. rewrite Hget. simpl. rewrite Hops.
      simpl. by rewrite (ret_mem_read 4). }
    split.
    + destruct wide16; [by apply Hn2|].
      rewrite H2 by done. by rewrite mem_bytes_as_word.
    + destruct wide32; [by apply Hn4|]. destruct wide16.
      * rewrite (H4w (mem_read 2)) by done. by rewrite mem_words_as_long.
      * rewrite H4b by done. by rewrite mem_bytes_as_long.
Qed.

(** ** The demonstration device *)

Lemma demo_reachable_flags {W : Type} (o : bar_ops_t W) (w : W) :
  is_null (readb o) = false -> is_null (writeb o) = false ->
  reachable_flags pci_regs quiet_xc zero_shifts (demo_registered o w).
Proof.
  intros Hr Hw. unfold demo_registered.
  destruct (pci_bar_register _ _ _ _ _ _ _ _) as [s' rc] eqn:E. simpl.
  set (s1 := (pci_device_register _ _ _ _ _ _ _).1.1) in *.
  apply (flags_bar _ _ _ s1 0 0x08 12 (Some o) 0).
  - apply (flags_device _ _ _ w 0 0 0 demo_info s1 w 0). reflexivity.
  - vm_compute. reflexivity.
  - rewrite E. f_equal. unfold pci_bar_register in E.
    cbn in E. rewrite Hr, Hw in E. cbn in E. by injection E as _ <-.
Qed.

Lemma demo_reachable {W : Type} (o : bar_ops_t W) (w : W) :
  is_null (readb o) = false -> is_null (writeb o) = false ->
  reachable pci_regs quiet_xc zero_shifts (demo_registered o w).
Proof.
  intros Hr Hw. by apply reachable_flags_reachable, demo_reachable_flags.
Qed.

Lemma demo_typed_reachable {W : Type} (o : bar_ops_t W) (w : W) :
  is_null (readb o) = false -> is_null (writeb o) = false ->
  reachable pci_regs quiet_xc zero_shifts (demo_typed o w).
Proof.
  intros Hr Hw. unfold demo_typed.
  destruct (pci_bar_register _ _ _ _ _ _ _ _) as [s' rc] eqn:E. simpl.
  set (s1 := (pci_device_register _ _ _ _ _ _ _).1.1) in *.
  apply (reach_bar _ _ _ s1 0 0xf0 12 (Some o) 0).
  - apply (reach_device _ _ _ w 0 0 0 demo_info s1 w 0). reflexivity.
  - rewrite E. f_equal. unfold pci_bar_register in E.
    cbn in E. rewrite Hr, Hw in E. cbn in E. by injection E as _ <-.
Qed.

Lemma pci_regs_unmapped : unmapped_is_no_base pci_regs.
Proof.
  intros x. cbn [pci_regs PCI_BASE_ADDRESS_MEM_MASK PCI_BASE_ADDRESS_IO_MASK
                 PCI_BAR_UNMAPPED].
  split; intros E; apply (f_equal (fun z => Z.testbit z 0)) in E;
    unfold u32 in E; rewrite Z.mod_pow2_bits_low, Z.land_spec in E by lia;
    cbn in E; by rewrite andb_false_r in E.
Qed.

(** ** The theorems at the demonstration device *)

Lemma demo_bar_get {W : Type} f rw rl g ww wl (w : W) :
  let o := {| map := None; unmap := None;
              readb := Some f; readw := rw; readl := rl;
              writeb := Some g; writew := ww; writel := wl |} in
  pci_bar_get (demo_state o w) 1 (u64 0xfebc0010) = Some (demo_bar o w)
  /\ ops (demo_bar o w) = Some o
  /\ addr (demo_bar o w) = 0xfebc0000
  /\ priv (demo_bar o w) = 0.
Proof. vm_compute. done. Qed.

(** The guest writes all ones to the COMMAND register: bit 11 of the
    register, bit 3 of the byte at offset 5, is not writable and stays. *)
Lemma pci_config_write_frame_witness :
  let s := demo_registered (mem_ops true true) (fun _ => 0) in
  reachable pci_regs quiet_xc zero_shifts s
  /\ exists s' w',
       pci_config_write pci_regs quiet_xc zero_shifts (s, fun _ => 0)
         (demo_cfg PCI_COMMAND) 2 0xffff = Some (s', w')
       /\ mask s' = mask s
       /\ Z.testbit (byte_at (mask s) 5) 3 = false
       /\ Z.testbit (byte_at (config s') 5) 3
          = Z.testbit (byte_at (config s) 5) 3.
Proof.
  intros s.
  assert (Hr : reachable pci_regs quiet_xc zero_shifts s)
    by (apply demo_reachable; reflexivity).
  split; [exact Hr|].
  destruct (pci_config_write_frame pci_regs quiet_xc zero_shifts s
              (fun _ => 0) (demo_cfg PCI_COMMAND) 2 0xffff Hr)
    as (s' & w' & E & Hm & Hf).
  exists s', w'. split; [exact E|]. split; [exact Hm|].
  assert (Hclr : Z.testbit (byte_at (mask s) 5) 3 = false)
    by (vm_compute; reflexivity).
  split; [exact Hclr|].
  apply (Hf 5 3); [unfold PCI_CONFIG_SIZE; lia | lia | exact Hclr].
Defined.

(** The guest writes BAR 0 through offset 0 and a [size] of
    [0x10 << 16 | 4]: the byte at offset 0x12 takes byte 2 of the
    value. *)
Lemma pci_config_write_size_encoding_witness :
  let s := demo_registered (mem_ops true true) (fun _ => 0) in
  (reachable pci_regs quiet_xc zero_shifts s
   /\ u16 (Z.shiftr (u64 (demo_cfg 0)) 32) = bdf s)
  /\ exists s' w',
       pci_config_write pci_regs quiet_xc zero_shifts (s, fun _ => 0)
         (demo_cfg 0) 0x100004 0xfebc0000 = Some (s', w')
       /\ byte_at (config s') 0x12 = 0xbc
       /\ byte_at (config s') 0x14 = byte_at (config s) 0x14.
Proof.
  intros s.
  assert (Hr : reachable pci_regs quiet_xc zero_shifts s)
    by (apply demo_reachable; reflexivity).
  assert (Hd : u16 (Z.shiftr (u64 (demo_cfg 0)) 32) = bdf s)
    by (vm_compute; reflexivity).
  split; [split; assumption|].
  destruct (pci_config_write_size_encoding pci_regs quiet_xc zero_shifts s
              (fun _ => 0) (demo_cfg 0) 0x100004 0xfebc0000 Hr Hd)
    as (s' & w' & E & Hby).
  exists s', w'. split; [exact E|]. split.
  - rewrite (Hby 0x12) by (unfold PCI_CONFIG_SIZE; lia).
    vm_compute. reflexivity.
  - rewrite (Hby 0x14) by (unfold PCI_CONFIG_SIZE; lia). reflexivity.
Defined.

(** The device with BAR 0 registered as a prefetchable memory BAR. *)
Lemma bars_mapped_after_update_witness :
  let s := demo_registered (mem_ops true true) (fun _ => 0) in
  (unmapped_is_no_base pci_regs
   /\ reachable pci_regs quiet_xc zero_shifts s)
  /\ (forall w data, exists s' w',
         pci_config_resume pci_regs quiet_xc (s, w) data = Some (s', w')
         /\ bars_mapped_iff_decoded pci_regs s')
  /\ (forall w a sz v, exists s' w',
         pci_config_write pci_regs quiet_xc zero_shifts (s, w) a sz v
         = Some (s', w')
         /\ (u16 (Z.shiftr (u64 a) 32) = bdf s
             \/ bars_mapped_iff_decoded pci_regs s ->
             bars_mapped_iff_decoded pci_regs s'))
  /\ (reachable_flags pci_regs quiet_xc zero_shifts s ->
      bars_mapped_iff_decoded pci_regs s)
  /\ (forall index b,
         bar s !! index = Some b -> enable b <> 0 -> mapped pci_regs b ->
         space_enabled pci_regs s b /\ bar_base pci_regs s index b <> 0
         /\ bar_base pci_regs s index b <> size_probe b).
Proof.
  intros s.
  assert (Hr : reachable pci_regs quiet_xc zero_shifts s)
    by (apply demo_reachable; reflexivity).
  split; [split; [apply pci_regs_unmapped | exact Hr]|].
  exact (bars_mapped_after_update pci_regs quiet_xc zero_shifts s
           pci_regs_unmapped Hr).
Defined.

(** C9 as it is worded, after every [pci_config_write], fails.  BAR 0 is
    registered with the type byte 0xf0 on a device whose memory decoding
    is on, and the guest writes to the function 00:03.1, which is not the
    device: the call returns with nothing changed, the register of BAR 0
    decodes to the base address 0xf0, which is neither 0 nor the size
    probe 0xfffff000, and the BAR is not mapped. *)
Lemma bars_mapped_after_update_counterexample :
  let s := demo_typed (log_ops false false) [] in
  let b := default bar0 (bar s !! 0%nat) in
  reachable pci_regs quiet_xc zero_shifts s
  /\ pci_config_write pci_regs quiet_xc zero_shifts (s, [])
       (Z.lor (Z.shiftl 0x19 32) 0x10) 4 0 = Some (s, [])
  /\ bar s !! 0%nat = Some b
  /\ enable b <> 0
  /\ (space_enabled pci_regs s b /\ bar_base pci_regs s 0 b = 0xf0
      /\ size_probe b = 0xfffff000)
  /\ ~ mapped pci_regs b
  /\ ~ bars_mapped_iff_decoded pci_regs s.
Proof.
  intros s b.
  assert (Hb : bar s !! 0%nat = Some b) by (vm_compute; reflexivity).
  assert (He : enable b <> 0) by (vm_compute; discriminate).
  assert (Hs : space_enabled pci_regs s b) by (vm_compute; discriminate).
  assert (Hbase : bar_base pci_regs s 0 b = 0xf0) by (vm_compute; reflexivity).
  assert (Hp : size_probe b = 0xfffff000) by (vm_compute; reflexivity).
  assert (Hm : ~ mapped pci_regs b) by (intros Hm; apply Hm; vm_compute; reflexivity).
  split; [apply demo_typed_reachable; reflexivity|].
  split; [vm_compute; reflexivity|].
  split; [exact Hb|]. split; [exact He|]. split; [done|]. split; [exact Hm|].
  intros Hiff. apply Hm. apply (Hiff 0%nat b Hb He).
  rewrite Hbase, Hp. split; [exact Hs|]. split; discriminate.
Qed.

(** Accesses addressed to 00:03.1. *)
Lemma other_bdf_untouched_witness :
  let s := demo_registered (mem_ops true true) (fun _ => 0) in
  let a := Z.lor (Z.shiftl 0x19 32) 0x10 in
  (u16 (Z.shiftr (u64 a) 32) <> bdf s /\ u32 (Z.shiftr (u64 a) 32) <> bdf s)
  /\ pci_config_write pci_regs quiet_xc zero_shifts (s, fun _ => 0) a 4
       0xfebc0000 = Some (s, fun _ => 0)
  /\ pci_config_read zero_shifts (set_config s []) a 4 = 0xffffffff.
Proof.
  intros s a.
  assert (H16 : u16 (Z.shiftr (u64 a) 32) <> bdf s)
    by (intros E; vm_compute in E; discriminate).
  assert (H32 : u32 (Z.shiftr (u64 a) 32) <> bdf s)
    by (intros E; vm_compute in E; discriminate).
  split; [split; assumption|]. split.
  - exact (proj1 (other_bdf_untouched pci_regs quiet_xc zero_shifts)
             s (fun _ => 0) a 4 0xfebc0000 H16).
  - exact (proj2 (other_bdf_untouched pci_regs quiet_xc zero_shifts)
             s a 4 [] H32).
Defined.

(** 2- and 4-byte reads at offset 0x10 of the mapped BAR, through a
    table that has the byte handler only; the memory holds [a + 0x80] at
    the offset [a]. *)
Lemma pci_bar_read_decomposed_witness :
  let m := fun a : Z => a + 0x80 in
  let s := demo_state (mem_ops false false) m in
  let b := demo_bar (mem_ops false false) m in
  (pci_bar_get s 1 (u64 0xfebc0010) = Some b
   /\ ops b = Some (mem_ops false false))
  /\ pci_bar_read s m 1 0xfebc0010 2 = Some (0x9190, m)
  /\ pci_bar_read s m 1 0xfebc0010 4 = Some (0x93929190, m).
Proof.
  intros m s b.
  pose proof (demo_bar_get (mem_read 1) None None (mem_write 1) None None m)
    as Hd.
  change (pci_bar_get s 1 (u64 0xfebc0010) = Some b
          /\ ops b = Some (mem_ops false false)
          /\ addr b = 0xfebc0000 /\ priv b = 0) in Hd.
  destruct Hd as (Hget & Hops & Haddr & Hpriv).
  split; [split; assumption|].
  pose proof (proj2 pci_bar_read_decomposed s m 1 0xfebc0010 b
                false false Hget Hops) as [E2 E4].
  rewrite E2, E4, Haddr, Hpriv.
  split; reflexivity.
Defined.

(** The size probe on the demonstration device: the guest writes all
    ones to the register of the mapped BAR 0; the base address then reads
    as the size-probe pattern and the BAR is unmapped. *)
Lemma demo_size_probe :
  exists s b,
    pci_config_write pci_regs quiet_xc zero_shifts
      (demo_state (log_ops false false) [], []) (demo_cfg 0x10) 4 0xffffffff
    = Some (s, [])
    /\ bar s !! 0%nat = Some b
    /\ le_load 4 (config s) 0x10 = 0xfffff008
    /\ bar_base pci_regs s 0 b = size_probe b
    /\ addr b = PCI_BAR_UNMAPPED pci_regs.
Proof.
  eexists _, _. split; [vm_compute; reflexivity|].
  split; [vm_compute; reflexivity|]. vm_compute. done.
Qed.

(** ** The two slips, at a concrete input *)

(** C3.  A 2-byte [pci_config_read] at offset 0xff of the device: the
    second byte lies past the end of the configuration space.  The value
    returned is 0x1fe00, with 0xfe in the lane of that byte and 0x01 in
    the lane above it, where the specification has 0xff and 0x00: the
    code shifts 0xff by [i + 8], the in-range branch shifts by [i * 8]. *)
Theorem pci_config_read_past_end :
  let s := demo_registered (mem_ops true true) (fun _ => 0) in
  u32 (Z.shiftr (u64 (demo_cfg 0xff)) 32) = bdf s
  /\ pci_config_read zero_shifts s (demo_cfg 0xff) 2 = 0x1fe00
  /\ byte_at (le_bytes 4 (pci_config_read zero_shifts s (demo_cfg 0xff) 2)) 1
     = 0xfe
  /\ byte_at (le_bytes 4 (pci_config_read zero_shifts s (demo_cfg 0xff) 2)) 2
     = 0x01.
Proof. vm_compute. done. Qed.

(** C4.  A 2-byte [pci_bar_write] of 0x1234 at offset 0x10 of a mapped
    BAR whose table has no 2-byte handler: the byte handler is called at
    the offsets 0x10 and 0x11, and both calls get 0, where the
    little-endian slices of the value are 0x34 and 0x12; the macro clears
    the value before the loop, so the same holds for every value and
    offset.  With the 2-byte handler in the table the value arrives. *)
Theorem pci_bar_write_decomposed_zero :
  (exists s,
      demo_mapped (log_ops false false) [] = Some (s, [])
      /\ pci_bar_write s [] 1 0xfebc0010 2 0x1234
         = Some [(1, 0x10, 0); (1, 0x11, 0)])
  /\ (exists s,
      demo_mapped (log_ops true true) [] = Some (s, [])
      /\ pci_bar_write s [] 1 0xfebc0010 2 0x1234 = Some [(2, 0x10, 0x1234)])
  /\ le_bytes 2 0x1234 = [0x34; 0x12]
  /\ (forall p a v,
      PCI_BAR_WRITE (arg 1 (log_write 1)) p a 1 2 v []
      = [(1, a, 0); (1, u64 (a + 1), 0)]).
Proof.
  split; [|split; [|split]].
  - eexists. split; [vm_compute; reflexivity|]. vm_compute. reflexivity.
  - eexists. split; [vm_compute; reflexivity|]. vm_compute. reflexivity.
  - reflexivity.
  - reflexivity.
Qed.

End PciFacts.

(** * Further facts about the transport shim *)

Module PciExtFacts.
Import Pci PciExt ByteFacts PciFacts.

Section MoreFacts.

Context {W : Type}.
Variable H : pci_h.
Variable xc : xenctrl W.
Variable ub : undefined_shifts.

Implicit Types (s : pci_t W) (w : W).

(** ** Bytes *)

Lemma Forall_memcpy (P : Z -> Prop) (a : list Z) (k : Z) (src : list Z) :
  Forall P a -> Forall P src -> Forall P (memcpy a k src).
Proof. intros Ha Hs. by apply Forall_inserts. Qed.

Lemma Forall_le_bytes n : forall v, Forall (fun c => 0 <= c < 256) (le_bytes n v).
Proof.
  induction n as [|n IH]; intros v; simpl; constructor.
  - apply u8_range.
  - apply IH.
Qed.

Lemma byte_at_lookup (a : list Z) (k : Z) :
  0 <= k < Z.of_nat (length a) -> a !! Z.to_nat k = Some (byte_at a k).
Proof.
  intros Hk. unfold byte_at.
  destruct (lookup_lt_is_Some_2 a (Z.to_nat k)) as [x ->]; [lia | done].
Qed.

Lemma byte_at_range (a : list Z) (k : Z) :
  Forall (fun c => 0 <= c < 256) a -> 0 <= byte_at a k < 256.
Proof.
  intros Ha. unfold byte_at.
  destruct (a !! Z.to_nat k) as [x|] eqn:E; simpl; [|lia].
  exact (Forall_lookup_1 (fun c => 0 <= c < 256) a _ x Ha E).
Qed.

(** The bits of the little-endian value of a byte string. *)
Lemma le_value_testbit (bs : list Z) : forall j,
  0 <= j ->
  Z.testbit (le_value bs) j =
  match bs !! Z.to_nat (j / 8) with
  | Some b => Z.testbit b (j mod 8)
  | None => false
  end.
Proof.
  induction bs as [|b bs IH]; intros j Hj.
  - simpl. by rewrite Z.bits_0.
  - cbn [le_value]. rewrite Z.lor_spec, Z.shiftl_spec by lia.
    destruct (Z.ltb_spec j 8).
    + rewrite u8_testbit by lia.
      rewrite (Z.testbit_neg_r _ (j - 8)) by lia.
      rewrite Z.div_small, Z.mod_small by lia. simpl. by rewrite orb_false_r.
    + unfold u8. rewrite Z.mod_pow2_bits_high by lia. simpl.
      rewrite IH by lia.
      replace (j / 8) with ((j - 8) / 8 + 1).
      2:{ replace j with ((j - 8) + 1 * 8) at 2 by lia.
          rewrite Z.div_add by lia. done. }
      replace (j mod 8) with ((j - 8) mod 8).
      2:{ replace j with ((j - 8) + 1 * 8) at 2 by lia.
          rewrite Z.mod_add by lia. done. }
      assert (0 <= (j - 8) / 8) by (apply Z.div_pos; lia).
      replace (Z.to_nat ((j - 8) / 8 + 1)) with (S (Z.to_nat ((j - 8) / 8)))
        by lia.
      done.
Qed.

Lemma le_load_testbit n (a : list Z) (k j : Z) :
  0 <= k -> k + Z.of_nat n <= Z.of_nat (length a) -> 0 <= j ->
  Z.testbit (le_load n a k) j =
  (j <? 8 * Z.of_nat n) && Z.testbit (byte_at a (k + j / 8)) (j mod 8).
Proof.
  intros Hk Hn Hj. unfold le_load. rewrite le_value_testbit by done.
  assert (0 <= j / 8) by (apply Z.div_pos; lia).
  rewrite lookup_take. case_decide as Hlt.
  - rewrite lookup_drop.
    assert (j < 8 * Z.of_nat n).
    { pose proof (Z.div_mod j 8). pose proof (Z.mod_pos_bound j 8). lia. }
    destruct (Z.ltb_spec j (8 * Z.of_nat n)); [|lia]. simpl.
    replace (Z.to_nat k + Z.to_nat (j / 8))%nat with (Z.to_nat (k + j / 8))
      by lia.
    rewrite byte_at_lookup; [done|]. lia.
  - destruct (Z.ltb_spec j (8 * Z.of_nat n)); [|done].
    exfalso. apply Hlt.
    assert (j / 8 < Z.of_nat n) by (apply Z.div_lt_upper_bound; lia). lia.
Qed.

Lemma le_load_ext n (a1 a2 : list Z) (k : Z) :
  0 <= k -> k + Z.of_nat n <= Z.of_nat (length a1) ->
  length a1 = length a2 ->
  (forall i, k <= i < k + Z.of_nat n -> byte_at a1 i = byte_at a2 i) ->
  le_load n a1 k = le_load n a2 k.
Proof.
  intros Hk Hn Hlen Hby. apply Z.bits_inj'. intros j Hj.
  rewrite !le_load_testbit by (try done; lia).
  destruct (Z.ltb_spec j (8 * Z.of_nat n)); [|done]. simpl.
  rewrite Hby; [done|].
  assert (0 <= j / 8) by (apply Z.div_pos; lia).
  assert (j / 8 < Z.of_nat n) by (apply Z.div_lt_upper_bound; lia). lia.
Qed.


Lemma le_load_step n (a : list Z) (k : Z) :
  0 <= k < Z.of_nat (length a) ->
  le_load (S n) a k
  = Z.lor (u8 (byte_at a k)) (Z.shiftl (le_load n a (k + 1)) 8).
Proof.
  intros Hk. unfold le_load.
  rewrite (drop_S a (byte_at a k) (Z.to_nat k)) by (by apply byte_at_lookup).
  replace (Z.to_nat (k + 1)) with (S (Z.to_nat k)) by lia. done.
Qed.

(** ** pci_bar_register *)

Lemma pci_bar_register_fail s index type order o p s' rc :
  pci_bar_register H ub s index type order o p = (s', rc) ->
  rc <> 0 -> s' = s /\ rc = -1.
Proof.
  unfold pci_bar_register. intros E Hrc.
  destruct (Z.of_nat PCI_NUM_BAR <=? u32 index); [by injection E as <- <-|].
  destruct (bar s !! Z.to_nat (u32 index)) as [b|]; [|by injection E as <- <-].
  destruct (negb (enable b =? 0)); [by injection E as <- <-|].
  destruct o as [t|]; [|by injection E as <- <-].
  destruct (is_null (readb t) || is_null (writeb t));
    injection E as <- <-; done.
Qed.

Lemma pci_bar_register_ok s index type order o p s' :
  pci_bar_register H ub s index type order o p = (s', 0) ->
  exists b t,
    u32 index < Z.of_nat PCI_NUM_BAR
    /\ bar s !! Z.to_nat (u32 index) = Some b /\ enable b = 0
    /\ o = Some t /\ is_null (readb t) = false /\ is_null (writeb t) = false
    /\ config s'
       = memcpy (config s) (PCI_BASE_ADDRESS_0 + u32 index * 4)
           (le_bytes 4 (u8 type))
    /\ bdf s' = bdf s
    /\ bar s'
       = <[Z.to_nat (u32 index) :=
             {| ops := Some t;
                is_mmio := if Z.land (u8 type) (PCI_BASE_ADDRESS_SPACE_IO H) =? 0
                           then 1 else 0;
                enable := 1;
                addr := PCI_BAR_UNMAPPED H;
                size := shl32 ub 1 (u32 order);
                priv := p |}]> (bar s).
Proof.
  unfold pci_bar_register. intros E.
  destruct (Z.leb_spec (Z.of_nat PCI_NUM_BAR) (u32 index)); [done|].
  destruct (bar s !! Z.to_nat (u32 index)) as [b|] eqn:Hb; [|done].
  destruct (Z.eqb_spec (enable b) 0) as [He|]; [|done]. simpl in E.
  destruct o as [t|]; [|done].
  destruct (is_null (readb t)) eqn:Hr; [done|].
  destruct (is_null (writeb t)) eqn:Hw; [done|].
  simpl in E. injection E as <-. exists b, t. repeat split; done.
Qed.

(** ** What holds in every reachable state *)

Lemma config_write_loop_bytes n : forall i a v s,
  Forall (fun c => 0 <= c < 256) (config s) ->
  Forall (fun c => 0 <= c < 256) (config (config_write_loop ub n i a v s)).
Proof.
  induction n as [|n IH]; intros i a v s Hs; simpl; [done|].
  apply IH. destruct (u64 (a + i) <? PCI_CONFIG_SIZE); [|done].
  unfold config_write_byte; simpl. apply Forall_insert; [done | apply u8_range].
Qed.

Lemma pci_update_config_inv s0 w s' w' :
  bars_ok s0 ->
  pci_update_config H xc (s0, w) = Some (s', w') ->
  config s' = config s0 /\ bdf s' = bdf s0
  /\ length (bar s') = length (bar s0)
  /\ forall j b, bar s0 !! j = Some b -> bar s' !! j = Some (retarget H s0 j b).
Proof.
  intros Hok E.
  destruct (pci_update_config_spec H xc s0 w Hok)
    as (s1 & w1 & E1 & Hc & _ & Hd & Hok1 & Hb).
  rewrite E1 in E. injection E as <- <-. repeat split; try done.
  destruct Hok as [-> _]. by destruct Hok1 as [-> _].
Qed.

Lemma tidy_updated s0 s' :
  tidy s0 ->
  config s' = config s0 -> bdf s' = bdf s0 ->
  length (bar s') = length (bar s0) ->
  (forall j b, bar s0 !! j = Some b -> bar s' !! j = Some (retarget H s0 j b)) ->
  tidy s'.
Proof.
  intros (Hc & Hd & Hb) Ec Ed El Eb. unfold tidy. rewrite Ec, Ed.
  split; [done|]. split; [done|].
  intros j b' Hj.
  destruct (lookup_lt_is_Some_2 (bar s0) j) as [b0 Hb0].
  { rewrite <- El. by eapply lookup_lt_Some. }
  rewrite (Eb j b0 Hb0) in Hj. injection Hj as <-.
  destruct (retarget_fields H s0 j b0) as (E1 & E2 & _ & E4 & _).
  rewrite E1, E2, E4. destruct (Hb j b0 Hb0) as [Hoff Hon].
  split; [|done].
  intros He. unfold retarget.
  destruct (Z.eqb_spec (enable b0) 0); [|done]. by apply Hoff.
Qed.

Ltac bytes :=
  repeat first
    [ apply Forall_memcpy
    | apply Forall_le_bytes
    | apply Forall_replicate; lia
    | apply Forall_cons; split; [apply u8_range|]
    | apply Forall_nil_2 ].

Lemma pci0_tidy : tidy (pci0 (W := W)).
Proof.
  split; [|split]; [by apply Forall_replicate | done |].
  intros j b Hj.
  change (bar pci0) with (replicate PCI_NUM_BAR (bar0 (W := W))) in Hj.
  apply lookup_replicate in Hj as [-> _]. done.
Qed.

Lemma pci_device_register_tidy s0 w x d i info s w' rc :
  tidy s0 ->
  pci_device_register H xc (s0, w) x d i info = (s, w', rc) ->
  tidy s.
Proof.
  intros (Hc & Hd & Hb) E. unfold pci_device_register in E.
  destruct (_ || _).
  { injection E as <- _ _. by split. }
  destruct (xc_hvm_map_pcidev_to_ioreq_server _ _ _ _ _ _ _ _ _) as [r w1].
  destruct (r <? 0); injection E as <- _ _.
  all: split; [|split]; [|apply Z.mod_pos_bound; lia|done].
  all: cbn [set_mask set_config set_bdf set_handle config];
    unfold register_config; bytes; done.
Qed.

Lemma reachable_tidy s : reachable H xc ub s -> tidy s.
Proof.
  induction 1 as [w x d i info s w' rc E
                 | s index type order o p s' Hr IH E
                 | s w a sz v s' w' Hr IH E
                 | s w data s' w' Hr IH E].
  - eapply pci_device_register_tidy; [apply pci0_tidy | exact E].
  - destruct IH as (Hc & Hd & Hb).
    destruct (pci_bar_register_ok _ _ _ _ _ _ _ E)
      as (b & t & Hi & Hbi & He & -> & Hrd & Hwr & Ec & Ed & Eb).
    unfold tidy. rewrite Ec, Ed, Eb. split; [bytes; done|]. split; [done|].
    intros j q Hj.
    destruct (decide (Z.to_nat (u32 index) = j)) as [<-|Hne].
    + rewrite list_lookup_insert_eq in Hj by (by eapply lookup_lt_Some).
      injection Hj as <-. simpl. split; [done|]. intros _. split.
      * unfold shl32. destruct (_ <? 32); apply u32_range.
      * by exists t.
    + rewrite list_lookup_insert_ne in Hj by done. by apply (Hb j q).
  - destruct (reachable_shape H xc ub s Hr) as (_ & _ & Hok).
    destruct (Z.eq_dec (u16 (Z.shiftr (u64 a) 32)) (bdf s)) as [Hd|Hd].
    + unfold pci_config_write in E. rewrite Hd, Z.eqb_refl in E. simpl in E.
      set (s0 := config_write_loop ub _ _ _ _ s) in E.
      destruct (config_write_loop_other ub (Z.to_nat (Z.land (u64 sz) 0xffff)) 0
                  (u64 (Z.land (u64 a) 0xff + Z.shiftr (u64 sz) 16)) (u32 v) s)
        as (_ & Hb0 & Hd0 & _). fold s0 in Hb0, Hd0.
      assert (Hok0 : bars_ok s0).
      { destruct Hok as [? ?]. split; rewrite Hb0; done. }
      destruct (pci_update_config_inv s0 w s' w' Hok0 E) as (Ec & Ed & El & Eb).
      apply (tidy_updated s0); try done.
      destruct IH as (Hc & Hdd & Hb). unfold tidy. rewrite Hb0, Hd0.
      split; [|done]. by apply config_write_loop_bytes.
    + rewrite pci_config_write_other_bdf in E by done. by injection E as <- <-.
  - destruct (reachable_shape H xc ub s Hr) as (_ & _ & Hok).
    unfold pci_config_resume in E.
    set (s0 := set_config s _) in E.
    assert (Hok0 : bars_ok s0) by done.
    destruct (pci_update_config_inv s0 w s' w' Hok0 E) as (Ec & Ed & El & Eb).
    apply (tidy_updated s0); try done.
    destruct IH as (Hc & Hdd & Hb). split; [|done].
    subst s0. cbn [set_config config]. apply Forall_memcpy; [done|].
    apply Forall_map. apply Forall_forall. intros c _. apply u8_range.
Qed.

(** ** An update that finds every BAR in place *)

Lemma update_loop_fixed n : forall i s w,
  bars_at_target H s -> (i + n <= length (bar s))%nat ->
  update_loop H xc n i (s, w) = Some (s, w).
Proof.
  induction n as [|n IH]; intros i s w Ht Hn; [done|].
  cbn [update_loop].
  destruct (lookup_lt_is_Some_2 (bar s) i) as [b Hb]; [lia|].
  assert (E : pci_update_bar H xc i (s, w) = Some (s, w)).
  { unfold pci_update_bar. rewrite Hb. simpl.
    destruct (Z.eqb_spec (enable b) 0); [done|].
    rewrite <- (Ht i b Hb) by done. by rewrite Z.eqb_refl. }
  rewrite E. simpl. apply IH; [done | lia].
Qed.

Lemma pci_update_config_fixed s w :
  bars_ok s -> bars_at_target H s ->
  pci_update_config H xc (s, w) = Some (s, w).
Proof.
  intros [Hlen _] Ht. apply update_loop_fixed; [done|]. rewrite Hlen. done.
Qed.

Lemma bar_target_base s index b :
  bar_target H s index b <> PCI_BAR_UNMAPPED H ->
  bar_target H s index b = bar_base H s index b.
Proof.
  unfold bar_target, bar_base.
  destruct (_ && _ || _ && _).
  { by destruct (_ || _). }
  match goal with |- context [(?x =? 0) || (?x =? ?m)] =>
    destruct ((x =? 0) || (x =? m)) end; [done|].
  intros _. by destruct (is_mmio b =? 0).
Qed.

(** ** pci_bar_get *)

Lemma bar_get_loop_cons (b : pci_bar_t W) rest mmio a :
  bar_get_loop (b :: rest) mmio a
  = if claims b mmio a then Some b else bar_get_loop rest mmio a.
Proof.
  cbn [bar_get_loop]. unfold claims.
  destruct (enable b =? 0), (is_mmio b =? mmio), (addr b <=? a),
    (a <? u32 (addr b + size b)); reflexivity.
Qed.

Lemma bar_get_loop_spec (bars : list (pci_bar_t W)) mmio a :
  match bar_get_loop bars mmio a with
  | Some b =>
      exists i, bars !! i = Some b /\ claims b mmio a = true
                /\ forall j b', (j < i)%nat -> bars !! j = Some b' ->
                     claims b' mmio a = false
  | None => forall i b, bars !! i = Some b -> claims b mmio a = false
  end.
Proof.
  induction bars as [|b rest IH].
  - simpl. by intros i b.
  - rewrite bar_get_loop_cons. destruct (claims b mmio a) eqn:Hc.
    + exists 0%nat. repeat split; try done. intros j b' Hj. lia.
    + destruct (bar_get_loop rest mmio a) as [r|].
      * destruct IH as (i & Hi & Hr & Hfirst).
        exists (S i). repeat split; try done.
        intros [|j] b' Hj Hb'; [by injection Hb' as <-|].
        apply (Hfirst j); [lia | done].
      * intros [|i] q Hq; [by injection Hq as <-|]. by apply (IH i).
Qed.

(** X1.  [pci_bar_get] returns the first BAR, in the order of the
    indices 0 to 5, that is enabled, of the address space asked for, and
    whose window from [addr] to [addr + size] (in 32 bits) holds the
    address; it returns NULL exactly when no BAR is such. *)
Theorem pci_bar_get_first_claim s mmio a :
  match pci_bar_get s mmio a with
  | Some b =>
      exists i, (i < PCI_NUM_BAR)%nat /\ bar s !! i = Some b
                /\ claims b mmio a = true
                /\ forall j b', (j < i)%nat -> bar s !! j = Some b' ->
                     claims b' mmio a = false
  | None =>
      forall i b, (i < PCI_NUM_BAR)%nat -> bar s !! i = Some b ->
        claims b mmio a = false
  end.
Proof.
  unfold pci_bar_get.
  pose proof (bar_get_loop_spec (take PCI_NUM_BAR (bar s)) mmio a) as Hs.
  destruct (bar_get_loop (take PCI_NUM_BAR (bar s)) mmio a) as [b|].
  - destruct Hs as (i & Hi & Hc & Hfirst).
    rewrite lookup_take in Hi. case_decide; [|done].
    exists i. repeat split; try done.
    intros j b' Hj Hb'. apply (Hfirst j); [done|].
    rewrite lookup_take. case_decide; [done | lia].
  - intros i b Hi Hb. apply (Hs i).
    rewrite lookup_take. case_decide; [done | lia].
Qed.

Lemma pci_bar_get_Some s mmio a b :
  pci_bar_get s mmio a = Some b ->
  exists i, bar s !! i = Some b /\ claims b mmio a = true.
Proof.
  unfold pci_bar_get. intros E.
  pose proof (bar_get_loop_spec (take PCI_NUM_BAR (bar s)) mmio a) as Hs.
  rewrite E in Hs. destruct Hs as (i & Hi & Hc & _).
  rewrite lookup_take in Hi. case_decide; [|done]. by exists i.
Qed.

Lemma claims_true (b : pci_bar_t W) mmio a :
  claims b mmio a = true ->
  enable b <> 0 /\ is_mmio b = mmio
  /\ addr b <= a < u32 (addr b + size b).
Proof.
  unfold claims. intros Hc.
  apply andb_prop in Hc as [Hc H4]. apply andb_prop in Hc as [Hc H3].
  apply andb_prop in Hc as [H1 H2].
  apply negb_true_iff, Z.eqb_neq in H1. apply Z.eqb_eq in H2.
  apply Z.leb_le in H3. apply Z.ltb_lt in H4. done.
Qed.

(** The window of a BAR at 0xffffffff holds no address. *)
Lemma unmapped_window_empty (sz a : Z) :
  0 <= sz < 2 ^ 32 -> ~ (0xffffffff <= a < u32 (0xffffffff + sz)).
Proof.
  intros Hsz [Hlo Hhi]. unfold u32 in Hhi.
  destruct (Z.eq_dec sz 0) as [->|Hne].
  - rewrite Z.mod_small in Hhi by lia. lia.
  - replace (0xffffffff + sz) with ((sz - 1) + 1 * 2 ^ 32) in Hhi by lia.
    rewrite Z.mod_add, Z.mod_small in Hhi by lia. lia.
Qed.

(** X2.  In a reachable state [pci_bar_get] returns only a BAR that is
    mapped: the enable bit of its address space is set in the COMMAND
    register, and its window starts at the base address that its BAR
    register holds.  A BAR that is not mapped has [addr] 0xffffffff, and
    no address is inside the window the code computes for it. *)
Theorem pci_bar_get_decoded s mmio a b :
  PCI_BAR_UNMAPPED H = 0xffffffff ->
  unmapped_is_no_base H ->
  reachable H xc ub s ->
  pci_bar_get s mmio a = Some b ->
  exists i,
    bar s !! i = Some b
    /\ mapped H b
    /\ space_enabled H s b
    /\ addr b = bar_base H s i b
    /\ bar_base H s i b <= a < u32 (bar_base H s i b + size b).
Proof.
  intros HU Hnb Hr Hget.
  destruct (pci_bar_get_Some s mmio a b Hget) as (i & Hi & Hc).
  apply claims_true in Hc as (He & _ & Hin).
  destruct (reachable_tidy s Hr) as (_ & _ & Hb).
  destruct (Hb i b Hi) as [_ Hon]. destruct (Hon He) as [Hsz _].
  assert (Hm : addr b <> PCI_BAR_UNMAPPED H).
  { intros Eu. rewrite HU in Eu. rewrite Eu in Hin.
    by apply (unmapped_window_empty (size b) a). }
  destruct (reachable_mapped_at_target H xc ub s Hr i b Hi He) as [Eu|Ht];
    [done|].
  rewrite Ht in Hm.
  pose proof (proj1 (bar_target_mapped H s i b Hnb) Hm) as (Hen & _ & _).
  pose proof (bar_target_base s i b Hm) as Eb.
  exists i. unfold mapped. rewrite <- Eb, <- Ht.
  repeat split; try done; try lia.
Qed.

(** ** pci_bar_read and pci_bar_write *)

(** X3.  In a reachable state a BAR access never goes through a null
    handler: [pci_bar_read] and [pci_bar_write] return exactly when a BAR
    claims the address and the size is 1, 2 or 4; otherwise an [assert]
    fails.  The test of [readb] and [writeb] in [pci_bar_register] is
    what the decomposition of an access into narrower ones relies on. *)
Theorem pci_bar_access_returns s w mmio a sz v :
  reachable H xc ub s ->
  (is_Some (pci_bar_read s w mmio a sz)
   <-> is_Some (pci_bar_get s mmio (u64 a))
       /\ (u64 sz = 1 \/ u64 sz = 2 \/ u64 sz = 4))
  /\ (is_Some (pci_bar_write s w mmio a sz v)
      <-> is_Some (pci_bar_get s mmio (u64 a))
          /\ (u64 sz = 1 \/ u64 sz = 2 \/ u64 sz = 4)).
Proof.
  intros Hr. unfold pci_bar_read, pci_bar_write.
  destruct (pci_bar_get s mmio (u64 a)) as [b|] eqn:Hget.
  2:{ simpl. split; split; intros [[? ?] ?] || intros [? ?]; done. }
  destruct (pci_bar_get_Some s mmio (u64 a) b Hget) as (i & Hi & Hc).
  apply claims_true in Hc as (He & _ & _).
  destruct (reachable_tidy s Hr) as (_ & _ & Hb).
  destruct (Hb i b Hi) as [_ Hon].
  destruct (Hon He) as (_ & t & Ho & Hrd & Hwr).
  simpl. rewrite Ho. simpl.
  destruct (readb t) as [f|]; [clear Hrd | done].
  destruct (writeb t) as [g|]; [clear Hwr | done].
  destruct (Z.eqb_spec (u64 sz) 1) as [->|H1].
  { split; (split; [intros _; split; [done | by left] | done]). }
  destruct (Z.eqb_spec (u64 sz) 2) as [->|H2].
  { split; (split; [intros _; split; [done | by right; left]|]).
    - by destruct (readw t).
    - by destruct (writew t). }
  destruct (Z.eqb_spec (u64 sz) 4) as [->|H4].
  { split; (split; [intros _; split; [done | by right; right]|]).
    - by destruct (readl t), (readw t).
    - by destruct (writel t), (writew t). }
  split; (split; [by intros [? ?] | intros [_ [?|[?|?]]]; done]).
Qed.

(** X4.  The offset a handler gets is inside the BAR.  In a reachable
    state, for an address that [pci_bar_get] finds in a BAR, the relative
    address that [pci_bar_read] and [pci_bar_write] compute is the
    distance from the base of the BAR and is below its size; a 1-byte
    access is one call of the byte handler at that offset, with the
    [priv] pointer of the BAR. *)
Theorem pci_bar_offset_inside s w mmio a b :
  PCI_BAR_UNMAPPED H = 0xffffffff ->
  unmapped_is_no_base H ->
  reachable H xc ub s ->
  pci_bar_get s mmio (u64 a) = Some b ->
  let rel := u64 (u64 a - addr b) in
  0 <= rel < size b
  /\ u64 a = addr b + rel
  /\ exists o f g,
       ops b = Some o /\ readb o = Some f /\ writeb o = Some g
       /\ pci_bar_read s w mmio a 1 = Some (ret 1 f (priv b) rel w)
       /\ forall v,
            pci_bar_write s w mmio a 1 v
            = Some (arg 1 g (priv b) rel (u32 v) w).
Proof.
  intros HU Hnb Hr Hget rel.
  destruct (pci_bar_get_Some s mmio (u64 a) b Hget) as (i & Hi & Hc).
  apply claims_true in Hc as (He & _ & Hin).
  destruct (reachable_tidy s Hr) as (_ & _ & Hb).
  destruct (Hb i b Hi) as [_ Hon].
  destruct (Hon He) as (Hsz & t & Ho & Hrd & Hwr).
  assert (Hm : addr b <> PCI_BAR_UNMAPPED H).
  { intros Eu. rewrite HU in Eu. rewrite Eu in Hin.
    by apply (unmapped_window_empty (size b) (u64 a)). }
  destruct (reachable_mapped_at_target H xc ub s Hr i b Hi He) as [Eu|Ht];
    [done|].
  assert (Ha : 0 <= addr b).
  { rewrite Ht in Hm. rewrite Ht, (bar_target_base s i b Hm).
    apply u32_range. }
  assert (Hw : u32 (addr b + size b) <= addr b + size b).
  { unfold u32. apply Z.mod_le; lia. }
  pose proof (u64_range a) as Hu.
  assert (Erel : rel = u64 a - addr b).
  { subst rel. apply u64_small. lia. }
  split; [lia|]. split; [lia|].
  destruct (readb t) as [f|] eqn:Ef; [|done].
  destruct (writeb t) as [g|] eqn:Eg; [|done].
  exists t, f, g. repeat split; try done.
  - unfold pci_bar_read. rewrite Hget. simpl. rewrite Ho. simpl.
    by rewrite Ef.
  - intros v. unfold pci_bar_write. rewrite Hget. simpl. rewrite Ho. simpl.
    by rewrite Eg.
Qed.

(** ** What no later call changes *)

Lemma bars_moved_refl s : bars_moved s s.
Proof. intros j r Hj. exists (addr r). by rewrite set_addr_same. Qed.

Lemma bars_moved_trans s1 s2 s3 :
  bars_moved s1 s2 -> bars_moved s2 s3 -> bars_moved s1 s3.
Proof.
  intros H12 H23 j r Hj. destruct (H12 j r Hj) as [a Ha].
  destruct (H23 _ _ Ha) as [a' Ha']. exists a'. by rewrite Ha'.
Qed.

Lemma bars_moved_set_bar s index (b : pci_bar_t W) a :
  bar s !! index = Some b -> bars_moved s (set_bar s index (set_addr b a)).
Proof.
  intros Hb j r Hj. cbn [set_bar bar].
  destruct (decide (index = j)) as [->|Hne].
  - rewrite list_lookup_insert_eq by (by eapply lookup_lt_Some).
    exists a. congruence.
  - rewrite list_lookup_insert_ne by done.
    exists (addr r). by rewrite set_addr_same.
Qed.

Lemma pci_update_bar_moved index s w s' w' :
  pci_update_bar H xc index (s, w) = Some (s', w') ->
  bdf s' = bdf s /\ bars_moved s s'.
Proof.
  unfold pci_update_bar.
  destruct (bar s !! index) as [b|] eqn:Hb; [|done]. simpl.
  destruct (enable b =? 0).
  { intros [= <- <-]. split; [done | apply bars_moved_refl]. }
  destruct (addr b =? bar_target H s index b).
  { intros [= <- <-]. split; [done | apply bars_moved_refl]. }
  set (t := bar_target H s index b).
  assert (Hu : bars_moved s (set_bar s index (set_addr b (PCI_BAR_UNMAPPED H))))
    by (by apply bars_moved_set_bar).
  assert (Ht : bars_moved s (set_bar s index (set_addr b t)))
    by (by apply bars_moved_set_bar).
  destruct (negb (addr b =? PCI_BAR_UNMAPPED H)); simpl.
  - destruct (pci_unmap_bar xc index s w) as [w1|]; [|done]. simpl.
    destruct (negb (t =? PCI_BAR_UNMAPPED H)); simpl.
    + destruct (pci_map_bar xc index _ w1) as [w2|]; [|done]. simpl.
      intros [= <- <-]. split; [done|].
      intros j r Hj. cbn [set_bar bar]. rewrite list_insert_insert_eq.
      apply (Ht j r Hj).
    + by intros [= <- <-].
  - destruct (negb (t =? PCI_BAR_UNMAPPED H)); simpl.
    + destruct (pci_map_bar xc index _ w) as [w2|]; [|done]. simpl.
      by intros [= <- <-].
    + intros [= <- <-]. split; [done | apply bars_moved_refl].
Qed.

Lemma update_loop_moved n : forall i s w s' w',
  update_loop H xc n i (s, w) = Some (s', w') ->
  bdf s' = bdf s /\ bars_moved s s'.
Proof.
  induction n as [|n IH]; intros i s w s' w' E.
  - injection E as <- <-. split; [done | apply bars_moved_refl].
  - cbn [update_loop] in E.
    destruct (pci_update_bar H xc i (s, w)) as [[s1 w1]|] eqn:E1; [|done].
    simpl in E. destruct (pci_update_bar_moved _ _ _ _ _ E1) as [Hd1 Hm1].
    destruct (IH _ _ _ _ _ E) as [Hd2 Hm2].
    split; [congruence | by eapply bars_moved_trans].
Qed.

Lemma pci_config_write_moved s w a sz v s' w' :
  pci_config_write H xc ub (s, w) a sz v = Some (s', w') ->
  bdf s' = bdf s /\ bars_moved s s'.
Proof.
  unfold pci_config_write.
  destruct (negb _).
  { intros [= <- <-]. split; [done | apply bars_moved_refl]. }
  intros E. apply update_loop_moved in E as [Hd Hm].
  destruct (config_write_loop_other ub (Z.to_nat (Z.land (u64 sz) 0xffff)) 0
              (u64 (Z.land (u64 a) 0xff + Z.shiftr (u64 sz) 16)) (u32 v) s)
    as (_ & Hb0 & Hd0 & _).
  split; [congruence|]. intros j r Hj. rewrite <- Hb0 in Hj. by apply Hm.
Qed.

Lemma pci_config_resume_moved s w data s' w' :
  pci_config_resume H xc (s, w) data = Some (s', w') ->
  bdf s' = bdf s /\ bars_moved s s'.
Proof.
  unfold pci_config_resume. intros E.
  by apply update_loop_moved in E as [Hd Hm].
Qed.

(** Along [later], the device keeps its BDF and every BAR that is
    enabled keeps what its registration set. *)
Lemma later_kept s s' :
  later H xc ub s s' ->
  bdf s' = bdf s
  /\ forall j r, bar s !! j = Some r -> enable r <> 0 ->
       exists a, bar s' !! j = Some (set_addr r a).
Proof.
  induction 1 as [| s1 index type order o p s2 rc _ [IHd IH] E
                  | s1 w a sz v s2 w2 _ [IHd IH] E
                  | s1 w data s2 w2 _ [IHd IH] E].
  - split; [done|]. intros j r Hj _. exists (addr r). by rewrite set_addr_same.
  - destruct (Z.eq_dec rc 0) as [->|Hrc].
    + destruct (pci_bar_register_ok _ _ _ _ _ _ _ E)
        as (b & t & _ & Hb & He & _ & _ & _ & _ & Ed & Eb).
      split; [congruence|]. intros j r Hj Hr.
      destruct (IH j r Hj Hr) as [a0 Ha]. exists a0. rewrite Eb.
      rewrite list_lookup_insert_ne; [done|].
      intros <-. rewrite Hb in Ha. injection Ha as ->. done.
    + destruct (pci_bar_register_fail _ _ _ _ _ _ _ _ E Hrc) as [-> _]. done.
  - destruct (pci_config_write_moved _ _ _ _ _ _ _ E) as [Hd Hm].
    split; [congruence|]. intros j r Hj Hr.
    destruct (IH j r Hj Hr) as [a0 Ha]. destruct (Hm _ _ Ha) as [a1 Ha1].
    by exists a1.
  - destruct (pci_config_resume_moved _ _ _ _ _ E) as [Hd Hm].
    split; [congruence|]. intros j r Hj Hr.
    destruct (IH j r Hj Hr) as [a0 Ha]. destruct (Hm _ _ Ha) as [a1 Ha1].
    by exists a1.
Qed.

(** X5.  A BAR index is registered once: after [pci_bar_register] has
    accepted an index, every later call for that index fails with -1 and
    changes nothing, whatever it passes and whatever configuration
    writes, resumes and other registrations have come in between.
    [pci_bar_deregister] does not clear [enable], so it does not free the
    index either. *)
Theorem pci_bar_register_once s index type order o p s1 s2 :
  pci_bar_register H ub s index type order o p = (s1, 0) ->
  later H xc ub s1 s2 ->
  forall type' order' o' p',
    pci_bar_register H ub s2 index type' order' o' p' = (s2, -1).
Proof.
  intros E Hl type' order' o' p'.
  destruct (pci_bar_register_ok _ _ _ _ _ _ _ E)
    as (b & t & Hi & Hb & _ & _ & _ & _ & _ & _ & Eb).
  destruct (later_kept s1 s2 Hl) as [_ Hk].
  edestruct (Hk (Z.to_nat (u32 index))) as [a0 Ha].
  { rewrite Eb. apply list_lookup_insert_eq. by eapply lookup_lt_Some. }
  { done. }
  unfold pci_bar_register.
  destruct (Z.leb_spec (Z.of_nat PCI_NUM_BAR) (u32 index)); [lia|].
  by rewrite Ha.
Qed.

(** X6.  What a registration has set is out of the guest's reach: along
    any sequence of configuration writes, resumes and further
    registrations the device keeps its BDF, and an enabled BAR keeps its
    handler table, its [priv] pointer, its address space and its size and
    stays enabled; only its [addr] moves. *)
Theorem registration_kept s s' j r :
  later H xc ub s s' ->
  bar s !! j = Some r -> enable r <> 0 ->
  bdf s' = bdf s
  /\ exists r',
       bar s' !! j = Some r'
       /\ ops r' = ops r /\ priv r' = priv r
       /\ is_mmio r' = is_mmio r /\ size r' = size r
       /\ enable r' = enable r.
Proof.
  intros Hl Hj Hr. destruct (later_kept s s' Hl) as [Hd Hk].
  split; [done|]. destruct (Hk j r Hj Hr) as [a0 Ha].
  by exists (set_addr r a0).
Qed.

(** ** pci_device_register and pci_device_deregister *)

Lemma testbit_small (x n i : Z) :
  0 <= x < 2 ^ n -> 0 <= n <= i -> Z.testbit x i = false.
Proof.
  intros Hx Hi. rewrite <- (Z.mod_small x (2 ^ n)) by done.
  apply Z.mod_pow2_bits_high. lia.
Qed.

(** [x & ~(2^n - 1)] is zero exactly for the values of [n] bits. *)
Lemma land_lnot_ones (x n : Z) :
  0 <= n -> Z.land x (Z.lnot (Z.ones n)) = 0 <-> 0 <= x < 2 ^ n.
Proof.
  intros Hn. split.
  - intros E. assert (Hx : x = x mod 2 ^ n).
    { apply Z.bits_inj'. intros i Hi.
      destruct (Z.ltb_spec i n).
      - by rewrite Z.mod_pow2_bits_low.
      - rewrite Z.mod_pow2_bits_high by lia.
        apply (f_equal (fun z => Z.testbit z i)) in E.
        rewrite Z.land_spec, Z.lnot_spec, Z.ones_spec_high, Z.bits_0 in E
          by lia.
        simpl in E. by rewrite andb_true_r in E. }
    rewrite Hx. apply Z.mod_pos_bound. by apply Z.pow_pos_nonneg.
  - intros Hx. apply Z.bits_inj'. intros i Hi.
    rewrite Z.land_spec, Z.lnot_spec, Z.bits_0 by lia.
    destruct (Z.ltb_spec i n).
    + rewrite Z.ones_spec_low by lia. apply andb_false_r.
    + by rewrite (testbit_small x n i).
Qed.

Lemma lor_shiftl_add (hi lo n : Z) :
  0 <= n -> 0 <= lo < 2 ^ n -> Z.lor (Z.shiftl hi n) lo = hi * 2 ^ n + lo.
Proof.
  intros Hn Hlo. rewrite <- Z.shiftl_mul_pow2 by done.
  assert (Hd : Z.land (Z.shiftl hi n) lo = 0).
  { apply Z.bits_inj'. intros i Hi. rewrite Z.land_spec, Z.bits_0.
    destruct (Z.ltb_spec i n).
    - by rewrite Z.shiftl_spec_low.
    - rewrite (testbit_small lo n i) by lia. apply andb_false_r. }
  rewrite Z.add_nocarry_lxor by done. symmetry. by apply Z.lxor_lor.
Qed.

Lemma in_range_test (info : pci_info_t) :
  negb (Z.land (bus info) (Z.lnot 0xff) =? 0)
  || negb (Z.land (device info) (Z.lnot 0x1f) =? 0)
  || negb (Z.land (function info) (Z.lnot 0x07) =? 0) = false
  <-> in_range info.
Proof.
  change 0xff with (Z.ones 8). change 0x1f with (Z.ones 5).
  change 0x07 with (Z.ones 3). unfold in_range.
  rewrite <- (land_lnot_ones (bus info) 8), <- (land_lnot_ones (device info) 5),
    <- (land_lnot_ones (function info) 3) by lia.
  destruct (Z.eqb_spec (Z.land (bus info) (Z.lnot (Z.ones 8))) 0),
    (Z.eqb_spec (Z.land (device info) (Z.lnot (Z.ones 5))) 0),
    (Z.eqb_spec (Z.land (function info) (Z.lnot (Z.ones 3))) 0);
    simpl; split; try done; tauto.
Qed.

Lemma bdf_value (info : pci_info_t) :
  in_range info ->
  u16 (Z.lor (Z.lor (Z.shiftl (bus info) 8) (Z.shiftl (device info) 3))
         (function info))
  = bus info * 256 + device info * 8 + function info.
Proof.
  intros (Hb & Hd & Hf).
  replace (Z.shiftl (bus info) 8) with (Z.shiftl (Z.shiftl (bus info) 5) 3)
    by (rewrite Z.shiftl_shiftl by lia; done).
  rewrite <- Z.shiftl_lor.
  rewrite (lor_shiftl_add (bus info) (device info) 5) by lia.
  rewrite lor_shiftl_add by lia.
  unfold u16. rewrite Z.mod_small; lia.
Qed.

(** X7.  The three outcomes of [pci_device_register].  Bus, device or
    function out of range (above 255, 31 or 7): -1, and apart from the
    three handles nothing is written and the hypervisor is not called.
    In range and the hypervisor accepts: 0, and the BDF is
    [bus * 256 + device * 8 + function].  In range and the hypervisor
    refuses: -1, with the configuration space, mask and BDF already
    written. *)
Theorem pci_device_register_outcomes s0 w x d i info s w' rc :
  pci_device_register H xc (s0, w) x d i info = (s, w', rc) ->
  let call := xc_hvm_map_pcidev_to_ioreq_server xc x d i 0
                (bus info) (device info) (function info) w in
  (~ in_range info /\ rc = -1 /\ w' = w /\ s = set_handle s0 x d i)
  \/ (in_range info /\ w' = call.2
      /\ rc = (if call.1 <? 0 then -1 else 0)
      /\ bdf s = bus info * 256 + device info * 8 + function info
      /\ config s = register_config H info (config s0)
      /\ mask s = register_mask H (mask s0)).
Proof.
  intros E call. unfold pci_device_register in E.
  destruct (_ || _) eqn:Ht.
  - left. injection E as <- <- <-. repeat split; try done.
    intros Hr. apply in_range_test in Hr. congruence.
  - right. apply in_range_test in Ht. fold call in E.
    destruct call as [r w1]. simpl.
    destruct (r <? 0); injection E as <- <- <-;
      cbn [set_mask set_config set_bdf set_handle bdf config mask];
      by rewrite bdf_value.
Qed.

(** X8.  [pci_device_deregister] names to the hypervisor the PCI
    function that [pci_device_register] named: the bus, device and
    function numbers it takes out of [pci.bdf] are those of the [info]
    the device was registered with. *)
Theorem pci_device_deregister_same_function
    (unmap_pcidev : Z -> Z -> Z -> Z -> Z -> Z -> Z -> W -> Z * W)
    s0 w x d i info s w' w2 :
  pci_device_register H xc (s0, w) x d i info = (s, w', 0) ->
  pci_device_deregister unmap_pcidev s w2
  = (unmap_pcidev x d i 0 (bus info) (device info) (function info) w2).2.
Proof.
  unfold pci_device_register. intros E.
  destruct (_ || _) eqn:Ht; [done|]. apply in_range_test in Ht.
  destruct (xc_hvm_map_pcidev_to_ioreq_server _ _ _ _ _ _ _ _ _) as [r w1].
  destruct (r <? 0); [done|]. injection E as <- _.
  unfold pci_device_deregister.
  cbn [set_mask set_config set_bdf set_handle bdf xch domid ioservid].
  rewrite bdf_value by done. destruct Ht as (Hb & Hd & Hf).
  change 0xff with (Z.ones 8). change 0x1f with (Z.ones 5).
  change 0x07 with (Z.ones 3).
  rewrite !Z.land_ones, !Z.shiftr_div_pow2 by lia. unfold u8.
  set (v := bus info * 256 + device info * 8 + function info).
  assert (E8 : (v / 2 ^ 8) mod 2 ^ 8 = bus info).
  { subst v. change (2 ^ 8) with 256. Z.to_euclidean_division_equations. lia. }
  assert (E5 : (v / 2 ^ 3) mod 2 ^ 5 = device info).
  { subst v. change (2 ^ 3) with 8. change (2 ^ 5) with 32.
    Z.to_euclidean_division_equations. lia. }
  assert (E3 : v mod 2 ^ 3 = function info).
  { subst v. change (2 ^ 3) with 8. Z.to_euclidean_division_equations. lia. }
  rewrite E8, E5, E3. rewrite !Z.mod_small by lia. done.
Qed.

(** ** pci_config_read *)

Lemma config_read_loop_spec s a n : forall i val,
  Forall (fun c => 0 <= c < 256) (config s) ->
  0 <= a -> 0 <= i -> i + Z.of_nat n <= 4 ->
  a + i + Z.of_nat n <= 256 ->
  length (config s) = 256%nat ->
  config_read_loop ub n i s a val
  = Z.lor val (Z.shiftl (le_load n (config s) (a + i)) (8 * i)).
Proof.
  induction n as [|n IH]; intros i val Hc Ha Hi Hn Hlen Hl.
  - unfold le_load. simpl. by rewrite Z.shiftl_0_l, Z.lor_0_r.
  - cbn [config_read_loop].
    rewrite (u64_small (a + i)) by lia.
    assert (Hlt : (a + i <? PCI_CONFIG_SIZE) = true).
    { apply Z.ltb_lt. unfold PCI_CONFIG_SIZE. lia. }
    rewrite Hlt. rewrite IH by (try done; lia).
    pose proof (byte_at_range (config s) (a + i) Hc) as Hb.
    set (c := byte_at (config s) (a + i)) in *.
    rewrite (le_load_step n (config s) (a + i)) by lia. fold c.
    unfold shl32. rewrite (u64_small (i * 8)) by lia.
    destruct (Z.ltb_spec (i * 8) 32); [|lia].
    assert (Hfit : u32 (Z.shiftl c (i * 8)) = Z.shiftl c (i * 8)).
    { apply u32_small. rewrite Z.shiftl_mul_pow2 by lia.
      split; [apply Z.mul_nonneg_nonneg; lia|].
      apply Z.lt_le_trans with (2 ^ 8 * 2 ^ (i * 8)).
      - apply Z.mul_lt_mono_pos_r; [apply Z.pow_pos_nonneg|]; lia.
      - rewrite <- Z.pow_add_r by lia. apply Z.pow_le_mono_r; lia. }
    rewrite Hfit. unfold u8. rewrite (Z.mod_small c) by (change (2 ^ 8) with 256; lia).
    rewrite Z.shiftl_lor, Z.shiftl_shiftl by lia.
    rewrite <- Z.lor_assoc.
    replace (a + (i + 1)) with (a + i + 1) by lia.
    replace (8 + 8 * i) with (8 * (i + 1)) by lia.
    replace (i * 8) with (8 * i) by lia. done.
Qed.

Lemma small_size (sz : Z) :
  0 <= sz <= 4 ->
  u64 sz = sz /\ Z.shiftr (u64 sz) 16 = 0 /\ Z.land (u64 sz) 0xffff = sz.
Proof.
  intros Hsz.
  assert (sz = 0 \/ sz = 1 \/ sz = 2 \/ sz = 3 \/ sz = 4) as Hc by lia.
  destruct Hc as [->|[->|[->|[->| ->]]]]; done.
Qed.

Lemma config_offset (a : Z) : 0 <= Z.land (u64 a) 0xff < 256.
Proof.
  change 0xff with (Z.ones 8). rewrite Z.land_ones by lia.
  apply Z.mod_pos_bound. lia.
Qed.

Lemma pci_config_read_bytes s a sz :
  reachable H xc ub s ->
  u32 (Z.shiftr (u64 a) 32) = bdf s ->
  0 <= sz <= 4 ->
  Z.land (u64 a) 0xff + sz <= PCI_CONFIG_SIZE ->
  pci_config_read ub s a sz
  = le_load (Z.to_nat sz) (config s) (Z.land (u64 a) 0xff).
Proof.
  intros Hr Hd Hsz Hin.
  destruct (reachable_shape H xc ub s Hr) as (Hlen & _ & _).
  destruct (reachable_tidy s Hr) as (Hc & _ & _).
  destruct (small_size sz Hsz) as (E1 & _ & _).
  pose proof (config_offset a) as Ho.
  unfold pci_config_read. rewrite Hd, Z.eqb_refl, E1. simpl.
  rewrite config_read_loop_spec
    by (try done; unfold PCI_CONFIG_SIZE in *; lia).
  by rewrite Z.lor_0_l, Z.shiftl_0_r, Z.add_0_r.
Qed.

(** X9.  A [pci_config_read] of up to 4 bytes that lies inside the
    256-byte configuration space of the device addressed returns the
    little-endian value of the bytes of [pci.config] at the offset, in
    every reachable state. *)
Theorem pci_config_read_in_range s a sz :
  reachable H xc ub s ->
  u32 (Z.shiftr (u64 a) 32) = bdf s ->
  0 <= sz <= 4 ->
  Z.land (u64 a) 0xff + sz <= PCI_CONFIG_SIZE ->
  pci_config_read ub s a sz
  = le_load (Z.to_nat sz) (pci_config_ptr s) (Z.land (u64 a) 0xff).
Proof. apply pci_config_read_bytes. Qed.

Lemma reachable_bdf s :
  reachable H xc ub s ->
  u16 (bdf s) = bdf s /\ u32 (bdf s) = bdf s.
Proof.
  intros Hr. destruct (reachable_tidy s Hr) as (_ & Hd & _).
  unfold u16, u32. rewrite !Z.mod_small; lia.
Qed.

(** X10.  Reading back what was written: after a [pci_config_write] of
    [sz] bytes (up to 4, inside the configuration space) a
    [pci_config_read] of the same bytes returns
    [(old & ~mask) | (val & mask)], where [old] is what the read returned
    before the write and [mask] is the little-endian value of the bytes
    of the writable mask at the offset. *)
Theorem pci_config_write_read_back s w a sz v :
  reachable H xc ub s ->
  Z.shiftr (u64 a) 32 = bdf s ->
  0 <= sz <= 4 ->
  Z.land (u64 a) 0xff + sz <= PCI_CONFIG_SIZE ->
  let m := le_load (Z.to_nat sz) (mask s) (Z.land (u64 a) 0xff) in
  exists s' w',
    pci_config_write H xc ub (s, w) a sz v = Some (s', w')
    /\ pci_config_read ub s' a sz
       = Z.lor (Z.land (pci_config_read ub s a sz) (Z.lnot m))
               (Z.land (u32 v) m).
Proof.
  intros Hr Hd Hsz Hin m.
  destruct (reachable_bdf s Hr) as [H16 H32].
  assert (Hd16 : u16 (Z.shiftr (u64 a) 32) = bdf s) by (by rewrite Hd).
  assert (Hd32 : u32 (Z.shiftr (u64 a) 32) = bdf s) by (by rewrite Hd).
  destruct (reachable_shape H xc ub s Hr) as (Hlen & Hlm & _).
  destruct (pci_config_write_bytes H xc ub s w a sz v Hr Hd16)
    as (s' & w' & E & Hm & Hmv & Hby).
  exists s', w'. split; [done|].
  assert (Hr' : reachable H xc ub s') by (by eapply reach_write).
  destruct (reachable_shape H xc ub s' Hr') as (Hlen' & _ & _).
  assert (Hd' : u32 (Z.shiftr (u64 a) 32) = bdf s').
  { destruct (pci_config_write_moved _ _ _ _ _ _ _ E) as [-> _]. done. }
  rewrite !pci_config_read_bytes by done.
  destruct (small_size sz Hsz) as (_ & E2 & E3).
  rewrite E2, E3, Z.add_0_r in Hby.
  pose proof (config_offset a) as Ho.
  set (off := Z.land (u64 a) 0xff) in *. subst m.
  unfold PCI_CONFIG_SIZE in *.
  apply Z.bits_inj'. intros j Hj.
  rewrite Z.lor_spec, !Z.land_spec, Z.lnot_spec by done.
  rewrite !le_load_testbit by (try done; rewrite ?Hlen, ?Hlen', ?Hlm; lia).
  rewrite Z2Nat.id by lia.
  destruct (Z.ltb_spec j (8 * sz)) as [Hlt|Hge]; simpl.
  2:{ by rewrite andb_false_r. }
  pose proof (Z.div_mod j 8 ltac:(lia)) as Hdm.
  pose proof (Z.mod_pos_bound j 8 ltac:(lia)) as Hmod.
  assert (0 <= j / 8 < sz).
  { split; [apply Z.div_pos; lia|]. apply Z.div_lt_upper_bound; lia. }
  rewrite (Hby (off + j / 8)) by lia.
  assert (Hw : (off <=? off + j / 8) && (off + j / 8 <? off + sz) = true).
  { apply andb_true_intro. split; [apply Z.leb_le | apply Z.ltb_lt]; lia. }
  rewrite Hw, merged_testbit by lia.
  unfold shr32.
  destruct (Z.ltb_spec (8 * (off + j / 8 - off)) 32); [|lia].
  rewrite Z.shiftr_spec by lia.
  replace (j mod 8 + 8 * (off + j / 8 - off)) with j by lia.
  destruct (Z.testbit (byte_at (mask s) (off + j / 8)) (j mod 8)),
    (Z.testbit (u32 v) j),
    (Z.testbit (byte_at (config s) (off + j / 8)) (j mod 8)); reflexivity.
Qed.

(** ** Writes and resumes that move no BAR *)

(** Every [pci_config_write] addressed to the device and every
    [pci_config_resume] leaves each enabled BAR at the address computed
    from the configuration space. *)
Lemma written_at_target s w a sz v s' w' :
  reachable H xc ub s ->
  u16 (Z.shiftr (u64 a) 32) = bdf s ->
  pci_config_write H xc ub (s, w) a sz v = Some (s', w') ->
  bars_at_target H s'.
Proof.
  intros Hr Hd E. destruct (reachable_shape H xc ub s Hr) as (_ & _ & Hok).
  destruct (pci_config_write_same_bdf H xc ub s w a sz v Hok Hd)
    as (s1 & w1 & E1 & _ & _ & _ & _ & Ht & _).
  rewrite E1 in E. by injection E as <- <-.
Qed.

Lemma resumed_at_target s w data s' w' :
  reachable H xc ub s ->
  pci_config_resume H xc (s, w) data = Some (s', w') ->
  bars_at_target H s'.
Proof.
  intros Hr E. destruct (reachable_shape H xc ub s Hr) as (_ & _ & Hok).
  destruct (pci_config_resume_spec H xc s w data Hok)
    as (s1 & w1 & E1 & _ & _ & _ & _ & Ht & _).
  rewrite E1 in E. by injection E as <- <-.
Qed.

(** X11.  On a device whose enabled BARs all sit at the address
    computed from the configuration space, which is how every
    [pci_config_write] addressed to the device and every
    [pci_config_resume] leave it ([written_at_target],
    [resumed_at_target]), a [pci_config_write] whose bytes touch neither
    the COMMAND register nor a BAR register (the bytes below offset 4,
    those from 6 to 15, those from 40 on) moves no BAR and makes no call
    to the hypervisor or to a map or unmap handler: the world is as
    before, and so is the whole BAR table, which still sits at the
    addresses computed from the configuration space. *)
Theorem pci_config_write_beside_decoding s w a sz v :
  reachable H xc ub s ->
  bars_at_target H s ->
  u16 (Z.shiftr (u64 a) 32) = bdf s ->
  beside_decoding (Z.land (u64 a) 0xff + Z.shiftr (u64 sz) 16)
    (Z.land (u64 sz) 0xffff) ->
  exists s',
    pci_config_write H xc ub (s, w) a sz v = Some (s', w)
    /\ bar s' = bar s
    /\ bars_at_target H s'.
Proof.
  intros Hr Ht Hd Hbeside.
  destruct (reachable_shape H xc ub s Hr) as (Hlen & _ & Hok).
  destruct (write_window a sz) as [Hoff Hsz].
  set (off := Z.land (u64 a) 0xff + Z.shiftr (u64 sz) 16) in *.
  set (len := Z.land (u64 sz) 0xffff) in *.
  unfold pci_config_write. rewrite Hd, Z.eqb_refl. simpl.
  fold off. fold len. rewrite (u64_small off) by lia.
  set (s0 := config_write_loop ub (Z.to_nat len) 0 off (u32 v) s).
  destruct (config_write_loop_other ub (Z.to_nat len) 0 off (u32 v) s)
    as (_ & Hb0 & _ & Hl0). fold s0 in Hb0, Hl0.
  assert (Hsame : forall k,
             0 <= k < PCI_CONFIG_SIZE -> ~ (off <= k < off + len) ->
             byte_at (config s0) k = byte_at (config s) k).
  { intros k Hk Hout. subst s0.
    rewrite config_write_loop_byte_at by (try done; lia).
    rewrite Z.add_0_r, Z2Nat.id by lia.
    destruct (Z.leb_spec off k), (Z.ltb_spec k (off + len)); simpl;
      try done; lia. }
  assert (Ht0 : bars_at_target H s0).
  { intros j b Hj He. rewrite Hb0 in Hj. rewrite (Ht j b Hj He).
    assert (Hj6 : (j < PCI_NUM_BAR)%nat).
    { destruct Hok as [<- _]. by eapply lookup_lt_Some. }
    unfold bar_target.
    unfold beside_decoding, PCI_COMMAND, PCI_BASE_ADDRESS_0, PCI_NUM_BAR,
      PCI_CONFIG_SIZE in *.
    rewrite (le_load_ext 4 (config s0) (config s) (16 + Z.of_nat j * 4)),
      (le_load_ext 2 (config s0) (config s) 4);
      try done; try (rewrite ?Hl0, ?Hlen; lia).
    - intros k Hk. apply Hsame; lia.
    - intros k Hk. apply Hsame; lia. }
  exists s0. split; [|done].
  apply pci_update_config_fixed; [|done].
  destruct Hok as [? ?]. split; rewrite Hb0; done.
Qed.

Lemma memcpy_all (a src : list Z) :
  length src = length a -> memcpy a 0 src = src.
Proof.
  intros Hl. unfold memcpy. change (Z.to_nat 0) with 0%nat.
  rewrite <- (app_nil_r a), (list_inserts_0_r src a []) by done.
  apply app_nil_r.
Qed.

Lemma resume_own_config s :
  reachable H xc ub s ->
  set_config s
    (memcpy (config s) 0
       (List.map u8 (take (Z.to_nat PCI_CONFIG_SIZE) (config s)))) = s.
Proof.
  intros Hr. destruct (reachable_shape H xc ub s Hr) as (Hlen & _ & _).
  destruct (reachable_tidy s Hr) as (Hc & _ & _).
  rewrite take_ge by lia.
  assert (Hm : List.map u8 (config s) = config s).
  { clear Hlen. induction Hc as [|c l Hx _ IH]; simpl; [done|].
    rewrite IH. unfold u8. rewrite Z.mod_small; [done|].
    change (2 ^ 8) with 256. lia. }
  rewrite Hm, memcpy_all by done. by destruct s.
Qed.

(** X12.  Saving and restoring in place: [pci_config_resume] with the
    bytes [pci_config_ptr] points to changes no byte of the configuration
    space and does what [pci_update_config] alone does.  On a device whose
    enabled BARs all sit at the address computed from the configuration
    space, which is how every [pci_config_write] addressed to the device
    and every [pci_config_resume] leave it, it changes nothing and makes
    no call to the hypervisor or to a map or unmap handler. *)
Theorem pci_config_resume_own s w :
  reachable H xc ub s ->
  pci_config_resume H xc (s, w) (pci_config_ptr s)
  = pci_update_config H xc (s, w)
  /\ (bars_at_target H s ->
      pci_config_resume H xc (s, w) (pci_config_ptr s) = Some (s, w)).
Proof.
  intros Hr.
  assert (E : pci_config_resume H xc (s, w) (pci_config_ptr s)
              = pci_update_config H xc (s, w)).
  { unfold pci_config_resume, pci_config_ptr.
    by rewrite resume_own_config. }
  split; [done|]. intros Ht. rewrite E.
  apply pci_update_config_fixed; [|done].
  by destruct (reachable_shape H xc ub s Hr) as (_ & _ & ?).
Qed.

(** X13.  Migration: the configuration space that [pci_config_ptr]
    gives for a device whose enabled BARs all sit at the address computed
    from it (a device saved after a [pci_config_write] addressed to it or
    a [pci_config_resume]), resumed into a device whose BARs were
    registered in the same way, puts every BAR where it was.  The resumed
    device has the saved configuration space and the BAR table of the
    saved device, addresses included. *)
Theorem pci_config_resume_restores s1 s2 w :
  reachable H xc ub s1 ->
  bars_at_target H s1 ->
  reachable H xc ub s2 ->
  bars_moved s1 s2 ->
  exists s' w',
    pci_config_resume H xc (s2, w) (pci_config_ptr s1) = Some (s', w')
    /\ config s' = config s1
    /\ bar s' = bar s1.
Proof.
  intros Hr1 Ht1 Hr2 Hmv.
  destruct (reachable_shape H xc ub s1 Hr1) as (Hlen1 & _ & Hok1).
  destruct (reachable_shape H xc ub s2 Hr2) as (Hlen2 & _ & Hok2).
  destruct (reachable_tidy s1 Hr1) as (_ & _ & Hb1).
  destruct (reachable_tidy s2 Hr2) as (_ & _ & Hb2).
  destruct (pci_config_resume_spec H xc s2 w (pci_config_ptr s1) Hok2)
    as (s' & w' & E & Hc & _ & _ & Hok' & Ht' & Hmv').
  assert (Hcfg : config s' = config s1).
  { rewrite Hc. unfold pci_config_ptr.
    pose proof (resume_own_config s1 Hr1) as Eo.
    apply (f_equal config) in Eo. cbn [set_config config] in Eo.
    rewrite <- Eo at 2.
    rewrite !memcpy_all; [done | |]; rewrite length_map, length_take; lia. }
  exists s', w'. repeat split; try done.
  apply list_eq. intros j.
  destruct (bar s1 !! j) as [r|] eqn:Hj.
  - destruct (Hmv j r Hj) as [a2 Ha2].
    destruct (Hmv' _ _ Ha2) as [a3 Ha3]. rewrite Ha3. f_equal.
    destruct (Z.eq_dec (enable r) 0) as [He|He].
    + destruct (Hb1 j r Hj) as [Hoff _]. rewrite (Hoff He) in *.
      destruct (Hb2 j _ Ha2) as [Hoff2 _].
      destruct (reachable_tidy s' (reach_resume H xc ub _ _ _ _ _ Hr2 E))
        as (_ & _ & Hb'). destruct (Hb' j _ Ha3) as [Hoff3 _].
      by apply Hoff3.
    + pose proof (Ht' j _ Ha3 He) as Et.
      rewrite (bar_target_config H s' s1 j _ Hcfg) in Et.
      rewrite (bar_target_fields H s1 j (set_addr (set_addr r a2) a3) r
                 eq_refl eq_refl) in Et.
      rewrite <- (Ht1 j r Hj He) in Et. simpl in Et. subst a3.
      by destruct r.
  - destruct Hok1 as [Hl1 _]. destruct Hok' as [Hl' _].
    apply lookup_ge_None. apply lookup_ge_None in Hj. lia.
Qed.

(** ** pci_bar_deregister *)

(** X14.  [pci_bar_deregister] on an index that no registration has
    enabled is not a no-op.  The [addr] of such a BAR is 0, as the zeroed
    [pci] has it, and not [PCI_BAR_UNMAPPED]; the function asks the
    hypervisor to unmap the port range from 0 to 0xffffffff. *)
Theorem pci_bar_deregister_unregistered s w index b :
  PCI_BAR_UNMAPPED H <> 0 ->
  reachable H xc ub s ->
  bar s !! Z.to_nat (u32 index) = Some b ->
  enable b = 0 ->
  pci_bar_deregister H xc index s w
  = Some (xc_hvm_unmap_io_range_from_ioreq_server xc
            (xch s) (domid s) (ioservid s) 0 0 0xffffffff w).
Proof.
  intros HU Hr Hb He.
  destruct (reachable_tidy s Hr) as (_ & _ & Hbars).
  destruct (Hbars _ b Hb) as [Hoff _]. rewrite (Hoff He) in Hb.
  unfold pci_bar_deregister. rewrite Hb. simpl.
  destruct (PCI_BAR_UNMAPPED H); [done | reflexivity | reflexivity].
Qed.

(** X15.  [pci_bar_deregister] on a registered BAR, in a reachable
    state.  When the BAR is not mapped the hypervisor is not called; this
    is so whenever the BAR is not decoded (the enable bit of its space is
    clear in COMMAND, or its base address is 0 or the size probe).  When
    the BAR is mapped it is decoded, and the range unmapped is the window
    of the BAR, from the base address in its register to the base address
    plus its size minus one. *)
Theorem pci_bar_deregister_window s w index b :
  unmapped_is_no_base H ->
  reachable H xc ub s ->
  bar s !! Z.to_nat (u32 index) = Some b ->
  enable b <> 0 ->
  let i := Z.to_nat (u32 index) in
  let decoded := space_enabled H s b /\ bar_base H s i b <> 0
                 /\ bar_base H s i b <> size_probe b in
  (~ mapped H b -> pci_bar_deregister H xc index s w = Some w)
  /\ (~ decoded -> pci_bar_deregister H xc index s w = Some w)
  /\ (mapped H b ->
      decoded
      /\ pci_bar_deregister H xc index s w
         = Some (xc_hvm_unmap_io_range_from_ioreq_server xc
                   (xch s) (domid s) (ioservid s) (is_mmio b)
                   (bar_base H s i b)
                   (u32 (bar_base H s i b + size b - 1)) w)).
Proof.
  intros Hnb Hr Hb He i decoded.
  pose proof (bar_target_mapped H s i b Hnb) as Hiff. fold decoded in Hiff.
  assert (Hno : ~ mapped H b -> pci_bar_deregister H xc index s w = Some w).
  { intros Hm. unfold pci_bar_deregister. rewrite Hb. simpl.
    destruct (Z.eqb_spec (addr b) (PCI_BAR_UNMAPPED H)); [done|].
    by destruct Hm. }
  assert (Hdec : mapped H b -> addr b = bar_target H s i b /\ decoded).
  { intros Hm.
    destruct (reachable_mapped_at_target H xc ub s Hr i b Hb He) as [Eu|Et];
      [done|].
    split; [done|]. apply Hiff. by rewrite <- Et. }
  split; [done|]. split.
  - intros Hd. apply Hno. intros Hm. by apply Hdec in Hm as [_ ?].
  - intros Hm. destruct (Hdec Hm) as [Et Hd]. split; [done|].
    unfold pci_bar_deregister. rewrite Hb. simpl.
    destruct (Z.eqb_spec (addr b) (PCI_BAR_UNMAPPED H)) as [Eu|_]; [done|].
    rewrite Et, (bar_target_base s i b); [done|]. by rewrite <- Et.
Qed.

End MoreFacts.

(** ** The theorems at the demonstration device *)

(** The handlers of the demonstration device record their calls. *)
#[local] Abbreviation calls := (list (Z * Z * Z)).
#[local] Abbreviation demo_ops := (log_ops false false).

Lemma demo_write_BAR0 :
  pci_config_write pci_regs quiet_xc zero_shifts
    (demo_registered demo_ops [], []) (demo_cfg 0x10) 4 0xfebc0000
  = Some (demo_state demo_ops [], []).
Proof. vm_compute. reflexivity. Qed.

Lemma demo_registered_reachable :
  reachable pci_regs quiet_xc zero_shifts (demo_registered demo_ops []).
Proof. by apply demo_reachable. Qed.

Lemma demo_state_reachable :
  reachable pci_regs quiet_xc zero_shifts (demo_state demo_ops []).
Proof.
  eapply reach_write; [apply demo_registered_reachable | apply demo_write_BAR0].
Qed.

Lemma demo_later :
  later pci_regs quiet_xc zero_shifts
    (demo_registered demo_ops []) (demo_state demo_ops []).
Proof.
  eapply later_write; [apply later_now | apply demo_write_BAR0].
Qed.

Lemma demo_get :
  pci_bar_get (demo_state demo_ops []) 1 0xfebc0010
  = Some (demo_bar demo_ops []).
Proof. vm_compute. reflexivity. Qed.

(** The access at 0xfebc0010 is claimed by BAR 0, mapped at
    0xfebc0000. *)
Lemma pci_bar_get_decoded_witness :
  let s := demo_state demo_ops [] in
  let b := demo_bar demo_ops [] in
  (PCI_BAR_UNMAPPED pci_regs = 0xffffffff
   /\ unmapped_is_no_base pci_regs
   /\ reachable pci_regs quiet_xc zero_shifts s
   /\ pci_bar_get s 1 0xfebc0010 = Some b)
  /\ exists i,
       bar s !! i = Some b
       /\ mapped pci_regs b
       /\ space_enabled pci_regs s b
       /\ addr b = bar_base pci_regs s i b
       /\ bar_base pci_regs s i b <= 0xfebc0010
          < u32 (bar_base pci_regs s i b + size b).
Proof.
  intros s b.
  split.
  { exact (conj eq_refl (conj pci_regs_unmapped
             (conj demo_state_reachable demo_get))). }
  exact (pci_bar_get_decoded pci_regs quiet_xc zero_shifts s 1 0xfebc0010 b
           eq_refl pci_regs_unmapped demo_state_reachable demo_get).
Defined.

(** Accesses of 2 bytes at 0xfebc0010 return; no BAR claims
    0xfebd0000. *)
Lemma pci_bar_access_returns_witness :
  let s := demo_state demo_ops [] in
  reachable pci_regs quiet_xc zero_shifts s
  /\ (is_Some (pci_bar_read s [] 1 0xfebc0010 2)
      <-> is_Some (pci_bar_get s 1 (u64 0xfebc0010))
          /\ (u64 2 = 1 \/ u64 2 = 2 \/ u64 2 = 4))
  /\ (is_Some (pci_bar_write s [] 1 0xfebd0000 2 0x1234)
      <-> is_Some (pci_bar_get s 1 (u64 0xfebd0000))
          /\ (u64 2 = 1 \/ u64 2 = 2 \/ u64 2 = 4)).
Proof.
  intros s. split; [apply demo_state_reachable|]. split.
  - exact (proj1 (pci_bar_access_returns pci_regs quiet_xc zero_shifts s []
                    1 0xfebc0010 2 0 demo_state_reachable)).
  - exact (proj2 (pci_bar_access_returns pci_regs quiet_xc zero_shifts s []
                    1 0xfebd0000 2 0x1234 demo_state_reachable)).
Defined.

Lemma demo_get_u64 :
  pci_bar_get (demo_state demo_ops []) 1 (u64 0xfebc0010)
  = Some (demo_bar demo_ops []).
Proof. vm_compute. reflexivity. Qed.

(** The byte at 0xfebc0010 is at offset 0x10 of BAR 0. *)
Lemma pci_bar_offset_inside_witness :
  let s := demo_state demo_ops [] in
  let b := demo_bar demo_ops [] in
  (PCI_BAR_UNMAPPED pci_regs = 0xffffffff
   /\ unmapped_is_no_base pci_regs
   /\ reachable pci_regs quiet_xc zero_shifts s
   /\ pci_bar_get s 1 (u64 0xfebc0010) = Some b)
  /\ let rel := u64 (u64 0xfebc0010 - addr b) in
     0 <= rel < size b
     /\ u64 0xfebc0010 = addr b + rel
     /\ exists o f g,
          ops b = Some o /\ readb o = Some f /\ writeb o = Some g
          /\ pci_bar_read s [] 1 0xfebc0010 1 = Some (ret 1 f (priv b) rel [])
          /\ forall v,
               pci_bar_write s [] 1 0xfebc0010 1 v
               = Some (arg 1 g (priv b) rel (u32 v) []).
Proof.
  intros s b.
  split.
  { exact (conj eq_refl (conj pci_regs_unmapped
             (conj demo_state_reachable demo_get_u64))). }
  exact (pci_bar_offset_inside pci_regs quiet_xc zero_shifts s [] 1
           0xfebc0010 b eq_refl pci_regs_unmapped demo_state_reachable
           demo_get_u64).
Defined.

(** BAR 0 of the demonstration device cannot be registered again, as an
    I/O BAR of 256 bytes say, after the guest has programmed it. *)
Lemma pci_bar_register_once_witness :
  let s0 := (pci_device_register pci_regs quiet_xc
               (pci0, ([] : calls)) 0 0 0 demo_info).1.1 in
  (pci_bar_register pci_regs zero_shifts s0 0 0x08 12 (Some demo_ops) 0
   = (demo_registered demo_ops [], 0)
   /\ later pci_regs quiet_xc zero_shifts
        (demo_registered demo_ops []) (demo_state demo_ops []))
  /\ pci_bar_register pci_regs zero_shifts (demo_state demo_ops [])
       0 0x01 8 (Some demo_ops) 0
     = (demo_state demo_ops [], -1).
Proof.
  intros s0.
  assert (E : pci_bar_register pci_regs zero_shifts s0 0 0x08 12
                (Some demo_ops) 0 = (demo_registered demo_ops [], 0))
    by (vm_compute; reflexivity).
  split; [split; [exact E | exact demo_later]|].
  exact (pci_bar_register_once pci_regs quiet_xc zero_shifts s0 0 0x08 12
           (Some demo_ops) 0 (demo_registered demo_ops [])
           (demo_state demo_ops []) E demo_later 0x01 8 (Some demo_ops) 0).
Defined.

Lemma demo_registered_bar :
  bar (demo_registered demo_ops []) !! 0%nat
  = Some {| ops := Some demo_ops; is_mmio := 1; enable := 1;
            addr := 0xffffffff; size := 0x1000; priv := 0 |}.
Proof. vm_compute. reflexivity. Qed.

(** BAR 0 after the guest has programmed it: the table, the space and
    the size are those of the registration. *)
Lemma registration_kept_witness :
  let r := {| ops := Some demo_ops; is_mmio := 1; enable := 1;
              addr := 0xffffffff; size := 0x1000; priv := 0 |} in
  (later pci_regs quiet_xc zero_shifts
     (demo_registered demo_ops []) (demo_state demo_ops [])
   /\ bar (demo_registered demo_ops []) !! 0%nat = Some r
   /\ enable r <> 0)
  /\ bdf (demo_state demo_ops []) = bdf (demo_registered demo_ops [])
  /\ exists r',
       bar (demo_state demo_ops []) !! 0%nat = Some r'
       /\ ops r' = ops r /\ priv r' = priv r
       /\ is_mmio r' = is_mmio r /\ size r' = size r
       /\ enable r' = enable r.
Proof.
  intros r.
  assert (He : enable r <> 0) by discriminate.
  split; [split; [exact demo_later | split; [exact demo_registered_bar | exact He]]|].
  exact (registration_kept pci_regs quiet_xc zero_shifts
           (demo_registered demo_ops []) (demo_state demo_ops []) 0%nat r
           demo_later demo_registered_bar He).
Defined.

(** The registration of 00:03.0 is the second outcome. *)
Lemma pci_device_register_outcomes_witness :
  exists s,
    pci_device_register pci_regs quiet_xc (pci0, ([] : calls)) 7 1 2 demo_info
    = (s, [], 0)
    /\ ((~ in_range demo_info /\ 0 = -1 /\ ([] : calls) = []
         /\ s = set_handle pci0 7 1 2)
        \/ (in_range demo_info /\ ([] : calls) = []
            /\ 0 = 0
            /\ bdf s = 0 * 256 + 3 * 8 + 0
            /\ config s = register_config pci_regs demo_info (config (W := calls) pci0)
            /\ mask s = register_mask pci_regs (mask (W := calls) pci0))).
Proof.
  eexists. split; [reflexivity|].
  exact (pci_device_register_outcomes pci_regs quiet_xc pci0 [] 7 1 2
           demo_info _ _ _ eq_refl).
Defined.

(** The hypervisor here records the function it is asked to unmap. *)
Lemma pci_device_deregister_same_function_witness :
  let unmap_pcidev := fun (_ _ _ _ b d f : Z) (w : calls) =>
                        (0, w ++ [(b, d, f)]) in
  exists s,
    pci_device_register pci_regs quiet_xc (pci0, ([] : calls)) 7 1 2 demo_info
    = (s, [], 0)
    /\ pci_device_deregister unmap_pcidev s [] = [(0, 3, 0)].
Proof.
  intros unmap_pcidev. eexists. split; [reflexivity|].
  exact (pci_device_deregister_same_function pci_regs quiet_xc unmap_pcidev
           pci0 [] 7 1 2 demo_info _ [] [] eq_refl).
Defined.

(** The first four bytes of the configuration space: vendor 0x5853,
    device 0x0001. *)
Lemma pci_config_read_in_range_witness :
  let s := demo_registered demo_ops [] in
  (reachable pci_regs quiet_xc zero_shifts s
   /\ u32 (Z.shiftr (u64 (demo_cfg 0)) 32) = bdf s
   /\ 0 <= 4 <= 4
   /\ Z.land (u64 (demo_cfg 0)) 0xff + 4 <= PCI_CONFIG_SIZE)
  /\ pci_config_read zero_shifts s (demo_cfg 0) 4
     = le_load (Z.to_nat 4) (pci_config_ptr s) (Z.land (u64 (demo_cfg 0)) 0xff)
  /\ le_load (Z.to_nat 4) (pci_config_ptr s) (Z.land (u64 (demo_cfg 0)) 0xff)
     = 0x00015853.
Proof.
  intros s.
  assert (Hd : u32 (Z.shiftr (u64 (demo_cfg 0)) 32) = bdf s)
    by (vm_compute; reflexivity).
  assert (Hsz : 0 <= 4 <= 4) by lia.
  assert (Hin : Z.land (u64 (demo_cfg 0)) 0xff + 4 <= PCI_CONFIG_SIZE)
    by (vm_compute; discriminate).
  split; [repeat split; try assumption; try apply demo_registered_reachable;
          lia|].
  split; [|vm_compute; reflexivity].
  exact (pci_config_read_in_range pci_regs quiet_xc zero_shifts s (demo_cfg 0)
           4 demo_registered_reachable Hd Hsz Hin).
Defined.

(** The size probe of BAR 0: all ones written, the address bits above
    the 4 KiB and the type bits read back. *)
Lemma pci_config_write_read_back_witness :
  let s := demo_registered demo_ops [] in
  let a := demo_cfg 0x10 in
  (reachable pci_regs quiet_xc zero_shifts s
   /\ Z.shiftr (u64 a) 32 = bdf s
   /\ 0 <= 4 <= 4
   /\ Z.land (u64 a) 0xff + 4 <= PCI_CONFIG_SIZE)
  /\ (exists s' w',
        pci_config_write pci_regs quiet_xc zero_shifts (s, []) a 4 0xffffffff
        = Some (s', w')
        /\ pci_config_read zero_shifts s' a 4
           = Z.lor (Z.land (pci_config_read zero_shifts s a 4)
                      (Z.lnot (le_load (Z.to_nat 4) (mask s)
                                 (Z.land (u64 a) 0xff))))
                   (Z.land (u32 0xffffffff)
                      (le_load (Z.to_nat 4) (mask s) (Z.land (u64 a) 0xff))))
  /\ Z.lor (Z.land (pci_config_read zero_shifts s a 4)
              (Z.lnot (le_load (Z.to_nat 4) (mask s) (Z.land (u64 a) 0xff))))
           (Z.land (u32 0xffffffff)
              (le_load (Z.to_nat 4) (mask s) (Z.land (u64 a) 0xff)))
     = 0xfffff008.
Proof.
  intros s a.
  assert (Hd : Z.shiftr (u64 a) 32 = bdf s) by (vm_compute; reflexivity).
  assert (Hsz : 0 <= 4 <= 4) by lia.
  assert (Hin : Z.land (u64 a) 0xff + 4 <= PCI_CONFIG_SIZE)
    by (vm_compute; discriminate).
  split; [repeat split; try assumption; try apply demo_registered_reachable;
          lia|].
  split; [|vm_compute; reflexivity].
  exact (pci_config_write_read_back pci_regs quiet_xc zero_shifts s [] a 4
           0xffffffff demo_registered_reachable Hd Hsz Hin).
Defined.

(** A write to the device-specific area, at offset 0x40, of the mapped
    device. *)
Lemma demo_state_at_target :
  bars_at_target pci_regs (demo_state demo_ops []).
Proof.
  apply (written_at_target pci_regs quiet_xc zero_shifts
           (demo_registered demo_ops []) [] (demo_cfg 0x10) 4 0xfebc0000
           (demo_state demo_ops []) []).
  - apply demo_registered_reachable.
  - vm_compute. reflexivity.
  - apply demo_write_BAR0.
Qed.

Lemma demo_registered_at_target :
  bars_at_target pci_regs (demo_registered demo_ops []).
Proof.
  apply (reachable_flags_at_target pci_regs quiet_xc zero_shifts).
  by apply demo_reachable_flags.
Qed.

(** A write of four bytes at offset 0x40 of the device with BAR 0
    mapped. *)
Lemma pci_config_write_beside_decoding_witness :
  let s := demo_state demo_ops [] in
  let a := demo_cfg 0x40 in
  (reachable pci_regs quiet_xc zero_shifts s
   /\ bars_at_target pci_regs s
   /\ u16 (Z.shiftr (u64 a) 32) = bdf s
   /\ beside_decoding (Z.land (u64 a) 0xff + Z.shiftr (u64 4) 16)
        (Z.land (u64 4) 0xffff))
  /\ exists s',
       pci_config_write pci_regs quiet_xc zero_shifts (s, []) a 4 0xdeadbeef
       = Some (s', [])
       /\ bar s' = bar s
       /\ bars_at_target pci_regs s'.
Proof.
  intros s a.
  assert (Hd : u16 (Z.shiftr (u64 a) 32) = bdf s) by (vm_compute; reflexivity).
  assert (Hb : beside_decoding (Z.land (u64 a) 0xff + Z.shiftr (u64 4) 16)
                 (Z.land (u64 4) 0xffff))
    by (right; right; vm_compute; discriminate).
  split.
  { exact (conj demo_state_reachable
             (conj demo_state_at_target (conj Hd Hb))). }
  exact (pci_config_write_beside_decoding pci_regs quiet_xc zero_shifts s []
           a 4 0xdeadbeef demo_state_reachable demo_state_at_target Hd Hb).
Defined.

(** The device with BAR 0 mapped, resumed from its own configuration
    space. *)
Lemma pci_config_resume_own_witness :
  let s := demo_state demo_ops [] in
  (reachable pci_regs quiet_xc zero_shifts s /\ bars_at_target pci_regs s)
  /\ pci_config_resume pci_regs quiet_xc (s, []) (pci_config_ptr s)
     = pci_update_config pci_regs quiet_xc (s, [])
  /\ pci_config_resume pci_regs quiet_xc (s, []) (pci_config_ptr s)
     = Some (s, []).
Proof.
  intros s.
  split; [exact (conj demo_state_reachable demo_state_at_target)|].
  split.
  - exact (proj1 (pci_config_resume_own pci_regs quiet_xc zero_shifts s []
                    demo_state_reachable)).
  - exact (proj2 (pci_config_resume_own pci_regs quiet_xc zero_shifts s []
                    demo_state_reachable) demo_state_at_target).
Defined.

(** The configuration space saved before the guest programmed BAR 0,
    resumed into the device with the BAR mapped. *)
Lemma pci_config_resume_restores_witness :
  let s1 := demo_registered demo_ops [] in
  let s2 := demo_state demo_ops [] in
  (reachable pci_regs quiet_xc zero_shifts s1
   /\ bars_at_target pci_regs s1
   /\ reachable pci_regs quiet_xc zero_shifts s2
   /\ bars_moved s1 s2)
  /\ exists s' w',
       pci_config_resume pci_regs quiet_xc (s2, []) (pci_config_ptr s1)
       = Some (s', w')
       /\ config s' = config s1
       /\ bar s' = bar s1.
Proof.
  intros s1 s2.
  assert (Hm : bars_moved s1 s2)
    by (apply (pci_config_write_moved pci_regs quiet_xc zero_shifts
                 _ _ _ _ _ _ _ demo_write_BAR0)).
  split.
  { exact (conj demo_registered_reachable
             (conj demo_registered_at_target
                (conj demo_state_reachable Hm))). }
  exact (pci_config_resume_restores pci_regs quiet_xc zero_shifts s1 s2 []
           demo_registered_reachable demo_registered_at_target
           demo_state_reachable Hm).
Defined.

(** BAR 1 of the demonstration device was never registered. *)
Lemma pci_bar_deregister_unregistered_witness :
  let s := demo_state demo_ops [] in
  (PCI_BAR_UNMAPPED pci_regs <> 0
   /\ reachable pci_regs quiet_xc zero_shifts s
   /\ bar s !! Z.to_nat (u32 1) = Some bar0
   /\ enable (bar0 (W := calls)) = 0)
  /\ pci_bar_deregister pci_regs quiet_xc 1 s []
     = Some (xc_hvm_unmap_io_range_from_ioreq_server quiet_xc
               (xch s) (domid s) (ioservid s) 0 0 0xffffffff []).
Proof.
  intros s.
  assert (HU : PCI_BAR_UNMAPPED pci_regs <> 0) by discriminate.
  assert (Hb : bar s !! Z.to_nat (u32 1) = Some bar0)
    by (vm_compute; reflexivity).
  split; [repeat split; try assumption; apply demo_state_reachable|].
  exact (pci_bar_deregister_unregistered pci_regs quiet_xc zero_shifts s []
           1 bar0 HU demo_state_reachable Hb eq_refl).
Defined.

Lemma demo_state_bar :
  bar (demo_state demo_ops []) !! Z.to_nat (u32 0)
  = Some (demo_bar demo_ops []).
Proof. vm_compute. reflexivity. Qed.

(** BAR 0 of the demonstration device, mapped at 0xfebc0000; and BAR 0
    registered with the type byte 0xf0, which no update has visited: its
    register decodes to 0xf0, it is not mapped, and nothing is
    unmapped. *)
Lemma pci_bar_deregister_window_witness :
  let s := demo_state demo_ops [] in
  let b := demo_bar demo_ops [] in
  let s0 := demo_typed demo_ops [] in
  let b0 := default bar0 (bar s0 !! 0%nat) in
  (unmapped_is_no_base pci_regs
   /\ reachable pci_regs quiet_xc zero_shifts s
   /\ bar s !! Z.to_nat (u32 0) = Some b
   /\ enable b <> 0)
  /\ (mapped pci_regs b
      /\ bar_base pci_regs s 0 b = 0xfebc0000
      /\ pci_bar_deregister pci_regs quiet_xc 0 s []
         = Some (xc_hvm_unmap_io_range_from_ioreq_server quiet_xc
                   (xch s) (domid s) (ioservid s) (is_mmio b)
                   0xfebc0000 0xfebc0fff []))
  /\ (reachable pci_regs quiet_xc zero_shifts s0
      /\ bar s0 !! Z.to_nat (u32 0) = Some b0
      /\ enable b0 <> 0
      /\ ~ mapped pci_regs b0
      /\ bar_base pci_regs s0 0 b0 = 0xf0
      /\ pci_bar_deregister pci_regs quiet_xc 0 s0 [] = Some []).
Proof.
  intros s b s0 b0.
  assert (He : enable b <> 0) by (vm_compute; discriminate).
  assert (Hm : mapped pci_regs b) by (vm_compute; discriminate).
  assert (Hr0 : reachable pci_regs quiet_xc zero_shifts s0)
    by (by apply demo_typed_reachable).
  assert (Hb0 : bar s0 !! Z.to_nat (u32 0) = Some b0)
    by (vm_compute; reflexivity).
  assert (He0 : enable b0 <> 0) by (vm_compute; discriminate).
  assert (Hm0 : ~ mapped pci_regs b0)
    by (intros Hm0; apply Hm0; vm_compute; reflexivity).
  split.
  { exact (conj pci_regs_unmapped
             (conj demo_state_reachable (conj demo_state_bar He))). }
  split.
  - split; [exact Hm|]. split; [vm_compute; reflexivity|].
    exact (proj2 (proj2 (proj2 (pci_bar_deregister_window pci_regs quiet_xc
                                  zero_shifts s [] 0 b pci_regs_unmapped
                                  demo_state_reachable demo_state_bar He))
                    Hm)).
  - split; [exact Hr0|]. split; [exact Hb0|]. split; [exact He0|].
    split; [exact Hm0|]. split; [vm_compute; reflexivity|].
    exact (proj1 (pci_bar_deregister_window pci_regs quiet_xc zero_shifts
                    s0 [] 0 b0 pci_regs_unmapped Hr0 Hb0 He0) Hm0).
Defined.

End PciExtFacts.

(** * Facts about the ranges mapped at the hypervisor *)

Module PciTrackFacts.
Import Pci ByteFacts PciFacts PciTrack.

Section TrackingFacts.

Context {W : Type}.
Variable H : pci_h.
Variable xc : xenctrl W.
Variable ub : undefined_shifts.
Variable ranges : W -> io_range -> nat.

Implicit Types (s : pci_t W) (w : W).

Lemma sum_list_insert (f : pci_bar_t W -> nat) (l : list (pci_bar_t W)) :
  forall i b b',
    l !! i = Some b ->
    (sum_list (List.map f (<[i := b']> l)) + f b
     = sum_list (List.map f l) + f b')%nat.
Proof.
  induction l as [|x l IH]; intros i b b' Hi; [done|].
  destruct i as [|i]; simpl in *.
  - injection Hi as ->. lia.
  - specialize (IH i b b' Hi). lia.
Qed.

Lemma sum_list_lookup_le (f : pci_bar_t W -> nat) (l : list (pci_bar_t W)) :
  forall i b, l !! i = Some b -> (f b <= sum_list (List.map f l))%nat.
Proof.
  induction l as [|x l IH]; intros i b Hi; [done|].
  destruct i as [|i]; simpl in *.
  - injection Hi as ->. lia.
  - specialize (IH i b Hi). lia.
Qed.

Lemma windows_set_bar s index b b' r :
  bar s !! index = Some b ->
  (windows H (set_bar s index b') r + holds H b r
   = windows H s r + holds H b' r)%nat.
Proof.
  intros Hb.
  exact (sum_list_insert (fun q => holds H q r) (bar s) index b b' Hb).
Qed.

Lemma holds_unmapped (b : pci_bar_t W) r :
  addr b = PCI_BAR_UNMAPPED H -> holds H b r = 0%nat.
Proof.
  intros E. unfold holds. rewrite E, Z.eqb_refl.
  by rewrite andb_false_r.
Qed.

Lemma holds_disabled (b : pci_bar_t W) r :
  enable b = 0 -> holds H b r = 0%nat.
Proof. intros E. unfold holds. by rewrite E. Qed.

Lemma holds_mapped (b : pci_bar_t W) r :
  enable b <> 0 -> addr b <> PCI_BAR_UNMAPPED H ->
  holds H b r = if bool_decide (window b = r) then 1%nat else 0%nat.
Proof.
  intros He Ha. unfold holds.
  destruct (Z.eqb_spec (enable b) 0); [done|].
  destruct (Z.eqb_spec (addr b) (PCI_BAR_UNMAPPED H)); done.
Qed.

Lemma in_step_quiet_insert s index b (b' : pci_bar_t W) :
  bar s !! index = Some b ->
  ops b' = ops b -> enable b' = enable b ->
  (forall j q, bar s !! j = Some q -> enable q <> 0 ->
     exists o, ops q = Some o /\ quiet_hooks ranges o) ->
  forall j q, bar (set_bar s index b') !! j = Some q -> enable q <> 0 ->
    exists o, ops q = Some o /\ quiet_hooks ranges o.
Proof.
  intros Hb Eo Ee Hq j q Hj He. cbn [set_bar bar] in Hj.
  destruct (decide (index = j)) as [<-|Hne].
  - rewrite list_lookup_insert_eq in Hj by (by eapply lookup_lt_Some).
    injection Hj as <-. rewrite Eo. apply (Hq index b Hb). by rewrite <- Ee.
  - rewrite list_lookup_insert_ne in Hj by done. by apply (Hq j q).
Qed.

Hypothesis Htracks : tracks xc ranges.

Lemma pci_update_bar_in_step index s w s' w' :
  in_step H ranges s w ->
  pci_update_bar H xc index (s, w) = Some (s', w') ->
  in_step H ranges s' w'.
Proof.
  intros [Hr Hq] E. unfold pci_update_bar in E.
  destruct (bar s !! index) as [b|] eqn:Hb; [|done]. simpl in E.
  destruct (Z.eqb_spec (enable b) 0) as [He|He].
  { by injection E as <- <-. }
  set (t := bar_target H s index b) in E.
  destruct (Z.eqb_spec (addr b) t) as [Et|Et].
  { by injection E as <- <-. }
  destruct (Hq index b Hb He) as (o & Ho & Hmap & Hunmap).
  destruct Htracks as (Tm & Tu & _).
  assert (Hlt : (index < length (bar s))%nat) by (by eapply lookup_lt_Some).
  assert (Hin : forall w0 r,
             ranges (match map o with
                     | Some f => f (priv b) t w0
                     | None => w0
                     end) r = ranges w0 r).
  { intros w0 r. destruct (map o) as [f|] eqn:Ef; [by apply (Hmap f)|done]. }
  assert (Hout : forall w0 r,
             ranges (match unmap o with
                     | Some f => f (priv b) w0
                     | None => w0
                     end) r = ranges w0 r).
  { intros w0 r. destruct (unmap o) as [f|] eqn:Ef; [by apply (Hunmap f)|done]. }
  assert (Hnew : forall r, t <> PCI_BAR_UNMAPPED H ->
             holds H (set_addr b t) r
             = if bool_decide ((is_mmio b, t, u32 (t + size b - 1)) = r)
               then 1%nat else 0%nat).
  { intros r Ht. by rewrite holds_mapped. }
  assert (Hgone : forall r,
             holds H (set_addr b (PCI_BAR_UNMAPPED H)) r = 0%nat).
  { intros r. by apply holds_unmapped. }
  destruct (Z.eqb_spec (addr b) (PCI_BAR_UNMAPPED H)) as [Eu|Eu]; simpl in E.
  - destruct (Z.eqb_spec t (PCI_BAR_UNMAPPED H)) as [Ev|Ev]; simpl in E;
      [congruence|].
    unfold pci_map_bar in E. cbn [set_bar bar] in E.
    rewrite list_lookup_insert_eq in E by done. simpl in E.
    rewrite Ho in E. simpl in E. injection E as <- <-. split.
    + intros r. rewrite Tm, Hin, Hr.
      pose proof (windows_set_bar s index b (set_addr b t) r Hb) as Hw.
      rewrite (holds_unmapped b r Eu), Hnew in Hw by done. lia.
    + by apply (in_step_quiet_insert s index b).
  - unfold pci_unmap_bar in E. rewrite Hb in E. simpl in E.
    rewrite Ho in E. simpl in E.
    assert (Hold : forall r,
               holds H b r
               = if bool_decide
                      ((is_mmio b, addr b, u32 (addr b + size b - 1)) = r)
                 then 1%nat else 0%nat).
    { intros r. by rewrite holds_mapped. }
    destruct (Z.eqb_spec t (PCI_BAR_UNMAPPED H)) as [Ev|Ev]; simpl in E.
    + injection E as <- <-. split.
      * intros r. rewrite Hout, Tu, Hr.
        pose proof (windows_set_bar s index b
                      (set_addr b (PCI_BAR_UNMAPPED H)) r Hb) as Hw.
        rewrite Hgone, Hold in Hw. lia.
      * by apply (in_step_quiet_insert s index b).
    + unfold pci_map_bar in E. cbn [set_bar bar] in E.
      rewrite list_lookup_insert_eq in E by (by rewrite length_insert).
      simpl in E. rewrite Ho in E. simpl in E.
      injection E as <- <-. split.
      * intros r. rewrite Tm, Hin, Hout, Tu, Hr.
        pose proof (windows_set_bar s index b (set_addr b t) r Hb) as Hw.
        rewrite Hold, Hnew in Hw by done.
        pose proof (sum_list_lookup_le (fun q => holds H q r) (bar s) index b Hb)
          as Hle.
        cbv beta in Hle. rewrite Hold in Hle.
        unfold windows in *. cbn [set_bar bar] in *.
        rewrite list_insert_insert_eq. lia.
      * intros j q Hj Hen. cbn [set_bar bar] in Hj.
        rewrite list_insert_insert_eq in Hj.
        apply (in_step_quiet_insert s index b (set_addr b t) Hb eq_refl eq_refl
                 Hq j q); done.
Qed.

Lemma update_loop_in_step n : forall i s w s' w',
  in_step H ranges s w ->
  update_loop H xc n i (s, w) = Some (s', w') ->
  in_step H ranges s' w'.
Proof.
  induction n as [|n IH]; intros i s w s' w' Hs E.
  - by injection E as <- <-.
  - cbn [update_loop] in E.
    destruct (pci_update_bar H xc i (s, w)) as [[s1 w1]|] eqn:E1; [|done].
    simpl in E. eapply IH; [|exact E].
    by eapply pci_update_bar_in_step.
Qed.

Lemma in_step_config s w c :
  in_step H ranges s w -> bar c = bar s -> in_step H ranges c w.
Proof.
  intros [Hr Hq] Eb. split.
  - intros r. rewrite Hr. unfold windows. by rewrite Eb.
  - intros j b. rewrite Eb. apply Hq.
Qed.

Lemma run_in_step s w : run H xc ub ranges s w -> in_step H ranges s w.
Proof.
  induction 1 as [w x d i info s w' rc Hw E
                 | s w index type order o p s' _ IH Ho E
                 | s w a sz v s' w' _ IH E
                 | s w data s' w' _ IH E
                 | s w w' _ IH Hw].
  - destruct (pci_device_register_shape H xc _ _ _ _ _ _ _ _ _ E)
      as (_ & _ & Hb & _).
    assert (Hw' : forall r, ranges w' r = 0%nat).
    { intros r. unfold pci_device_register in E.
      destruct (_ || _); [by injection E as _ <- _|].
      destruct Htracks as (_ & _ & Tp).
      pose proof (Tp x d i 0 (bus info) (device info) (function info) w r)
        as Hp.
      destruct (xc_hvm_map_pcidev_to_ioreq_server _ _ _ _ _ _ _ _ _)
        as [rc' w1].
      simpl in Hp. destruct (rc' <? 0); injection E as _ <- _;
        by rewrite Hp. }
    split.
    + intros r. rewrite Hw'. unfold windows. rewrite Hb.
      change (bar pci0) with (replicate PCI_NUM_BAR (bar0 (W := W))).
      done.
    + intros j b Hj He. rewrite Hb in Hj.
      change (bar pci0) with (replicate PCI_NUM_BAR (bar0 (W := W))) in Hj.
      apply lookup_replicate in Hj as [-> _]. done.
  - destruct IH as [Hr Hq].
    destruct (pci_bar_register_inv H ub _ _ _ _ _ _ _ E)
      as (b & t & r0 & _ & Hb & He & [= <-] & _ & _ & _ & Eb & Er & Eo & Ea & _).
    split.
    + intros r. rewrite Hr. unfold windows. rewrite Eb.
      pose proof (sum_list_insert (fun b => holds H b r) (bar s) _ b r0 Hb)
        as Hs.
      cbv beta in Hs.
      rewrite (holds_disabled b r He), (holds_unmapped r0 r Ea) in Hs. lia.
    + intros j q Hj Hen. rewrite Eb in Hj.
      destruct (decide (Z.to_nat (u32 index) = j)) as [<-|Hne].
      * rewrite list_lookup_insert_eq in Hj by (by eapply lookup_lt_Some).
        injection Hj as <-. by exists o.
      * rewrite list_lookup_insert_ne in Hj by done. by apply (Hq j q).
  - unfold pci_config_write in E.
    destruct (negb _); [by injection E as <- <-|].
    eapply update_loop_in_step; [|exact E].
    apply (in_step_config s); [done|].
    apply config_write_loop_other.
  - unfold pci_config_resume in E.
    eapply update_loop_in_step; [|exact E].
    by apply (in_step_config s).
  - destruct IH as [Hr Hq]. split; [|done]. intros r. by rewrite Hw.
Qed.

(** X16.  The hypervisor and the device agree on what is mapped.  If
    mapping a range adds it to the ranges the hypervisor forwards,
    unmapping takes it away, and the [map] and [unmap] hooks of the
    registered tables make no hypervisor call, then after any sequence of
    registrations, configuration writes and resumes the ranges mapped at
    the hypervisor are exactly the windows of the BARs that are enabled
    and mapped, each as often as a BAR has it: no range is left mapped
    when a BAR moves or is switched off, and none is mapped twice. *)
Theorem mapped_ranges_are_bar_windows s w r :
  run H xc ub ranges s w -> ranges w r = windows H s r.
Proof. intros Hrun. by apply (run_in_step s w Hrun). Qed.

End TrackingFacts.

Lemma book_tracks : tracks book_xc count_range.
Proof.
  split; [|split].
  - intros x d i m a e w r. cbn [book_xc xc_hvm_map_io_range_to_ioreq_server
      count_range]. lia.
  - intros x d i m a e w r.
    cbn [book_xc xc_hvm_unmap_io_range_from_ioreq_server].
    induction w as [|y w IH]; [done|]. cbn [remove_range count_range].
    destruct (decide (y = (m, a, e))) as [->|Hy].
    + rewrite (bool_decide_eq_true_2 ((m, a, e) = (m, a, e))) by done.
      lia.
    + rewrite (bool_decide_eq_false_2 (y = (m, a, e))) by done.
      cbn [count_range]. rewrite IH.
      destruct (decide ((m, a, e) = r)) as [<-|Hr].
      * rewrite (bool_decide_eq_false_2 (y = (m, a, e))) by done. lia.
      * rewrite (bool_decide_eq_false_2 ((m, a, e) = r)) by done. lia.
  - done.
Qed.

Lemma idle_ops_quiet : quiet_hooks count_range idle_ops.
Proof. split; intros f Hf; discriminate. Qed.

(** The demonstration device, BAR 0 programmed to 0xfebc0000: the one
    range the hypervisor has is the 4 KiB window of the BAR. *)
Lemma mapped_ranges_are_bar_windows_witness :
  let s := demo_state idle_ops [] in
  let w := [(1, 0xfebc0000, 0xfebc0fff)] in
  (tracks book_xc count_range
   /\ run pci_regs book_xc zero_shifts count_range s w)
  /\ count_range w (1, 0xfebc0000, 0xfebc0fff)
     = windows pci_regs s (1, 0xfebc0000, 0xfebc0fff).
Proof.
  intros s w.
  assert (Hrun : run pci_regs book_xc zero_shifts count_range s w).
  { apply (run_write _ _ _ _ (demo_registered idle_ops []) []
             (demo_cfg 0x10) 4 0xfebc0000 s w);
      [|vm_compute; reflexivity].
    apply (run_bar _ _ _ _
             (pci_device_register pci_regs book_xc (pci0, []) 0 0 0
                demo_info).1.1 [] 0 0x08 12 idle_ops 0);
      [|apply idle_ops_quiet|vm_compute; reflexivity].
    apply (run_device _ _ _ _ [] 0 0 0 demo_info _ [] 0); [done|].
    vm_compute. reflexivity. }
  split; [split; [exact book_tracks | exact Hrun]|].
  exact (mapped_ranges_are_bar_windows pci_regs book_xc zero_shifts
           count_range book_tracks s w (1, 0xfebc0000, 0xfebc0fff) Hrun).
Defined.

End PciTrackFacts.

(** * Facts about the generator *)

Module CreateAuthFacts.
Import CreateAuth ByteFacts.

(** ** Buffers *)

Section Buffers.

Lemma memcpy_middle (A old B src : list Z) (k : Z) :
  k = Z.of_nat (length A) -> length src = length old ->
  memcpy (A ++ old ++ B) k src = A ++ src ++ B.
Proof.
  intros -> Hlen. unfold memcpy. rewrite Nat2Z.id.
  replace (length A) with (length A + 0)%nat by lia.
  rewrite list_inserts_app_r. f_equal. by apply list_inserts_0_r.
Qed.

(** A buffer seen as a sequence of segments: a [memcpy] of the size of
    one of them, at its offset, replaces it. *)
Lemma memcpy_concat (segs : list (list Z)) (i : nat) (old src : list Z) (k : Z) :
  segs !! i = Some old ->
  length src = length old ->
  k = Z.of_nat (length (concat (take i segs))) ->
  memcpy (concat segs) k src = concat (<[i := src]> segs).
Proof.
  intros Hi Hlen Hk.
  rewrite insert_take_drop by (by eapply lookup_lt_Some).
  rewrite <- (take_drop_middle segs i old Hi) at 1.
  rewrite !concat_app, !concat_cons. by apply memcpy_middle.
Qed.

Lemma le_bytes_wrap n : forall v, le_bytes n (v mod 2 ^ (8 * Z.of_nat n)) = le_bytes n v.
Proof.
  intros v. apply list_eq. intros i.
  destruct (decide (i < n)%nat) as [Hi|Hi].
  - rewrite !lookup_le_bytes by done. f_equal. unfold u8.
    apply Z.bits_inj'. intros j Hj.
    destruct (Z.ltb_spec j 8).
    + rewrite !Z.mod_pow2_bits_low, !Z.shiftr_spec by lia.
      rewrite Z.mod_pow2_bits_low by lia. done.
    + by rewrite !Z.mod_pow2_bits_high by lia.
  - rewrite !lookup_ge_None_2; [done | |]; rewrite length_le_bytes; lia.
Qed.

Lemma le_bytes_u32 v : le_bytes 4 (u32 v) = le_bytes 4 v.
Proof. apply (le_bytes_wrap 4). Qed.

Lemma u32_add_r a b : u32 (a + u32 b) = u32 (a + b).
Proof. unfold u32. by rewrite Z.add_mod_idemp_r. Qed.

Lemma length_EFI_TIME_bytes t : length (EFI_TIME_bytes t) = 16%nat.
Proof. reflexivity. Qed.

Variable uninit : nat -> Z.

(** [n] bytes of unspecified content, those from [start] on. *)
Lemma malloc_split (a b : nat) :
  malloc uninit (a + b) = malloc uninit a ++ List.map uninit (seq a b).
Proof. unfold malloc. by rewrite seq_app, map_app. Qed.

Lemma junk_split (start a b : nat) :
  List.map uninit (seq start (a + b))
  = List.map uninit (seq start a) ++ List.map uninit (seq (start + a) b).
Proof. by rewrite seq_app, map_app. Qed.

Lemma length_junk (start n : nat) : length (List.map uninit (seq start n)) = n.
Proof. by rewrite length_map, length_seq. Qed.

Lemma length_malloc (n : nat) : length (malloc uninit n) = n.
Proof. apply length_junk. Qed.

End Buffers.

(** Replace the segment [i] of a buffer written as [concat] of its
    segments; the side conditions are lengths. *)
Ltac poke i :=
  erewrite (memcpy_concat _ i);
  [ cbn [list_insert insert]
  | reflexivity
  | cbn [length];
    rewrite ?length_junk, ?length_le_bytes, ?length_vec_to_list,
      ?length_EFI_TIME_bytes; try reflexivity; try lia
  | cbn [take concat]; rewrite ?length_app; cbn [length];
    rewrite ?length_junk, ?length_le_bytes, ?length_vec_to_list,
      ?length_EFI_TIME_bytes; try reflexivity; try lia ].

Section ToolFacts.

Context {X509 EVP_PKEY : Type}.
Variable E : efi_h.
Variable PEM_read_X509 : string -> option X509.
Variable i2d_X509 : X509 -> option (list Z).
Variable PKCS7_sign_detached_sha256 :
  option X509 -> EVP_PKEY -> list Z -> option (list Z).
Variable uninit : nat -> Z.
Variable PEM_read_PrivateKey : string -> option EVP_PKEY.
Variable fopen_w : string -> bool.
Variable fwrite_count : string -> list Z -> list Z -> nat.

(** ** The name *)

Lemma length_list_ascii_of_string (arg : string) :
  length (list_ascii_of_string arg) = String.length arg.
Proof. induction arg as [|c arg IH]; simpl; [done | by rewrite IH]. Qed.

Lemma name_loop_spec (chars : list ascii) : forall i done rest,
  length done = (i * 2)%nat ->
  length rest = (length chars * 2)%nat ->
  name_loop chars i (done ++ rest)
  = done ++ flat_map (fun c => [char_byte c; 0]) chars.
Proof.
  induction chars as [|c chars IH]; intros i done rest Hd Hr.
  - destruct rest; [|done]. done.
  - destruct rest as [|j0 [|j1 rest]]; try (simpl in Hr; lia).
    cbn [name_loop flat_map].
    rewrite <- Hd.
    rewrite (insert_app_r_alt done _ (length done)) by lia.
    rewrite Nat.sub_diag. cbn [list_insert insert].
    rewrite (insert_app_r_alt done _ (length done + 1)) by lia.
    replace (length done + 1 - length done)%nat with 1%nat by lia.
    cbn [list_insert insert].
    change (done ++ char_byte c :: 0 :: rest)
      with (done ++ [char_byte c; 0] ++ rest).
    rewrite (assoc_L (++)). rewrite IH.
    + by rewrite <- (assoc_L (++)).
    + rewrite length_app. simpl. lia.
    + simpl in Hr. lia.
Qed.

Lemma name_arg_spec (arg : string) :
  name_arg uninit arg = (name_ucs2 arg, length (name_ucs2 arg)).
Proof.
  unfold name_arg, name_ucs2.
  assert (Hl : length (flat_map (fun c => [char_byte c; 0])
                         (list_ascii_of_string arg))
               = (String.length arg * 2)%nat).
  { rewrite <- length_list_ascii_of_string.
    induction (list_ascii_of_string arg) as [|c l IH]; simpl; [done|].
    rewrite IH. lia. }
  rewrite Hl. f_equal.
  rewrite <- (app_nil_l (malloc uninit _)).
  rewrite name_loop_spec; [done | done |].
  by rewrite length_malloc, length_list_ascii_of_string.
Qed.

(** ** The signed buffer *)

Lemma sign_data_buf_spec (name : list Z) (guid : EFI_GUID) (attr : Z)
    (timestamp : EFI_TIME) (data : list Z) :
  sign_data_buf uninit name (length name) guid attr timestamp data
    (length data)
  = name ++ vec_to_list guid ++ le_bytes 4 attr
    ++ EFI_TIME_bytes timestamp ++ data.
Proof.
  unfold sign_data_buf, GUID_LEN. rewrite !firstn_all.
  rewrite !malloc_split.
  set (j0 := malloc uninit (length name)).
  set (j1 := List.map uninit (seq _ 16)).
  set (j2 := List.map uninit (seq _ 4)).
  set (j3 := List.map uninit (seq _ 16)).
  set (j4 := List.map uninit (seq _ (length data))).
  assert (H0 : length j0 = length name) by apply length_malloc.
  assert (H1 : length j1 = 16%nat) by apply length_junk.
  assert (H2 : length j2 = 4%nat) by apply length_junk.
  assert (H3 : length j3 = 16%nat) by apply length_junk.
  assert (H4 : length j4 = length data) by apply length_junk.
  replace ((((j0 ++ j1) ++ j2) ++ j3) ++ j4)
    with (concat [j0; j1; j2; j3; j4])
    by (cbn [concat]; rewrite app_nil_r, !(assoc_L (++)); done).
  poke 0%nat. poke 1%nat. poke 2%nat. poke 3%nat. poke 4%nat.
  cbn [concat]. by rewrite app_nil_r.
Qed.

(** ** The descriptor *)

Lemma create_descriptor_spec (sig_len : nat) (timestamp : EFI_TIME) :
  let '(d, descriptor_len) := create_descriptor E uninit sig_len timestamp in
  take descriptor_len d = descriptor_bytes E timestamp sig_len
  /\ descriptor_len = 40%nat.
Proof.
  unfold create_descriptor, descriptor_bytes.
  unfold offsetof_TimeStamp, offsetof_CertType, offsetof_dwLength,
    offsetof_wRevision, offsetof_wCertificateType,
    offsetof_WIN_CERTIFICATE_UEFI_GUID_CertData, offsetof_AuthInfo_CertData,
    sizeof_EFI_VARIABLE_AUTHENTICATION_2.
  change 41%nat with (16 + 4 + 2 + 2 + 16 + 1)%nat.
  rewrite !malloc_split.
  set (j0 := malloc uninit 16).
  set (j1 := List.map uninit (seq _ 4)).
  set (j2 := List.map uninit (seq _ 2)).
  set (j3 := List.map uninit (seq _ 2)).
  set (j4 := List.map uninit (seq _ 16)).
  set (j5 := List.map uninit (seq _ 1)).
  assert (H0 : length j0 = 16%nat) by apply length_malloc.
  assert (H1 : length j1 = 4%nat) by apply length_junk.
  assert (H2 : length j2 = 2%nat) by apply length_junk.
  assert (H3 : length j3 = 2%nat) by apply length_junk.
  assert (H4 : length j4 = 16%nat) by apply length_junk.
  replace (((((j0 ++ j1) ++ j2) ++ j3) ++ j4) ++ j5)
    with (concat [j0; j1; j2; j3; j4; j5])
    by (cbn [concat]; rewrite app_nil_r, !(assoc_L (++)); done).
  poke 0%nat. poke 4%nat. poke 1%nat. poke 2%nat. poke 3%nat.
  split; [|done]. cbn [concat]. rewrite app_nil_r, le_bytes_u32.
  rewrite !(assoc_L (++)). apply take_app_length'.
  rewrite !length_app, !length_le_bytes, length_vec_to_list. reflexivity.
Qed.

(** ** The signature lists *)

Lemma signature_list_sizes (owner : EFI_GUID) (der : list Z) :
  signature_list E owner der
  = vec_to_list (gEfiCertX509Guid E)
    ++ le_bytes 4 (u32 (Z.of_nat sizeof_EFI_SIGNATURE_LIST
                        + u32 (Z.of_nat (offsetof_SignatureData + length der))))
    ++ le_bytes 4 0
    ++ le_bytes 4 (u32 (Z.of_nat (offsetof_SignatureData + length der)))
    ++ vec_to_list owner ++ der.
Proof.
  unfold signature_list, sizeof_EFI_SIGNATURE_LIST, offsetof_SignatureData.
  rewrite u32_add_r, !le_bytes_u32. do 2 f_equal. f_equal. lia.
Qed.

Lemma length_signature_list (owner : EFI_GUID) (der : list Z) :
  length (signature_list E owner der) = (28 + 16 + length der)%nat.
Proof.
  unfold signature_list.
  rewrite !length_app, !length_le_bytes, !length_vec_to_list. lia.
Qed.

Lemma sig_list_loop_spec (vendor_guid : EFI_GUID) (certs : list X509) :
  forall data,
    sig_list_loop E i2d_X509 uninit certs vendor_guid data
      (length data) (length data)
    = ders ← mapM i2d_X509 certs;
      Some (data ++ concat (List.map (signature_list E vendor_guid) ders),
            length (data ++ concat (List.map (signature_list E vendor_guid)
                                      ders))).
Proof.
  induction certs as [|c certs IH]; intros data.
  - simpl. by rewrite app_nil_r.
  - cbn [sig_list_loop mapM]. cbn [mbind option_bind].
    destruct (i2d_X509 c) as [der|]; [|done]. cbn [mbind option_bind].
    unfold realloc.
    unfold sizeof_EFI_SIGNATURE_LIST, offsetof_SignatureData,
      offsetof_SignatureHeaderSize, offsetof_SignatureSize,
      offsetof_SignatureListSize, offsetof_SignatureType,
      offsetof_SignatureOwner.
    replace (length data + (28 + 16 + length der) - length data)%nat
      with (16 + 4 + 4 + 4 + 16 + length der)%nat by lia.
    rewrite !junk_split.
    set (j0 := List.map uninit (seq _ 16)).
    set (j1 := List.map uninit (seq _ 4)).
    set (j2 := List.map uninit (seq _ 4)).
    set (j3 := List.map uninit (seq _ 4)).
    set (j4 := List.map uninit (seq _ 16)).
    set (j5 := List.map uninit (seq _ (length der))).
    assert (H0 : length j0 = 16%nat) by apply length_junk.
    assert (H1 : length j1 = 4%nat) by apply length_junk.
    assert (H2 : length j2 = 4%nat) by apply length_junk.
    assert (H3 : length j3 = 4%nat) by apply length_junk.
    assert (H4 : length j4 = 16%nat) by apply length_junk.
    assert (H5 : length j5 = length der) by apply length_junk.
    replace (data ++ ((((j0 ++ j1) ++ j2) ++ j3) ++ j4) ++ j5)
      with (concat [data; j0; j1; j2; j3; j4; j5])
      by (cbn [concat]; rewrite app_nil_r, !(assoc_L (++)); done).
    poke 3%nat. poke 4%nat. poke 2%nat. poke 1%nat. poke 5%nat. poke 6%nat.
    cbn [concat]. rewrite app_nil_r.
    pose proof (signature_list_sizes vendor_guid der) as Hs.
    unfold sizeof_EFI_SIGNATURE_LIST, offsetof_SignatureData in Hs.
    rewrite <- Hs. clear Hs.
    set (D := data ++ signature_list E vendor_guid der).
    assert (HD : length D = (length data + (28 + 16 + length der))%nat).
    { subst D. rewrite length_app, length_signature_list. lia. }
    rewrite <- HD.
    replace (length data + 28 + 16 + length der)%nat with (length D) by lia.
    rewrite IH. subst D.
    destruct (mapM i2d_X509 certs) as [ders|]; [|done]. simpl.
    by rewrite <- !(assoc_L (++)).
Qed.

Lemma certs_to_sig_list_spec (vendor_guid : EFI_GUID) (certs : list X509) :
  certs_to_sig_list E i2d_X509 uninit certs vendor_guid
  = ders ← mapM i2d_X509 certs;
    Some (concat (List.map (signature_list E vendor_guid) ders),
          length (concat (List.map (signature_list E vendor_guid) ders))).
Proof. apply (sig_list_loop_spec vendor_guid certs []). Qed.

(** ** main *)

#[local] Abbreviation main' :=
  (main E PEM_read_X509 i2d_X509 PKCS7_sign_detached_sha256 uninit
     PEM_read_PrivateKey fopen_w fwrite_count).
#[local] Abbreviation option_loop' :=
  (option_loop PEM_read_X509 PEM_read_PrivateKey).
#[local] Abbreviation stream_takes' := (stream_takes fopen_w fwrite_count).
#[local] Abbreviation payload_of arg ders :=
  (concat (List.map (signature_list E (select_vendor_guid arg)) ders)).
#[local] Abbreviation signature_of' :=
  (signature_of PKCS7_sign_detached_sha256).

Lemma length_descriptor_bytes (t : EFI_TIME) (sig_len : nat) :
  length (descriptor_bytes E t sig_len) = 40%nat.
Proof.
  unfold descriptor_bytes.
  by rewrite !length_app, !length_le_bytes, length_vec_to_list.
Qed.

(** What a run is, with the buffers gone: the options are read, the
    arguments are checked, the certificates are read and encoded, the
    message is signed when there is a key, and the descriptor, the
    signature and the signature lists go to the output file. *)
Lemma main_spec (opts : list (ascii * string)) (args : list string)
    (now : option tm) :
  main' opts args now
  = match option_loop' opts None None with
    | inl status => (status, None)
    | inr (sign_key, sign_cert) =>
        if (negb (is_null sign_key) && is_null sign_cert)
           || (is_null sign_key && negb (is_null sign_cert))
        then (1, None)
        else
          match args with
          | arg :: out_file :: ((_ :: _) as cert_files) =>
              match
                guid ← select_guid E arg;
                certs ← mapM PEM_read_X509 cert_files;
                t ← now;
                ders ← mapM i2d_X509 certs;
                sig ← signature_of' sign_key sign_cert
                        (signed_message arg guid (attributes E)
                           (timestamp_of t) (payload_of arg ders));
                Some (t, ders, sig)
              with
              | None => (1, None)
              | Some (t, ders, sig) =>
                  let d := descriptor_bytes E (timestamp_of t) (length sig) in
                  let payload := payload_of arg ders in
                  if negb (fopen_w out_file) then (1, None) else
                  if negb (fwrite_count out_file [] d =? length d)%nat
                  then (1, Some (out_file,
                                 take (fwrite_count out_file [] d) d))
                  else if negb (fwrite_count out_file d sig =? length sig)%nat
                  then (1, Some (out_file,
                                 d ++ take (fwrite_count out_file d sig) sig))
                  else if negb (fwrite_count out_file (d ++ sig) payload
                                =? length payload)%nat
                  then (1, Some (out_file,
                                 (d ++ sig)
                                 ++ take (fwrite_count out_file (d ++ sig)
                                            payload) payload))
                  else (0, Some (out_file, d ++ sig ++ payload))
              end
          | _ => (1, None)
          end
    end.
Proof.
  unfold main.
  destruct (option_loop' opts None None) as [status|[sign_key sign_cert]];
    [done|].
  destruct (_ && _ || _ && _); [done|]. cbn [orb].
  destruct args as [|arg [|out_file [|file files]]]; try done.
  change (length (arg :: out_file :: file :: files) <? 3)%nat with false.
  cbn match. rewrite name_arg_spec.
  destruct (select_guid E arg) as [guid|]; [|done]. cbn [mbind option_bind].
  destruct (mapM PEM_read_X509 (file :: files)) as [certs|]; [|done].
  cbn [mbind option_bind].
  destruct now as [t|]; [|done]. cbn [mbind option_bind].
  rewrite certs_to_sig_list_spec.
  destruct (mapM i2d_X509 certs) as [ders|]; [|done]. cbn [mbind option_bind].
  unfold sign_data. rewrite sign_data_buf_spec, le_bytes_u32.
  fold (attributes E).
  fold (signed_message arg guid (attributes E) (timestamp_of t)
          (payload_of arg ders)).
  fold (signature_of' sign_key sign_cert
          (signed_message arg guid (attributes E) (timestamp_of t)
             (payload_of arg ders))).
  destruct (signature_of' sign_key sign_cert _) as [sig|]; [|done].
  cbn [mbind option_bind].
  pose proof (create_descriptor_spec (length sig) (timestamp_of t)) as Hd.
  destruct (create_descriptor E uninit (length sig) (timestamp_of t))
    as [d descriptor_len].
  destruct Hd as [Hd ->]. cbv zeta.
  destruct (fopen_w out_file); [|done]. cbn [negb].
  unfold fwrite. rewrite Hd, !firstn_all, length_descriptor_bytes.
  cbn [app].
  set (D := descriptor_bytes E (timestamp_of t) (length sig)).
  set (P := payload_of arg ders).
  assert (HD : take 40 D = D).
  { apply take_ge. subst D. by rewrite length_descriptor_bytes. }
  destruct (fwrite_count out_file [] D =? 40)%nat eqn:E1; cbn [negb]; [|done].
  apply Nat.eqb_eq in E1. rewrite E1, !HD.
  destruct (fwrite_count out_file D sig =? length sig)%nat eqn:E2;
    cbn [negb]; [|done].
  apply Nat.eqb_eq in E2. rewrite E2, firstn_all.
  destruct (fwrite_count out_file (D ++ sig) P =? length P)%nat eqn:E3;
    cbn [negb]; [|done].
  apply Nat.eqb_eq in E3. by rewrite E3, firstn_all, <- (assoc_L (++)).
Qed.

Lemma main_inv opts args now out_file bytes :
  main' opts args now = (0, Some (out_file, bytes)) ->
  exists sign_key sign_cert arg files guid certs t ders sig,
    option_loop' opts None None = inr (sign_key, sign_cert)
    /\ is_null sign_key = is_null sign_cert
    /\ args = arg :: out_file :: files
    /\ files <> []
    /\ select_guid E arg = Some guid
    /\ mapM PEM_read_X509 files = Some certs
    /\ now = Some t
    /\ mapM i2d_X509 certs = Some ders
    /\ signature_of' sign_key sign_cert
         (signed_message arg guid (attributes E) (timestamp_of t)
            (payload_of arg ders)) = Some sig
    /\ stream_takes' out_file
         (descriptor_bytes E (timestamp_of t) (length sig)) sig
         (payload_of arg ders)
    /\ bytes = descriptor_bytes E (timestamp_of t) (length sig) ++ sig
               ++ payload_of arg ders.
Proof.
  rewrite main_spec.
  destruct (option_loop' opts None None) as [status|[sign_key sign_cert]];
    [done|].
  destruct (_ && _ || _ && _) eqn:Hkc; [done|].
  destruct args as [|arg [|out [|file files]]]; try done.
  destruct (select_guid E arg) as [guid|] eqn:Hg; [|done].
  cbn [mbind option_bind].
  destruct (mapM PEM_read_X509 (file :: files)) as [certs|] eqn:Hc; [|done].
  cbn [mbind option_bind].
  destruct now as [t|]; [|done]. cbn [mbind option_bind].
  destruct (mapM i2d_X509 certs) as [ders|] eqn:Hd; [|done].
  cbn [mbind option_bind].
  destruct (signature_of' sign_key sign_cert _) as [sig|] eqn:Hsig; [|done].
  cbn [mbind option_bind]. cbv zeta.
  destruct (fopen_w out) eqn:Ho; cbn [negb]; [|done].
  destruct (_ =? _)%nat eqn:E1; cbn [negb]; [|done].
  destruct (fwrite_count out _ sig =? _)%nat eqn:E2; cbn [negb]; [|done].
  destruct (fwrite_count out (_ ++ sig) _ =? _)%nat eqn:E3; cbn [negb]; [|done].
  intros [= <- <-].
  apply Nat.eqb_eq in E1, E2, E3.
  exists sign_key, sign_cert, arg, (file :: files), guid, certs, t, ders, sig.
  split; [done|]. split.
  { by destruct sign_key, sign_cert. }
  repeat split; done.
Qed.



Lemma option_loop_keeps opts : forall sign_key sign_cert k c,
  option_loop' opts sign_key sign_cert = inr (k, c) ->
  (is_Some sign_key -> is_Some k) /\ (is_Some sign_cert -> is_Some c).
Proof.
  induction opts as [|[ch optarg] opts IH]; intros sign_key sign_cert k c.
  { by intros [= <- <-]. }
  cbn [option_loop].
  destruct (Ascii.eqb ch "c").
  { destruct (PEM_read_X509 optarg) as [x|]; [|done]. intros Hl.
    destruct (IH _ _ _ _ Hl) as [H1 H2]. split; [done|]. intros _. by apply H2. }
  destruct (Ascii.eqb ch "k").
  { destruct (PEM_read_PrivateKey optarg) as [y|]; [|done]. intros Hl.
    destruct (IH _ _ _ _ Hl) as [H1 H2]. split; [|done]. intros _. by apply H1. }
  by destruct (Ascii.eqb ch "h").
Qed.

Lemma option_loop_none opts :
  option_loop' opts None None = inr (None, None) <-> opts = [].
Proof.
  split; [|by intros ->].
  destruct opts as [|[ch optarg] opts]; [done|]. cbn [option_loop].
  destruct (Ascii.eqb ch "c").
  { destruct (PEM_read_X509 optarg) as [x|]; [|done]. intros Hl.
    destruct (option_loop_keeps _ _ _ _ _ Hl) as [_ Hc].
    by destruct Hc. }
  destruct (Ascii.eqb ch "k").
  { destruct (PEM_read_PrivateKey optarg) as [y|]; [|done]. intros Hl.
    destruct (option_loop_keeps _ _ _ _ _ Hl) as [Hk _].
    by destruct Hk. }
  by destruct (Ascii.eqb ch "h").
Qed.


Lemma select_guid_inv (arg : string) (guid : EFI_GUID) :
  select_guid E arg = Some guid ->
  (arg = "PK"%string \/ arg = "KEK"%string)
    /\ guid = gEfiGlobalVariableGuid E
  \/ (arg = "db"%string \/ arg = "dbx"%string)
    /\ guid = gEfiImageSecurityDatabaseGuid E.
Proof.
  unfold select_guid.
  destruct (String.eqb_spec arg "PK"), (String.eqb_spec arg "KEK"),
    (String.eqb_spec arg "db"), (String.eqb_spec arg "dbx");
    simpl; intros [= <-]; auto.
Qed.

Lemma select_guid_other (arg : string) :
  arg <> "PK"%string -> arg <> "KEK"%string ->
  arg <> "db"%string -> arg <> "dbx"%string ->
  select_guid E arg = None.
Proof.
  intros H1 H2 H3 H4. unfold select_guid.
  destruct (String.eqb_spec arg "PK"), (String.eqb_spec arg "KEK"),
    (String.eqb_spec arg "db"), (String.eqb_spec arg "dbx"); done.
Qed.

Lemma signature_list_owner (owner : EFI_GUID) (der : list Z) :
  take 16 (drop 28 (signature_list E owner der)) = vec_to_list owner.
Proof.
  unfold signature_list. rewrite !(assoc_L (++)).
  rewrite <- (assoc_L (++) _ (vec_to_list owner) der).
  rewrite drop_app_length'
    by (rewrite !length_app, !length_le_bytes, length_vec_to_list; done).
  apply take_app_length'. by rewrite length_vec_to_list.
Qed.

Lemma signature_of_cases sign_key sign_cert msg sig :
  signature_of' sign_key sign_cert msg = Some sig ->
  match sign_key with
  | None => sig = []
  | Some k => PKCS7_sign_detached_sha256 sign_cert k msg = Some sig
  end.
Proof. destruct sign_key; [done|]. by intros [= <-]. Qed.

(** ** The owner in the payload *)

Lemma length_lists_before (owner : EFI_GUID) (ders : list (list Z)) (i : nat) :
  length (concat (take i (List.map (signature_list E owner) ders)))
  = list_offset ders i.
Proof.
  unfold list_offset. revert i.
  induction ders as [|der ders IH]; intros [|i]; try done.
  cbn [List.map take concat sum_list sum_list_with].
  rewrite length_app, length_signature_list, IH. unfold id. lia.
Qed.

(** The signature list of index [i] begins at [list_offset ders i] in
    the payload, and its owner is 28 bytes further. *)
Lemma payload_owner (owner : EFI_GUID) (ders : list (list Z)) (i : nat)
    (der : list Z) :
  ders !! i = Some der ->
  take 16 (drop (list_offset ders i + 28)
             (concat (List.map (signature_list E owner) ders)))
  = vec_to_list owner.
Proof.
  intros Hi.
  assert (Hl : List.map (signature_list E owner) ders !! i
               = Some (signature_list E owner der)).
  { by rewrite list_lookup_fmap, Hi. }
  rewrite <- (take_drop_middle _ i _ Hl), concat_app, concat_cons.
  rewrite <- (length_lists_before owner ders i), <- drop_drop.
  rewrite drop_app_length.
  rewrite drop_app_le by (rewrite length_signature_list; lia).
  rewrite take_app_le.
  - apply signature_list_owner.
  - rewrite length_drop, length_signature_list. lia.
Qed.

Lemma file_owner (owner : EFI_GUID) (d sig : list Z) (ders : list (list Z))
    (i : nat) (der : list Z) :
  length d = 40%nat ->
  ders !! i = Some der ->
  take 16 (drop (40 + length sig + list_offset ders i + 28)
             (d ++ sig ++ concat (List.map (signature_list E owner) ders)))
  = vec_to_list owner.
Proof.
  intros Hd Hi.
  replace (40 + length sig + list_offset ders i + 28)%nat
    with (length (d ++ sig) + (list_offset ders i + 28))%nat
    by (rewrite length_app; lia).
  rewrite (assoc_L (++)), <- drop_drop, drop_app_length.
  by eapply payload_owner.
Qed.

(** C1.  The bytes handed to the PKCS#7 signer are the name, the GUID
    of the variable (16 bytes), the attributes (4 bytes, little-endian),
    the timestamp (16 bytes) and the data, in this order and with nothing
    else; in a run with a signing key and certificate the name is the
    variable name in UCS-2 and the data is the payload, the signature
    lists that follow the descriptor and the signature in the file. *)
Theorem signed_message_of_run :
  (forall cert key name guid attr timestamp data,
      sign_data PKCS7_sign_detached_sha256 uninit cert (Some key)
        name (length name) guid attr timestamp data (length data)
      = PKCS7_sign_detached_sha256 cert key
          (name ++ vec_to_list guid ++ le_bytes 4 attr
           ++ EFI_TIME_bytes timestamp ++ data))
  /\ (forall key cert opts args now out_file bytes,
      option_loop' opts None None = inr (Some key, Some cert) ->
      main' opts args now = (0, Some (out_file, bytes)) ->
      exists arg guid t sig payload,
        head args = Some arg
        /\ select_guid E arg = Some guid
        /\ now = Some t
        /\ length (descriptor_bytes E (timestamp_of t) (length sig)) = 40%nat
        /\ bytes = descriptor_bytes E (timestamp_of t) (length sig)
                   ++ sig ++ payload
        /\ PKCS7_sign_detached_sha256 (Some cert) key
             (name_ucs2 arg ++ vec_to_list guid
              ++ le_bytes 4 (attributes E)
              ++ EFI_TIME_bytes (timestamp_of t) ++ payload)
           = Some sig).
Proof.
  split.
  - intros cert key name guid attr timestamp data.
    unfold sign_data. by rewrite sign_data_buf_spec.
  - intros key cert opts args now out_file bytes Ho Hrun.
    destruct (main_inv _ _ _ _ _ Hrun)
      as (sign_key & sign_cert & arg & files & guid & certs & t & ders & sig
          & Ho' & _ & -> & _ & Hg & _ & -> & _ & Hsig & _ & ->).
    rewrite Ho in Ho'. injection Ho' as <- <-.
    exists arg, guid, t, sig, (payload_of arg ders).
    repeat split; try done. apply length_descriptor_bytes.
Qed.

(** C7.  The file a successful run writes is the
    [EFI_VARIABLE_AUTHENTICATION_2] descriptor up to [CertData] (40
    bytes: the timestamp, [dwLength], which is the length of the
    signature plus the offset 24 of [CertData] in
    [WIN_CERTIFICATE_UEFI_GUID], [wRevision] 0x0200, [wCertificateType]
    [WIN_CERT_TYPE_EFI_GUID] and the PKCS#7 certificate-type GUID), then
    the signature, then one signature list with a single entry for each
    certificate file, in the order of the command line. *)
Theorem auth_file_layout opts args now out_file bytes :
  main' opts args now = (0, Some (out_file, bytes)) ->
  exists sign_key sign_cert arg files certs ders t sig,
    option_loop' opts None None = inr (sign_key, sign_cert)
    /\ args = arg :: out_file :: files
    /\ mapM PEM_read_X509 files = Some certs
    /\ mapM i2d_X509 certs = Some ders
    /\ now = Some t
    /\ match sign_key with
       | None => sig = []
       | Some k =>
           exists guid,
             select_guid E arg = Some guid
             /\ PKCS7_sign_detached_sha256 sign_cert k
                  (signed_message arg guid (attributes E) (timestamp_of t)
                     (concat (List.map
                                (signature_list E (select_vendor_guid arg))
                                ders)))
                = Some sig
       end
    /\ bytes
       = (EFI_TIME_bytes (timestamp_of t)
          ++ le_bytes 4 (Z.of_nat (length sig + 24))
          ++ le_bytes 2 0x0200
          ++ le_bytes 2 WIN_CERT_TYPE_EFI_GUID
          ++ vec_to_list (gEfiCertPkcs7Guid E))
         ++ sig
         ++ concat (List.map (signature_list E (select_vendor_guid arg)) ders).
Proof.
  intros Hrun.
  destruct (main_inv _ _ _ _ _ Hrun)
    as (sign_key & sign_cert & arg & files & guid & certs & t & ders & sig
        & Ho & _ & -> & _ & Hg & Hc & -> & Hd & Hsig & _ & ->).
  exists sign_key, sign_cert, arg, files, certs, ders, t, sig.
  repeat split; try done.
  apply signature_of_cases in Hsig.
  destruct sign_key as [k|]; [by exists guid | done].
Qed.

(** C8.  The variable GUID is the global-variable GUID for PK and KEK and
    the image-security-database GUID for db and dbx; a run for any other
    name is rejected: it opens no file, and ends in [exit(1)] once the
    options are read.  In the file of a run there is one signature list
    for each certificate file of the command line, and the owner of the
    signature in each of them, the 16 bytes at the offset 28 of the list,
    is the Citrix GUID for PK and the Microsoft GUID for KEK, db and
    dbx. *)
Theorem guid_selection :
  (select_guid E "PK" = Some (gEfiGlobalVariableGuid E)
   /\ select_guid E "KEK" = Some (gEfiGlobalVariableGuid E)
   /\ select_guid E "db" = Some (gEfiImageSecurityDatabaseGuid E)
   /\ select_guid E "dbx" = Some (gEfiImageSecurityDatabaseGuid E))
  /\ (forall arg,
      arg <> "PK"%string -> arg <> "KEK"%string ->
      arg <> "db"%string -> arg <> "dbx"%string ->
      select_guid E arg = None
      /\ forall opts out_file files now,
           (main' opts (arg :: out_file :: files) now).2 = None
           /\ forall sign_key sign_cert,
                option_loop' opts None None = inr (sign_key, sign_cert) ->
                main' opts (arg :: out_file :: files) now = (1, None))
  /\ (select_vendor_guid "PK" = citrix_guid
      /\ select_vendor_guid "KEK" = microsoft_guid
      /\ select_vendor_guid "db" = microsoft_guid
      /\ select_vendor_guid "dbx" = microsoft_guid)
  /\ (forall opts args now out_file bytes,
      main' opts args now = (0, Some (out_file, bytes)) ->
      exists sign_key sign_cert arg files guid owner certs ders t sig,
        option_loop' opts None None = inr (sign_key, sign_cert)
        /\ args = arg :: out_file :: files
        /\ (arg = "PK"%string /\ guid = gEfiGlobalVariableGuid E
              /\ owner = citrix_guid
            \/ arg = "KEK"%string /\ guid = gEfiGlobalVariableGuid E
              /\ owner = microsoft_guid
            \/ (arg = "db"%string \/ arg = "dbx"%string)
              /\ guid = gEfiImageSecurityDatabaseGuid E
              /\ owner = microsoft_guid)
        /\ mapM PEM_read_X509 files = Some certs
        /\ mapM i2d_X509 certs = Some ders
        /\ (0 < length files)%nat
        /\ length ders = length files
        /\ now = Some t
        /\ match sign_key with
           | None => sig = []
           | Some k =>
               PKCS7_sign_detached_sha256 sign_cert k
                 (signed_message arg guid (attributes E) (timestamp_of t)
                    (concat (List.map (signature_list E owner) ders)))
               = Some sig
           end
        /\ bytes = descriptor_bytes E (timestamp_of t) (length sig) ++ sig
                   ++ concat (List.map (signature_list E owner) ders)
        /\ forall i der,
             ders !! i = Some der ->
             take 16 (drop (40 + length sig + list_offset ders i + 28) bytes)
             = vec_to_list owner).
Proof.
  split; [done|].
  split.
  { intros arg H1 H2 H3 H4.
    assert (Hn : select_guid E arg = None) by (by apply select_guid_other).
    split; [done|]. intros opts out_file files now.
    rewrite main_spec.
    destruct (option_loop' opts None None) as [status|[k c]]; [done|].
    assert (Hrun : (if (negb (is_null k) && is_null c)
                       || (is_null k && negb (is_null c))
                    then (1, None)
                    else match files with
                         | [] => (1, None)
                         | _ :: _ => (1, @None (string * list Z))
                         end) = (1, None)).
    { destruct (_ && _ || _ && _); [done|]. by destruct files. }
    destruct (_ && _ || _ && _); [by split|].
    destruct files as [|file files]; [by split|]. rewrite Hn. by split. }
  split; [done|].
  intros opts args now out_file bytes Hrun.
  destruct (main_inv _ _ _ _ _ Hrun)
    as (sign_key & sign_cert & arg & files & guid & certs & t & ders & sig
        & Ho & _ & -> & Hf & Hg & Hc & -> & Hd & Hsig & _ & ->).
  exists sign_key, sign_cert, arg, files, guid, (select_vendor_guid arg),
    certs, ders, t, sig.
  split; [done|]. split; [done|]. split.
  { destruct (select_guid_inv arg guid Hg) as [[[-> | ->] ->] | [[-> | ->] ->]];
      auto 6. }
  split; [done|]. split; [done|]. split.
  { destruct files; [done | simpl; lia]. }
  split.
  { apply length_mapM in Hc, Hd. lia. }
  split; [done|]. split.
  { by apply signature_of_cases in Hsig. }
  split; [done|].
  intros i der Hi. eapply file_owner; [apply length_descriptor_bytes | done].
Qed.

End ToolFacts.

(** ** The theorems at a run of the demonstration tool *)

(** [create-auth -k PK.key -c PK.pem PK PK.auth PK.pem KEK.pem]. *)
Lemma signed_message_of_run_witness :
  exists key cert out_file bytes,
    (option_loop demo_PEM_read demo_PEM_read_key demo_opts None None
     = inr (Some key, Some cert)
     /\ demo_main demo_opts ["PK"; "PK.auth"; "PK.pem"; "KEK.pem"]%string
        = (0, Some (out_file, bytes)))
    /\ exists arg guid t sig payload,
         head ["PK"; "PK.auth"; "PK.pem"; "KEK.pem"]%string = Some arg
         /\ select_guid uefi arg = Some guid
         /\ Some demo_now = Some t
         /\ length (descriptor_bytes uefi (timestamp_of t) (length sig))
            = 40%nat
         /\ bytes = descriptor_bytes uefi (timestamp_of t) (length sig)
                    ++ sig ++ payload
         /\ demo_sign (Some cert) key
              (name_ucs2 arg ++ vec_to_list guid
               ++ le_bytes 4 (attributes uefi)
               ++ EFI_TIME_bytes (timestamp_of t) ++ payload)
            = Some sig.
Proof.
  destruct (demo_main demo_opts ["PK"; "PK.auth"; "PK.pem"; "KEK.pem"]%string)
    as [status [[out_file bytes]|]] eqn:Hrun;
    [|vm_compute in Hrun; discriminate].
  assert (status = 0) as -> by (vm_compute in Hrun; congruence).
  assert (Ho : option_loop demo_PEM_read demo_PEM_read_key demo_opts None None
               = inr (Some 6, Some (List.map char_byte
                                      (list_ascii_of_string "PK.pem"))))
    by reflexivity.
  eexists _, _, out_file, bytes. split; [split; [exact Ho | reflexivity]|].
  exact (proj2 (signed_message_of_run uefi demo_PEM_read demo_i2d demo_sign
                  (fun _ => 0xcc) demo_PEM_read_key demo_fopen demo_fwrite)
           _ _ demo_opts ["PK"; "PK.auth"; "PK.pem"; "KEK.pem"]%string
           (Some demo_now) out_file bytes Ho Hrun).
Defined.

(** [create-auth -k PK.key -c PK.pem db db.auth a.pem b.pem]. *)
Lemma auth_file_layout_witness :
  exists out_file bytes,
    demo_main demo_opts ["db"; "db.auth"; "a.pem"; "b.pem"]%string
    = (0, Some (out_file, bytes))
    /\ exists sign_key sign_cert arg files certs ders t sig,
         option_loop demo_PEM_read demo_PEM_read_key demo_opts None None
         = inr (sign_key, sign_cert)
         /\ ["db"; "db.auth"; "a.pem"; "b.pem"]%string = arg :: out_file :: files
         /\ mapM demo_PEM_read files = Some certs
         /\ mapM demo_i2d certs = Some ders
         /\ Some demo_now = Some t
         /\ match sign_key with
            | None => sig = []
            | Some k =>
                exists guid,
                  select_guid uefi arg = Some guid
                  /\ demo_sign sign_cert k
                       (signed_message arg guid (attributes uefi)
                          (timestamp_of t)
                          (concat (List.map
                                     (signature_list uefi
                                        (select_vendor_guid arg))
                                     ders)))
                     = Some sig
            end
         /\ bytes
            = (EFI_TIME_bytes (timestamp_of t)
               ++ le_bytes 4 (Z.of_nat (length sig + 24))
               ++ le_bytes 2 0x0200
               ++ le_bytes 2 WIN_CERT_TYPE_EFI_GUID
               ++ vec_to_list (gEfiCertPkcs7Guid uefi))
              ++ sig
              ++ concat (List.map
                           (signature_list uefi (select_vendor_guid arg)) ders).
Proof.
  destruct (demo_main demo_opts ["db"; "db.auth"; "a.pem"; "b.pem"]%string)
    as [status [[out_file bytes]|]] eqn:Hrun;
    [|vm_compute in Hrun; discriminate].
  assert (status = 0) as -> by (vm_compute in Hrun; congruence).
  exists out_file, bytes. split; [reflexivity|].
  exact (auth_file_layout uefi demo_PEM_read demo_i2d demo_sign
           (fun _ => 0xcc) demo_PEM_read_key demo_fopen demo_fwrite
           demo_opts ["db"; "db.auth"; "a.pem"; "b.pem"]%string (Some demo_now)
           out_file bytes Hrun).
Defined.

(** A run for KEK, and the rejection of dbt. *)
Lemma guid_selection_witness :
  (exists out_file bytes,
      demo_main demo_opts ["KEK"; "KEK.auth"; "a.pem"]%string
      = (0, Some (out_file, bytes))
      /\ exists sign_key sign_cert arg files guid owner certs ders t sig,
           option_loop demo_PEM_read demo_PEM_read_key demo_opts None None
           = inr (sign_key, sign_cert)
           /\ ["KEK"; "KEK.auth"; "a.pem"]%string = arg :: out_file :: files
           /\ (arg = "PK"%string /\ guid = gEfiGlobalVariableGuid uefi
                 /\ owner = citrix_guid
               \/ arg = "KEK"%string /\ guid = gEfiGlobalVariableGuid uefi
                 /\ owner = microsoft_guid
               \/ (arg = "db"%string \/ arg = "dbx"%string)
                 /\ guid = gEfiImageSecurityDatabaseGuid uefi
                 /\ owner = microsoft_guid)
           /\ mapM demo_PEM_read files = Some certs
           /\ mapM demo_i2d certs = Some ders
           /\ (0 < length files)%nat
           /\ length ders = length files
           /\ Some demo_now = Some t
           /\ match sign_key with
              | None => sig = []
              | Some k =>
                  demo_sign sign_cert k
                    (signed_message arg guid (attributes uefi)
                       (timestamp_of t)
                       (concat (List.map (signature_list uefi owner) ders)))
                  = Some sig
              end
           /\ bytes = descriptor_bytes uefi (timestamp_of t) (length sig)
                      ++ sig
                      ++ concat (List.map (signature_list uefi owner) ders)
           /\ forall i der,
                ders !! i = Some der ->
                take 16 (drop (40 + length sig + list_offset ders i + 28)
                           bytes)
                = vec_to_list owner)
  /\ ("dbt" <> "PK" /\ "dbt" <> "KEK" /\ "dbt" <> "db" /\ "dbt" <> "dbx")%string
  /\ demo_main demo_opts ["dbt"; "dbt.auth"; "a.pem"]%string = (1, None).
Proof.
  pose proof (guid_selection uefi demo_PEM_read demo_i2d demo_sign
                (fun _ => 0xcc) demo_PEM_read_key demo_fopen demo_fwrite)
    as (_ & Hother & _ & Hrun).
  split; [|split].
  - destruct (demo_main demo_opts ["KEK"; "KEK.auth"; "a.pem"]%string)
      as [status [[out_file bytes]|]] eqn:Hr;
      [|vm_compute in Hr; discriminate].
    assert (status = 0) as -> by (vm_compute in Hr; congruence).
    exists out_file, bytes. split; [reflexivity|].
    exact (Hrun demo_opts ["KEK"; "KEK.auth"; "a.pem"]%string
             (Some demo_now) out_file bytes Hr).
  - repeat split; discriminate.
  - refine (proj2 (proj2 (Hother "dbt"%string _ _ _ _) demo_opts
                     "dbt.auth"%string ["a.pem"]%string (Some demo_now))
              _ _ eq_refl); discriminate.
Defined.

End CreateAuthFacts.

(** * Further facts about the generator *)

Module CreateAuthExtFacts.
Import CreateAuth CreateAuthExt ByteFacts CreateAuthFacts.

Section Slices.

Lemma drop_concat (segs : list (list Z)) (i n : nat) :
  n = length (concat (take i segs)) ->
  drop n (concat segs) = concat (drop i segs).
Proof.
  intros ->. rewrite <- (take_drop i segs) at 2.
  rewrite concat_app. apply drop_app_length.
Qed.

Lemma le_value_le_bytes_small n v :
  0 <= v < 2 ^ (8 * Z.of_nat n) -> le_value (le_bytes n v) = v.
Proof. intros Hv. rewrite le_value_le_bytes. by apply Z.mod_small. Qed.

End Slices.

(** The segment [i] of a buffer written as [concat] of its segments
    starts where the segments before it end. *)
Ltac slice i :=
  rewrite (drop_concat _ i)
    by (cbn [take concat]; rewrite ?length_app; simpl; lia);
  cbn [drop concat].

Section MoreToolFacts.

Context {X509 EVP_PKEY : Type}.
Variable E : efi_h.
Variable PEM_read_X509 : string -> option X509.
Variable i2d_X509 : X509 -> option (list Z).

#[local] Abbreviation payload_of arg ders :=
  (concat (List.map (signature_list E (select_vendor_guid arg)) ders)).

(** ** The signature lists *)

Lemma signature_list_single (owner : EFI_GUID) (der : list Z) :
  Z.of_nat (length der) + 44 < 2 ^ 32 ->
  single_entry_list E owner der (signature_list E owner der).
Proof.
  intros Hlen. unfold single_entry_list.
  rewrite length_signature_list.
  unfold GUID_LEN, offsetof_SignatureType, offsetof_SignatureListSize,
    offsetof_SignatureHeaderSize, offsetof_SignatureSize,
    sizeof_EFI_SIGNATURE_LIST, offsetof_SignatureOwner,
    offsetof_SignatureData, le_load.
  rewrite !Nat2Z.id.
  unfold signature_list.
  set (G := vec_to_list (gEfiCertX509Guid E)).
  set (L1 := le_bytes 4 _). set (L2 := le_bytes 4 0). set (L3 := le_bytes 4 _).
  set (O := vec_to_list owner).
  assert (HG : length G = 16%nat) by apply length_vec_to_list.
  assert (HO : length O = 16%nat) by apply length_vec_to_list.
  assert (H1 : length L1 = 4%nat) by apply length_le_bytes.
  assert (H2 : length L2 = 4%nat) by apply length_le_bytes.
  assert (H3 : length L3 = 4%nat) by apply length_le_bytes.
  replace (G ++ L1 ++ L2 ++ L3 ++ O ++ der)
    with (concat [G; L1; L2; L3; O; der])
    by (cbn [concat]; by rewrite app_nil_r).
  repeat split.
  - rewrite (drop_concat _ 0) by done. cbn [drop concat].
    by apply take_app_length'.
  - rewrite (drop_concat _ 1) by (cbn [take concat]; rewrite length_app; simpl; lia).
    cbn [drop concat]. rewrite take_app_length' by done.
    subst L1. rewrite le_value_le_bytes_small; lia.
  - rewrite (drop_concat _ 2)
      by (cbn [take concat]; rewrite !length_app; simpl; lia).
    cbn [drop concat]. rewrite take_app_length' by done. done.
  - rewrite (drop_concat _ 3)
      by (cbn [take concat]; rewrite !length_app; simpl; lia).
    cbn [drop concat]. rewrite take_app_length' by done.
    subst L3. rewrite le_value_le_bytes_small; lia.
  - rewrite (drop_concat _ 4)
      by (cbn [take concat]; rewrite !length_app; simpl; lia).
    cbn [drop concat]. by apply take_app_length'.
  - rewrite (drop_concat _ 5)
      by (cbn [take concat]; rewrite !length_app; simpl; lia).
    cbn [drop concat]. by rewrite app_nil_r.
Qed.

(** X17.  The data [certs_to_sig_list] returns is made of one
    [EFI_SIGNATURE_LIST] for each certificate, in order and with nothing
    between them, and [data_len] is its length.  Each list describes
    itself: its [SignatureListSize] is its own length (44 bytes more than
    the certificate), its [SignatureHeaderSize] is 0 and its
    [SignatureSize] is the rest of the list, so that it holds exactly one
    entry, made of the owner and the DER bytes of the certificate.
    ([i2d_X509] returns an [int], so a certificate is shorter than
    2^32 - 44 bytes.) *)
Theorem certs_to_sig_list_well_formed uninit certs owner data data_len :
  Forall (fun c => forall der, i2d_X509 c = Some der ->
                     Z.of_nat (length der) + 44 < 2 ^ 32) certs ->
  certs_to_sig_list E i2d_X509 uninit certs owner = Some (data, data_len) ->
  exists ders lists,
    mapM i2d_X509 certs = Some ders
    /\ data = concat lists
    /\ data_len = length data
    /\ Forall2 (single_entry_list E owner) ders lists
    /\ Forall2 (fun der l => length l = (44 + length der)%nat) ders lists.
Proof.
  intros Hsmall. rewrite certs_to_sig_list_spec.
  destruct (mapM i2d_X509 certs) as [ders|] eqn:Hd; [|done].
  cbn [mbind option_bind]. intros [= <- <-].
  exists ders, (List.map (signature_list E owner) ders).
  repeat split; try done.
  - apply mapM_Some_1 in Hd.
    assert (Hs : Forall (fun der => Z.of_nat (length der) + 44 < 2 ^ 32) ders).
    { clear -Hd Hsmall. induction Hd as [|c der certs ders Hc _ IH]; [done|].
      apply Forall_cons in Hsmall as [H1 H2].
      constructor; [by apply H1 | by apply IH]. }
    clear -Hs. induction Hs as [|der ders Hder _ IH]; simpl; constructor;
      [by apply signature_list_single | done].
  - clear. induction ders as [|der ders IH]; simpl; constructor; [|done].
    rewrite length_signature_list. lia.
Qed.

Variable PKCS7_sign_detached_sha256 :
  option X509 -> EVP_PKEY -> list Z -> option (list Z).
Variable uninit : nat -> Z.
Variable PEM_read_PrivateKey : string -> option EVP_PKEY.
Variable fopen_w : string -> bool.
Variable fwrite_count : string -> list Z -> list Z -> nat.

#[local] Abbreviation main' :=
  (main E PEM_read_X509 i2d_X509 PKCS7_sign_detached_sha256 uninit
     PEM_read_PrivateKey fopen_w fwrite_count).
#[local] Abbreviation option_loop' :=
  (option_loop PEM_read_X509 PEM_read_PrivateKey).
#[local] Abbreviation stream_takes' := (stream_takes fopen_w fwrite_count).

(** ** The runs that write a file *)


(** ** The file, read back *)

Lemma read_descriptor (ts : EFI_TIME) (sig payload : list Z) :
  Z.of_nat (length sig) + 24 < 2 ^ 32 ->
  read_auth_file (descriptor_bytes E ts (length sig) ++ sig ++ payload)
  = {| file_timestamp := EFI_TIME_bytes ts;
       file_dwLength := Z.of_nat (length sig) + 24;
       file_wRevision := 0x0200;
       file_wCertificateType := WIN_CERT_TYPE_EFI_GUID;
       file_CertType := vec_to_list (gEfiCertPkcs7Guid E);
       file_signature := sig;
       file_payload := payload |}.
Proof.
  intros Hlen. unfold read_auth_file.
  unfold GUID_LEN, offsetof_TimeStamp, offsetof_dwLength, offsetof_wRevision,
    offsetof_wCertificateType, offsetof_CertType,
    offsetof_WIN_CERTIFICATE_UEFI_GUID_CertData, offsetof_AuthInfo_CertData,
    le_load.
  rewrite !Nat2Z.id. unfold descriptor_bytes.
  set (T := EFI_TIME_bytes ts).
  set (D := le_bytes 4 _). set (R := le_bytes 2 0x0200).
  set (C := le_bytes 2 WIN_CERT_TYPE_EFI_GUID).
  set (G := vec_to_list (gEfiCertPkcs7Guid E)).
  assert (HT : length T = 16%nat) by apply length_EFI_TIME_bytes.
  assert (HD : length D = 4%nat) by apply length_le_bytes.
  assert (HR : length R = 2%nat) by apply length_le_bytes.
  assert (HC : length C = 2%nat) by apply length_le_bytes.
  assert (HG : length G = 16%nat) by apply length_vec_to_list.
  replace ((T ++ D ++ R ++ C ++ G) ++ sig ++ payload)
    with (concat [T; D; R; C; G; sig; payload])
    by (cbn [concat]; rewrite app_nil_r, <- !(assoc_L (++)); done).
  assert (Edw : le_value (take 4 (drop 16 (concat [T; D; R; C; G; sig; payload])))
                = Z.of_nat (length sig) + 24).
  { rewrite (drop_concat _ 1) by (cbn [take concat]; rewrite length_app; simpl; lia).
    cbn [drop concat]. rewrite take_app_length' by done.
    subst D. rewrite le_value_le_bytes_small; lia. }
  rewrite Edw. f_equal.
  all: first [slice 0%nat | slice 2%nat | slice 3%nat | slice 4%nat
             | slice 5%nat | slice 6%nat].
  all: rewrite ?app_nil_r; try (rewrite take_app_length' by (done || lia));
    reflexivity.
Qed.

(** X19.  The file of a run can be read back.  With the lengths taken
    from the [dwLength] field, the reader finds the timestamp of the
    run, [wRevision] 0x0200, [wCertificateType] 0x0EF1, the PKCS#7
    certificate type, the signature and the payload; and the message that
    the signature was made over is the name in UCS-2, the GUID of the
    variable, the attributes and the timestamp and payload of the file.
    (The signature is shorter than 2^32 - 24 bytes: [i2d_PKCS7] returns
    its length as an [int].) *)
Theorem auth_file_read_back opts args now out_file bytes :
  main' opts args now = (0, Some (out_file, bytes)) ->
  exists sign_key sign_cert arg guid t sig ders,
    option_loop' opts None None = inr (sign_key, sign_cert)
    /\ head args = Some arg
    /\ select_guid E arg = Some guid
    /\ now = Some t
    /\ length bytes = (40 + length sig + length (payload_of arg ders))%nat
    /\ (Z.of_nat (length sig) + 24 < 2 ^ 32 ->
        let f := read_auth_file bytes in
        file_timestamp f = EFI_TIME_bytes (timestamp_of t)
        /\ file_dwLength f = Z.of_nat (length sig) + 24
        /\ file_wRevision f = 0x0200
        /\ file_wCertificateType f = WIN_CERT_TYPE_EFI_GUID
        /\ file_CertType f = vec_to_list (gEfiCertPkcs7Guid E)
        /\ file_signature f = sig
        /\ file_payload f = payload_of arg ders
        /\ match sign_key with
           | None => sig = []
           | Some key =>
               PKCS7_sign_detached_sha256 sign_cert key
                 (name_ucs2 arg ++ vec_to_list guid
                  ++ le_bytes 4 (attributes E)
                  ++ file_timestamp f ++ file_payload f)
               = Some sig
           end).
Proof.
  intros Hrun.
  destruct (main_inv _ _ _ _ _ _ _ _ _ _ _ _ _ Hrun)
    as (sign_key & sign_cert & arg & files & guid & certs & t & ders & sig
        & Ho & _ & -> & _ & Hg & _ & -> & _ & Hsig & _ & ->).
  exists sign_key, sign_cert, arg, guid, t, sig, ders.
  split; [done|]. split; [done|]. split; [done|]. split; [done|]. split.
  { rewrite !length_app, length_descriptor_bytes. lia. }
  intros Hlen f. subst f. rewrite read_descriptor by done.
  cbn [file_timestamp file_dwLength file_wRevision file_wCertificateType
       file_CertType file_signature file_payload].
  repeat split; try done.
  by apply signature_of_cases in Hsig.
Qed.

End MoreToolFacts.

(** ** What does not reach the file *)

Section Independence.

Context {X509 EVP_PKEY : Type}.
Variable E : efi_h.
Variable PEM_read_X509 : string -> option X509.
Variable i2d_X509 : X509 -> option (list Z).

Variable PEM_read_PrivateKey : string -> option EVP_PKEY.
Variable fopen_w : string -> bool.
Variable fwrite_count : string -> list Z -> list Z -> nat.

#[local] Abbreviation option_loop' :=
  (option_loop PEM_read_X509 PEM_read_PrivateKey).

(** X20.  No byte that the program has not written is used: whatever
    [malloc] and [realloc] leave in the memory they return, the signature
    lists, the name, the descriptor bytes written to the file, the
    message handed to the signer and the run as a whole, its exit status
    and the file it writes, are the same. *)
Theorem uninitialised_memory_unused
    (sign : option X509 -> EVP_PKEY -> list Z -> option (list Z))
    (u1 u2 : nat -> Z) :
  (forall certs owner,
      certs_to_sig_list E i2d_X509 u1 certs owner
      = certs_to_sig_list E i2d_X509 u2 certs owner)
  /\ (forall arg, name_arg u1 arg = name_arg u2 arg)
  /\ (forall name guid attr timestamp data,
      sign_data_buf u1 name (length name) guid attr timestamp data (length data)
      = sign_data_buf u2 name (length name) guid attr timestamp data
          (length data))
  /\ (forall sig_len timestamp,
      take (create_descriptor E u1 sig_len timestamp).2
        (create_descriptor E u1 sig_len timestamp).1
      = take (create_descriptor E u2 sig_len timestamp).2
          (create_descriptor E u2 sig_len timestamp).1)
  /\ (forall opts args now,
      main E PEM_read_X509 i2d_X509 sign u1 PEM_read_PrivateKey fopen_w
        fwrite_count opts args now
      = main E PEM_read_X509 i2d_X509 sign u2 PEM_read_PrivateKey fopen_w
          fwrite_count opts args now).
Proof.
  split; [|split; [|split; [|split]]].
  - intros certs owner. by rewrite !certs_to_sig_list_spec.
  - intros arg. by rewrite !name_arg_spec.
  - intros name guid attr timestamp data. by rewrite !sign_data_buf_spec.
  - intros sig_len timestamp.
    pose proof (create_descriptor_spec E u1 sig_len timestamp) as H1.
    pose proof (create_descriptor_spec E u2 sig_len timestamp) as H2.
    destruct (create_descriptor E u1 sig_len timestamp) as [d1 n1].
    destruct (create_descriptor E u2 sig_len timestamp) as [d2 n2].
    destruct H1 as [E1 _], H2 as [E2 _]. cbn [fst snd]. by rewrite E1, E2.
  - intros opts args now. by rewrite !main_spec.
Qed.

(** X21.  A run without options does not call the signer and writes an
    unsigned file, the 40 descriptor bytes with a [dwLength] of 24 and
    then the payload; no other run has neither key nor certificate after
    the loop over the options.  A run whose options have loaded a key and
    no certificate, or a certificate and no key, ends in [exit(1)] after
    the loop, whatever its arguments are, and opens no file.  (The loop
    itself ends a run at [-h], with the status 0, and at an unknown
    option or a file that cannot be read, with the status 1.) *)
Theorem unsigned_and_half_signed_runs
    (sign : option X509 -> EVP_PKEY -> list Z -> option (list Z))
    (uninit : nat -> Z) args now :
  (forall sign' : option X509 -> EVP_PKEY -> list Z -> option (list Z),
      main E PEM_read_X509 i2d_X509 sign uninit PEM_read_PrivateKey fopen_w
        fwrite_count [] args now
      = main E PEM_read_X509 i2d_X509 sign' uninit PEM_read_PrivateKey fopen_w
          fwrite_count [] args now)
  /\ (forall out_file bytes,
      main E PEM_read_X509 i2d_X509 sign uninit PEM_read_PrivateKey fopen_w
        fwrite_count [] args now
      = (0, Some (out_file, bytes)) ->
      exists t,
        now = Some t
        /\ take 40 bytes
           = EFI_TIME_bytes (timestamp_of t) ++ le_bytes 4 24
             ++ le_bytes 2 0x0200 ++ le_bytes 2 WIN_CERT_TYPE_EFI_GUID
             ++ vec_to_list (gEfiCertPkcs7Guid E)
        /\ exists arg certs ders,
             head args = Some arg
             /\ mapM PEM_read_X509 (drop 2 args) = Some certs
             /\ mapM i2d_X509 certs = Some ders
             /\ drop 40 bytes
                = concat (List.map (signature_list E (select_vendor_guid arg))
                            ders))
  /\ (forall opts, option_loop' opts None None = inr (None, None) <-> opts = [])
  /\ (forall opts key,
      option_loop' opts None None = inr (Some key, None) ->
      main E PEM_read_X509 i2d_X509 sign uninit PEM_read_PrivateKey fopen_w
        fwrite_count opts args now = (1, None))
  /\ (forall opts cert,
      option_loop' opts None None = inr (None, Some cert) ->
      main E PEM_read_X509 i2d_X509 sign uninit PEM_read_PrivateKey fopen_w
        fwrite_count opts args now = (1, None))
  /\ (forall optarg optarg' opts,
      PEM_read_PrivateKey optarg <> None ->
      main E PEM_read_X509 i2d_X509 sign uninit PEM_read_PrivateKey fopen_w
        fwrite_count (("k"%char, optarg) :: ("h"%char, optarg') :: opts)
        args now = (0, None)).
Proof.
  split; [|split; [|split; [|split; [|split]]]].
  - intros sign'. by rewrite !main_spec.
  - intros out_file bytes Hrun.
    destruct (main_inv _ _ _ _ _ _ _ _ _ _ _ _ _ Hrun)
      as (sign_key & sign_cert & arg & files & guid & certs & t & ders & sig
          & [= <- <-] & _ & -> & _ & Hg & Hc & -> & Hd & [= <-] & _ & ->).
    pose proof (length_descriptor_bytes E (timestamp_of t) (length (@nil Z)))
      as Hl.
    exists t. split; [done|]. split.
    + by rewrite take_app_length'.
    + exists arg, certs, ders. repeat split; try done.
      by rewrite drop_app_length'.
  - apply option_loop_none.
  - intros opts key Ho. by rewrite main_spec, Ho.
  - intros opts cert Ho. by rewrite main_spec, Ho.
  - intros optarg optarg' opts Hk. rewrite main_spec. cbn [option_loop].
    change (Ascii.eqb "k" "c") with false.
    change (Ascii.eqb "k" "k") with true.
    change (Ascii.eqb "h" "c") with false.
    change (Ascii.eqb "h" "k") with false.
    change (Ascii.eqb "h" "h") with true.
    cbv iota. by destruct (PEM_read_PrivateKey optarg).
Qed.

End Independence.

(** ** The theorems at a run of the demonstration tool *)

(** Two certificates, of three bytes and of one. *)
Lemma certs_to_sig_list_well_formed_witness :
  let certs := [[0x30; 0x82; 0x01]; [0x30]] in
  exists data data_len,
    (Forall (fun c => forall der, demo_i2d c = Some der ->
                        Z.of_nat (length der) + 44 < 2 ^ 32) certs
     /\ certs_to_sig_list uefi demo_i2d (fun _ => 0xcc) certs citrix_guid
        = Some (data, data_len))
    /\ exists ders lists,
         mapM demo_i2d certs = Some ders
         /\ data = concat lists
         /\ data_len = length data
         /\ Forall2 (single_entry_list uefi citrix_guid) ders lists
         /\ Forall2 (fun der l => length l = (44 + length der)%nat) ders lists.
Proof.
  intros certs.
  destruct (certs_to_sig_list uefi demo_i2d (fun _ => 0xcc) certs citrix_guid)
    as [[data data_len]|] eqn:Hrun; [|vm_compute in Hrun; discriminate].
  exists data, data_len.
  assert (Hsmall : Forall (fun c => forall der, demo_i2d c = Some der ->
                             Z.of_nat (length der) + 44 < 2 ^ 32) certs).
  { repeat constructor; intros der [= <-]; simpl; lia. }
  split; [split; [exact Hsmall | reflexivity]|].
  exact (certs_to_sig_list_well_formed uefi demo_i2d (fun _ => 0xcc) certs
           citrix_guid data data_len Hsmall Hrun).
Defined.

(** [create-auth -k PK.key -c PK.pem KEK KEK.auth a.pem b.pem]. *)
Lemma auth_file_read_back_witness :
  exists out_file bytes,
    demo_main demo_opts ["KEK"; "KEK.auth"; "a.pem"; "b.pem"]%string
    = (0, Some (out_file, bytes))
    /\ exists sign_key sign_cert arg guid t sig ders,
         option_loop demo_PEM_read demo_PEM_read_key demo_opts None None
         = inr (sign_key, sign_cert)
         /\ head ["KEK"; "KEK.auth"; "a.pem"; "b.pem"]%string = Some arg
         /\ select_guid uefi arg = Some guid
         /\ Some demo_now = Some t
         /\ length bytes
            = (40 + length sig
               + length (concat (List.map
                                   (signature_list uefi (select_vendor_guid arg))
                                   ders)))%nat
         /\ (Z.of_nat (length sig) + 24 < 2 ^ 32 ->
             let f := read_auth_file bytes in
             file_timestamp f = EFI_TIME_bytes (timestamp_of t)
             /\ file_dwLength f = Z.of_nat (length sig) + 24
             /\ file_wRevision f = 0x0200
             /\ file_wCertificateType f = WIN_CERT_TYPE_EFI_GUID
             /\ file_CertType f = vec_to_list (gEfiCertPkcs7Guid uefi)
             /\ file_signature f = sig
             /\ file_payload f
                = concat (List.map
                            (signature_list uefi (select_vendor_guid arg)) ders)
             /\ match sign_key with
                | None => sig = []
                | Some key =>
                    demo_sign sign_cert key
                      (name_ucs2 arg ++ vec_to_list guid
                       ++ le_bytes 4 (attributes uefi)
                       ++ file_timestamp f ++ file_payload f)
                    = Some sig
                end).
Proof.
  destruct (demo_main demo_opts ["KEK"; "KEK.auth"; "a.pem"; "b.pem"]%string)
    as [status [[out_file bytes]|]] eqn:Hrun;
    [|vm_compute in Hrun; discriminate].
  assert (status = 0) as -> by (vm_compute in Hrun; congruence).
  exists out_file, bytes. split; [reflexivity|].
  exact (auth_file_read_back uefi demo_PEM_read demo_i2d demo_sign
           (fun _ => 0xcc) demo_PEM_read_key demo_fopen demo_fwrite
           demo_opts ["KEK"; "KEK.auth"; "a.pem"; "b.pem"]%string
           (Some demo_now) out_file bytes Hrun).
Defined.

End CreateAuthExtFacts.
